(** * ConsensusCruncher: single-strand consensus maker (SSCS_molecular_phred.py)

    A shallow embedding of the pure core of [SSCS_molecular_phred.py]:
    [mismatch_pos], [query_seq_pos], [consensus_maker], [chr_arm_pos],
    [reverse_seq] and [sscs_qname], and of the loop of [main] that files
    the reads of a region, together with the properties the specification
    states about them.

    Conventions of the embedding.
    - Python [int] is [Z]; lengths taken from a CIGAR tuple are [nat].
    - Python [str] is [string] (ASCII); lists are [list].
    - A Python call that may raise is a computation in the [result] monad;
      the exception classes that the modelled code can raise are the
      constructors of [exn].  A bare [except:] is [catch].
    - [random.randint] is a source of bounded draws, [RandomSource].
    - An [OrderedDict] or [defaultdict] is a list of keys with their
      values, in insertion order ([od_get], [od_set]).
    - [round(-10 * math.log10(P))] works on doubles: it is the integer
      nearest to the real number, up to what double arithmetic rounds
      off; where that leaves two integers, the answer is read from a
      [FloatSource] (see [phred_float]). *)

From Stdlib Require Import ZArith QArith Reals Lra List String Ascii Bool Lia Sorted.
Import ListNotations.

Local Open Scope string_scope.
Local Open Scope list_scope.
Local Open Scope Z_scope.

(** ** Python primitives *)

Module Py.

Inductive exn : Set :=
| IndexError
| ValueError
| KeyError
| ZeroDivisionError
| OverflowError
| UnboundLocalError.

Inductive result (A : Type) : Type :=
| Ok (a : A)
| Raise (e : exn).

Arguments Ok {A} a.
Arguments Raise {A} e.

Definition bind {A B : Type} (m : result A) (k : A -> result B) : result B :=
  match m with
  | Ok a => k a
  | Raise e => Raise e
  end.

(** [try: m except: h] with a bare [except]. *)
Definition catch {A : Type} (m : result A) (h : A) : A :=
  match m with
  | Ok a => a
  | Raise _ => h
  end.

Definition returns {A : Type} (m : result A) : bool :=
  match m with
  | Ok _ => true
  | Raise _ => false
  end.

(** [l[i]] on a list, negative indices counting from the end. *)
Definition getitem {A : Type} (l : list A) (i : Z) : result A :=
  let n := Z.of_nat (List.length l) in
  let k := if i <? 0 then i + n else i in
  if (0 <=? k) && (k <? n)
  then match nth_error l (Z.to_nat k) with
       | Some a => Ok a
       | None => Raise IndexError
       end
  else Raise IndexError.

(** [l[i] = v] for an index known to be a natural number. *)
Fixpoint setitem {A : Type} (l : list A) (i : nat) (v : A) : list A :=
  match l, i with
  | [], _ => []
  | _ :: t, O => v :: t
  | h :: t, S i' => h :: setitem t i' v
  end.

(** [s[i]] on a string, negative indices counting from the end. *)
Definition str_getitem (s : string) (i : Z) : result ascii :=
  let k := if i <? 0 then i + Z.of_nat (String.length s) else i in
  if k <? 0 then Raise IndexError
  else match String.get (Z.to_nat k) s with
       | Some c => Ok c
       | None => Raise IndexError
       end.

(** [s.split(sep)] for a one-character separator. *)
Fixpoint split (sep : ascii) (s : string) : list string :=
  match s with
  | EmptyString => [EmptyString]
  | String c s' =>
      if Ascii.eqb c sep then EmptyString :: split sep s'
      else match split sep s' with
           | t :: ts => String c t :: ts
           | [] => [String c EmptyString]
           end
  end.

(** [sep.join(l)]. *)
Definition join (sep : string) (l : list string) : string :=
  String.concat sep l.

(** [s[:-n]]. *)
Definition drop_last (n : nat) (s : string) : string :=
  String.substring 0 (String.length s - n) s.

(** [pat in s]. *)
Fixpoint contains (pat s : string) : bool :=
  String.prefix pat s
  || match s with
     | EmptyString => false
     | String _ s' => contains pat s'
     end.

(** [x in l] on a list of integers. *)
Definition mem (x : Z) (l : list Z) : bool := existsb (Z.eqb x) l.

(** *** [int(s)]

    Surrounding white space is stripped, which on an ASCII string is the
    characters 9 to 13 and the blank; one sign is allowed, and the rest is
    a non-empty run of decimal digits, single underscores being allowed
    between two digits. *)

Definition is_space (c : ascii) : bool :=
  let n := nat_of_ascii c in
  (((9 <=? n) && (n <=? 13)) || (n =? 32))%nat.

Definition is_digit (c : ascii) : bool :=
  let n := nat_of_ascii c in ((48 <=? n) && (n <=? 57))%nat.

Definition digit_val (c : ascii) : Z := Z.of_nat (nat_of_ascii c) - 48.

Fixpoint lstrip (s : string) : string :=
  match s with
  | String c s' => if is_space c then lstrip s' else s
  | EmptyString => EmptyString
  end.

Fixpoint rstrip (s : string) : string :=
  match s with
  | EmptyString => EmptyString
  | String c s' =>
      match rstrip s' with
      | EmptyString => if is_space c then EmptyString else String c EmptyString
      | r => String c r
      end
  end.

Definition strip (s : string) : string := rstrip (lstrip s).

(** Digits read left to right; [after_digit] tells whether the previous
    character was a digit, so that an underscore is legal here. *)
Fixpoint parse_digits (s : string) (acc : Z) (after_digit : bool) : option Z :=
  match s with
  | EmptyString => if after_digit then Some acc else None
  | String c s' =>
      if is_digit c then parse_digits s' (10 * acc + digit_val c) true
      else if Ascii.eqb c "_"%char && after_digit
           then match s' with
                | String c' _ => if is_digit c' then parse_digits s' acc false
                                 else None
                | EmptyString => None
                end
           else None
  end.

Definition int (s : string) : result Z :=
  let body :=
    match strip s with
    | EmptyString => None
    | String c r =>
        if Ascii.eqb c "-" then option_map Z.opp (parse_digits r 0 false)
        else if Ascii.eqb c "+" then parse_digits r 0 false
        else parse_digits (String c r) 0 false
    end in
  match body with
  | Some z => Ok z
  | None => Raise ValueError
  end.

(** *** [str(n)] on an integer *)

Definition digit_char (d : Z) : ascii := ascii_of_nat (Z.to_nat (48 + d)).

Fixpoint str_digits (fuel : nat) (n : Z) (acc : string) : string :=
  let acc' := String (digit_char (n mod 10)) acc in
  match fuel with
  | O => acc'
  | S f => if n <? 10 then acc' else str_digits f (n / 10) acc'
  end.

Definition str_of_nonneg (n : Z) : string :=
  str_digits (Z.to_nat (Z.log2 n)) n EmptyString.

Definition str (n : Z) : string :=
  if n <? 0 then String "-"%char (str_of_nonneg (- n)) else str_of_nonneg n.

(** [sorted(set(l))] on integers: insertion into a strictly increasing
    list, an element already present being dropped. *)
Fixpoint insert_uniq (x : Z) (l : list Z) : list Z :=
  match l with
  | [] => [x]
  | y :: t =>
      if x <? y then x :: l
      else if x =? y then l
      else y :: insert_uniq x t
  end.

Definition sorted_set (l : list Z) : list Z := fold_right insert_uniq [] l.

(** [sum(l)] and [max(l)]. *)
Definition sum (l : list Z) : Z := fold_right Z.add 0 l.

Definition max (l : list Z) : result Z :=
  match l with
  | [] => Raise ValueError
  | x :: t => Ok (fold_left Z.max t x)
  end.

End Py.

Import Py.

Declare Scope py_scope.
Delimit Scope py_scope with py.
Notation "x <- m ;; k" := (Py.bind m (fun x => k))
  (at level 61, m at next level, right associativity) : py_scope.
Notation "' p <- m ;; k" := (Py.bind m (fun x => let p := x in k))
  (at level 61, p pattern, m at next level, right associativity) : py_scope.
Local Open Scope py_scope.

(** ** Alignment records

    The fields of a pysam [AlignedSegment] that the consensus code reads. *)

(** CIGAR operation codes as pysam reports them. *)
Definition MATCH : nat := 0.
Definition INSERTION : nat := 1.
Definition DELETION : nat := 2.
Definition SOFT_CLIP : nat := 4.
Definition HARD_CLIP : nat := 5.

Definition cigar_t : Type := list (nat * nat).

Record AlignedRead : Type := mkRead {
  cigar : cigar_t;
  MD : string;                              (* read.get_tag('MD') *)
  query_alignment_qualities : list Z;
  query_alignment_sequence : string
}.

(** ** [mismatch_pos] *)

(** A character of the class [0-9, \^]: it belongs to a token of
    [re.split('[^0-9, \^]+', mismatch_tag)]. *)
Definition md_token_char (c : ascii) : bool :=
  is_digit c || Ascii.eqb c ","%char || Ascii.eqb c " "%char
  || Ascii.eqb c "^"%char.

(** [re.split('[^0-9, \^]+', s)]: the pieces between maximal runs of
    non-token characters, empty pieces at both ends included. *)
Fixpoint re_split_md (in_sep : bool) (s : string) : list string :=
  match s with
  | EmptyString => [EmptyString]
  | String c s' =>
      if md_token_char c then
        match re_split_md false s' with
        | t :: ts => String c t :: ts
        | [] => [String c EmptyString]
        end
      else if in_sep then re_split_md true s'
      else EmptyString :: re_split_md true s'
  end.

(** [mis_pos[-1] += d]. *)
Fixpoint add_to_last (l : list Z) (d : Z) : list Z :=
  match l with
  | [] => []
  | [x] => [x + d]
  | x :: t => x :: add_to_last t d
  end.

(** State of the first loop of [mismatch_pos]. *)
Record md_state : Type := mkMd {
  mis_pos : list Z;
  del_pos : Z;
  prev_del : bool
}.

(** One iteration of [for i in range(len(mismatches)-1)], on [tok =
    mismatches[i]]; [n] is [len(mismatches)]. *)
Definition md_step (n : nat) (i : Z) (tok : string) (st : md_state)
  : result md_state :=
  if String.eqb tok EmptyString then
    Ok (mkMd (mis_pos st ++ [0]) (del_pos st) (prev_del st))
  else if contains "^" tok then
    d <- int (drop_last 1 tok) ;;
    Ok (mkMd (mis_pos st) (del_pos st + d) true)
  else
    v <- int tok ;;
    let mp := mis_pos st ++ [v] in
    let st1 :=
      if prev_del st then mkMd (add_to_last mp (del_pos st)) 0 false
      else mkMd mp (del_pos st) (prev_del st) in
    if (2 <=? n)%nat then
      if negb (i =? 0) && (1 <? List.length (mis_pos st1))%nat then
        prev <- getitem (mis_pos st1) (-2) ;;
        Ok (mkMd (add_to_last (mis_pos st1) (prev + 1))
                 (del_pos st1) (prev_del st1))
      else Ok st1
    else Ok st1.

Fixpoint md_loop (n : nat) (i : Z) (toks : list string) (st : md_state)
  : result md_state :=
  match toks with
  | [] => Ok st
  | tok :: rest =>
      st' <- md_step n i tok st ;;
      md_loop n (i + 1) rest st'
  end.

(** [for j in range(k): mis_pos.append(insert); insert += 1]. *)
Fixpoint append_run (k : nat) (mp : list Z) (insert : Z) : list Z * Z :=
  match k with
  | O => (mp, insert)
  | S k' => append_run k' (mp ++ [insert]) (insert + 1)
  end.

(** The second loop of [mismatch_pos], [for i in cigar]. *)
Fixpoint insert_loop (cig : cigar_t) (mp : list Z) (insert : Z) : list Z :=
  match cig with
  | [] => mp
  | (op, len) :: rest =>
      if (op =? 1)%nat then
        let '(mp', insert') := append_run len mp insert in
        insert_loop rest mp' insert'
      else if (op =? 0)%nat then
        insert_loop rest mp (insert + Z.of_nat len)
      else insert_loop rest mp insert
  end.

Definition mismatch_pos (cig : cigar_t) (mismatch_tag : string)
  : result (list Z) :=
  let mismatches := re_split_md false mismatch_tag in
  let n := List.length mismatches in
  st <- md_loop n 0 (firstn (n - 1) mismatches) (mkMd [] 0 false) ;;
  Ok (sorted_set (insert_loop cig (mis_pos st) 0)).

(** ** [query_seq_pos] *)

Definition is_clip (op : nat) : bool := (op =? 4)%nat || (op =? 5)%nat.

Definition query_seq_pos (cig : cigar_t) (readLength : Z) : result (Z * Z) :=
  let start := 0 in
  let end_ := readLength in
  first <- getitem cig 0 ;;
  let start := if is_clip (fst first) then start + Z.of_nat (snd first)
               else start in
  last <- getitem cig (-1) ;;
  let end_ := if is_clip (fst last) then end_ - Z.of_nat (snd last)
              else end_ in
  Ok (start, end_).

(** ** [reverse_seq] *)

(** The dictionary [nuc] of [reverse_seq]; a missing key is a [KeyError]. *)
Definition complement (base : ascii) : result ascii :=
  if Ascii.eqb base "A" then Ok "T"%char
  else if Ascii.eqb base "C" then Ok "G"%char
  else if Ascii.eqb base "G" then Ok "C"%char
  else if Ascii.eqb base "T" then Ok "A"%char
  else if Ascii.eqb base "N" then Ok "N"%char
  else Raise KeyError.

(** [for base in seq: rev_comp = nuc[base] + rev_comp]. *)
Fixpoint reverse_seq_loop (seq rev_comp : string) : result string :=
  match seq with
  | EmptyString => Ok rev_comp
  | String base seq' =>
      c <- complement base ;;
      reverse_seq_loop seq' (String c rev_comp)
  end.

Definition reverse_seq (seq : string) : result string :=
  reverse_seq_loop seq EmptyString.

(** ** [sscs_qname] *)

Definition flag_pairings : list (Z * Z) :=
  [ (99, 147); (147, 99); (83, 163); (163, 83);
    (67, 131); (131, 67); (115, 179); (179, 115);
    (81, 161); (161, 81); (97, 145); (145, 97);
    (65, 129); (129, 65); (113, 177); (177, 113) ].

(** [d[k]] on a dictionary with integer keys. *)
Fixpoint dict_get (d : list (Z * Z)) (k : Z) : result Z :=
  match d with
  | [] => Raise KeyError
  | (k', v) :: d' => if k =? k' then Ok v else dict_get d' k
  end.

(** The test of line 410, with Python's short-circuit evaluation. *)
Definition out_of_order (start_chr start_coor stop_chr stop_coor : string)
  : result bool :=
  a <- int start_coor ;;
  b <- int stop_coor ;;
  if (a >? b) && String.eqb start_chr stop_chr then Ok true
  else if negb (String.eqb start_chr stop_coor) then
    x <- int start_chr ;;
    y <- int stop_chr ;;
    Ok (x >? y)
  else Ok false.

(** The name [new_tag] after the first [if]/[else] of [sscs_qname]; [None]
    when no branch has assigned it. *)
Definition strand_tag (tag : string) (flag : Z) : result (option string) :=
  let fields := split "_" tag in
  start_chr <- getitem fields 1 ;;
  stop_chr <- getitem fields 3 ;;
  start_coor <- getitem fields 2 ;;
  stop_coor <- getitem fields 4 ;;
  swap <- out_of_order start_chr start_coor stop_chr stop_coor ;;
  if swap : bool then
    let new_tag := fields in
    let new_tag := setitem new_tag 1 stop_chr in
    let new_tag := setitem new_tag 3 start_chr in
    let new_tag := setitem new_tag 2 stop_coor in
    let new_tag := setitem new_tag 4 start_coor in
    let new_tag := drop_last 7 (join "_" new_tag) in
    if contains "R1" tag then Ok (Some (new_tag ++ "_neg")%string)
    else Ok (Some (new_tag ++ "_pos")%string)
  else if String.eqb start_chr stop_chr && String.eqb start_coor stop_coor then
    if mem flag [99; 147] then Ok (Some (drop_last 7 tag ++ "_pos")%string)
    else if mem flag [83; 163] then Ok (Some (drop_last 7 tag ++ "_neg")%string)
    else Ok None
  else if contains "R1" tag then Ok (Some (drop_last 7 tag ++ "_pos")%string)
  else Ok (Some (drop_last 7 tag ++ "_neg")%string).

(** ['{}_{}_{}'.format(a, b, c)]. *)
Definition format3 (a : string) (b c : Z) : string :=
  (a ++ "_" ++ str b ++ "_" ++ str c)%string.

Definition sscs_qname (tag : string) (flag : Z) : result string :=
  new_tag <- strand_tag tag flag ;;
  mate <- dict_get flag_pairings flag ;;
  new_tag <- match new_tag with
             | Some t => Ok t
             | None => Raise UnboundLocalError
             end ;;
  if flag <? mate then Ok (format3 new_tag flag mate)
  else Ok (format3 new_tag mate flag).

(** ** [consensus_maker] *)

Definition nuc_lst : list ascii :=
  ["A"%char; "C"%char; "G"%char; "T"%char; "N"%char].

(** [nuc_lst.index(nuc)]: position of the first occurrence, [ValueError]
    when there is none. *)
Fixpoint list_index (l : list ascii) (c : ascii) : result Z :=
  match l with
  | [] => Raise ValueError
  | x :: t => if Ascii.eqb x c then Ok 0
              else k <- list_index t c ;; Ok (k + 1)
  end.

(** [l[k] += 1]. *)
Fixpoint incr_at (l : list Z) (k : nat) : list Z :=
  match l, k with
  | [], _ => []
  | x :: t, O => (x + 1) :: t
  | x :: t, S k' => x :: incr_at t k'
  end.

(** [random.randint]: the draw of the [n]-th call lies between its two
    arguments whenever they are in order. *)
Record RandomSource : Type := mkRandom {
  randint : nat -> Z -> Z -> Z;
  randint_range : forall n a b, a <= b -> a <= randint n a b <= b
}.

(** State of the loop [for j in range(len(readList))]; [pos] is the loop
    variable [i] of the enclosing loop, which the body rewrites. *)
Record vote_state : Type := mkVote {
  position_score : list Z;
  phred_fail : Z;
  pos : Z
}.

(** Body of the loop over the reads, lines 228-256, for [readList[j]] and
    [mismatch_pos_lst[j]]. *)
Definition vote_step (readLength : Z) (read : AlignedRead)
    (mismatches : list Z) (st : vote_state) : result vote_state :=
  let i := pos st in
  query_pos <- query_seq_pos (cigar read) readLength ;;
  if (i <? fst query_pos) || (i >=? snd query_pos) then
    Ok (mkVote (incr_at (position_score st) 4) (phred_fail st) i)
  else
    fail <- (if mem i mismatches then
               q <- getitem (query_alignment_qualities read) i ;;
               Ok (q <? 30)
             else Ok false) ;;
    if fail : bool then
      Ok (mkVote (position_score st) (phred_fail st + 1) i)
    else
      let i := i - fst query_pos in
      nuc <- str_getitem (query_alignment_sequence read) i ;;
      nuc_index <- list_index nuc_lst nuc ;;
      let score := incr_at (position_score st) (Z.to_nat nuc_index) in
      let i := i + fst query_pos in
      Ok (mkVote score (phred_fail st) i).

Fixpoint vote_loop (readLength : Z) (reads : list (AlignedRead * list Z))
    (st : vote_state) : result vote_state :=
  match reads with
  | [] => Ok st
  | (read, mismatches) :: rest =>
      st' <- vote_step readLength read mismatches st ;;
      vote_loop readLength rest st'
  end.

(** The vote count [position_score] of position [i] once all reads have
    been seen. *)
Definition tally (readLength : Z) (reads : list (AlignedRead * list Z))
    (i : Z) : result (list Z) :=
  st <- vote_loop readLength reads (mkVote [0; 0; 0; 0; 0] 0 i) ;;
  Ok (position_score st).

(** *** Molecular phred score

    [P = sum(error_bases)/sum(position_score)] is the double nearest to the
    quotient [e/t] of two integers; it is kept as that quotient, and it is
    0 exactly when [e] is.  [-10 * math.log10(P)] is a double too.  It
    differs from the real number [10 * log10(t/e)] by what the division,
    the logarithm and the product round off, far less than [10^-9] for
    counts below [2^63].  [round] then gives the integer nearest to that
    double.  This is the integer nearest to the real number, [phred_up],
    unless the real number is so close to a half-integer that the double
    may lie on the other side of it; what the platform answers there is
    not fixed by the source and is read from a [FloatSource].  No quotient
    of integers lies exactly half-way between two integers. *)

(** The least [q' >= q] with [t^20 < 10^(2q'+1) * e^20], looking at [fuel]
    candidates. *)
Fixpoint phred_search (fuel : nat) (e t q : Z) : Z :=
  match fuel with
  | O => q
  | S f => if t ^ 20 <? 10 ^ (2 * q + 1) * e ^ 20 then q
           else phred_search f e t (q + 1)
  end.

(** The integer nearest to the real number [10 * log10(t/e)], for
    [0 < e <= t]: the [q] with [10^(2q-1) * e^20 <= t^20 < 10^(2q+1) * e^20]. *)
Definition phred_up (e t : Z) : Z :=
  phred_search (Z.to_nat (Z.log2 (t ^ 20))) e t 0.

(** Double arithmetic: whether a value that is close to a half-integer is
    computed on the other side of it. *)
Record FloatSource : Type := mkFloat {
  other_side : Z -> Z -> bool
}.

(** The platform on which every double lies on the side of the real number
    it stands for. *)
Definition exact_rounding : FloatSource := mkFloat (fun _ _ => false).

(** [10 * log10(b/a)] is close to the half-integer [m/2]: [(b/a)^20] and
    [10^m] are within a factor [1 + 10^-9] of each other, which puts the
    two numbers within [3 * 10^-10] of each other. *)
Definition near_half (a b m : Z) : bool :=
  (b ^ 20 * 10 ^ 9 <=? 10 ^ m * a ^ 20 * (10 ^ 9 + 1))
  && (10 ^ m * a ^ 20 * 10 ^ 9 <=? b ^ 20 * (10 ^ 9 + 1)).

(** [round(10 * log10(b/a))] as computed on doubles, for [0 < a <= b]. *)
Definition phred_float (fp : FloatSource) (a b : Z) : Z :=
  let q := phred_up a b in
  if near_half a b (2 * q - 1) then
    if other_side fp a b then q - 1 else q
  else if near_half a b (2 * q + 1) then
    if other_side fp a b then q + 1 else q
  else q.

Definition molecular_phred (fp : FloatSource) (P : Q) : Z :=
  let e := Qnum P in
  let t := Zpos (Qden P) in
  if e <=? t then phred_float fp e t else - phred_float fp t e.

(** [a / b] on integers. *)
Definition true_div (a b : Z) : result Q :=
  if b =? 0 then Raise ZeroDivisionError
  else Ok (inject_Z a / inject_Z b)%Q.

(** [round(-10 * math.log10(P))]; [math.log10] raises [ValueError] outside
    its domain. *)
Definition round_phred (fp : FloatSource) (P : Q) : result Z :=
  if Qnum P <=? 0 then Raise ValueError else Ok (molecular_phred fp P).

(** [enumerate(l)], counting from [k]. *)
Fixpoint enumerate_from (k : Z) (l : list Z) : list (Z * Z) :=
  match l with
  | [] => []
  | x :: t => (k, x) :: enumerate_from (k + 1) t
  end.

(** [[f for f, k in enumerate(position_score) if k == max(position_score)]]. *)
Definition max_nuc_positions (score : list Z) : list Z :=
  match Py.max score with
  | Ok m => map fst (filter (fun fk => snd fk =? m) (enumerate_from 0 score))
  | Raise _ => []
  end.

(** Lines 261-273: the index of the winning symbol and its quality [Q];
    [n] numbers the call to [randint]. *)
Definition winner (fp : FloatSource) (rng : RandomSource) (n : nat)
    (score : list Z) : result (Z * Z) :=
  let max_nuc_pos := max_nuc_positions score in
  let hi := Z.of_nat (List.length max_nuc_pos) - 1 in
  r <- (if 0 <=? hi then Ok (randint rng n 0 hi) else Raise ValueError) ;;
  max_nuc_pos <- getitem max_nuc_pos r ;;
  let error_bases := firstn (Z.to_nat max_nuc_pos) score
                     ++ skipn (Z.to_nat (max_nuc_pos + 1)) score in
  P <- true_div (sum error_bases) (sum score) ;;
  Q <- (if Qeq_bool P 0 then Ok 62 else round_phred fp P) ;;
  Ok (max_nuc_pos, Q).

(** The [try]/[except] of lines 259-288 on the two accumulators.  A value
    outside [0..255] cannot enter an [array('B')]: [append] raises after the
    base has been added to [consensus_read]. *)
Definition emit (fp : FloatSource) (rng : RandomSource) (n : nat)
    (score : list Z) (out : string * list Z) : string * list Z :=
  let '(consensus_read, quality_consensus) := out in
  let handler (read : string) :=
    ((read ++ "N")%string, quality_consensus ++ [0]) in
  match winner fp rng n score with
  | Raise _ => handler consensus_read
  | Ok (max_nuc_pos, Q) =>
      match getitem nuc_lst max_nuc_pos with
      | Raise _ => handler consensus_read
      | Ok nuc =>
          let consensus_read :=
            (consensus_read ++ String nuc EmptyString)%string in
          if (0 <=? Q) && (Q <=? 255)
          then (consensus_read, quality_consensus ++ [Q])
          else handler consensus_read
      end
  end.

(** [for read in readList: mismatch_pos_lst.append(mismatch_pos(...))]. *)
Fixpoint mismatch_pos_all (readList : list AlignedRead)
  : result (list (list Z)) :=
  match readList with
  | [] => Ok []
  | read :: rest =>
      m <- mismatch_pos (cigar read) (MD read) ;;
      ms <- mismatch_pos_all rest ;;
      Ok (m :: ms)
  end.

(** [for i in range(readLength)], over the positions still to visit. *)
Fixpoint position_loop (fp : FloatSource) (rng : RandomSource)
    (readLength : Z) (reads : list (AlignedRead * list Z)) (positions : list nat)
    (out : string * list Z) : result (string * list Z) :=
  match positions with
  | [] => Ok out
  | i :: rest =>
      score <- tally readLength reads (Z.of_nat i) ;;
      position_loop fp rng readLength reads rest (emit fp rng i score out)
  end.

Definition consensus_maker (readList : list AlignedRead) (readLength : Z)
    (cutoff : Q) (fp : FloatSource) (rng : RandomSource)
  : result (string * list Z) :=
  mismatch_pos_lst <- mismatch_pos_all readList ;;
  position_loop fp rng readLength (combine readList mismatch_pos_lst)
    (seq 0 (Z.to_nat readLength)) (EmptyString, []).

(** ** Randomness sources used in the examples *)

(** [randint] always answers its lower, respectively upper, bound. *)
Definition always_lowest : RandomSource :=
  mkRandom (fun _ a _ => a) (fun _ a b H => conj (Z.le_refl a) H).

Definition always_highest : RandomSource :=
  mkRandom (fun _ _ b => b) (fun _ a b H => conj H (Z.le_refl b)).

(** ** Alphabet of a consensus *)

Definition in_alphabet (c : ascii) : bool :=
  existsb (Ascii.eqb c) nuc_lst.

(** Every character of [s] is one of A, C, G, T, N. *)
Fixpoint over_alphabet (s : string) : bool :=
  match s with
  | EmptyString => true
  | String c s' => in_alphabet c && over_alphabet s'
  end.

(** ** Query offsets of a CIGAR prefix

    The number of query bases that a list of operations consumes in the
    unclipped query coordinates of [mismatch_pos]: the lengths of its MATCH
    and INSERTION operations. *)
Fixpoint query_offset (ops : cigar_t) : Z :=
  match ops with
  | [] => 0
  | (op, len) :: rest =>
      (if (op =? MATCH)%nat || (op =? INSERTION)%nat then Z.of_nat len else 0)
      + query_offset rest
  end.

(** ** Well-formed mismatch strings

    The MD grammar of the SAM format, [[0-9]+(([A-Z]|\^[A-Z]+)[0-9]+)*],
    as an automaton with four phases. *)

Definition is_upper (c : ascii) : bool :=
  let n := nat_of_ascii c in ((65 <=? n) && (n <=? 90))%nat.

Inductive md_phase : Set :=
| NeedNumber      (* at the start, or after a substitution *)
| InNumber        (* at least one digit of a run length read *)
| AfterCaret      (* a deletion has just been opened *)
| InDeletion.     (* at least one deleted base read *)

Fixpoint md_accepts (ph : md_phase) (s : string) : bool :=
  match s with
  | EmptyString => match ph with InNumber => true | _ => false end
  | String c s' =>
      match ph with
      | NeedNumber => is_digit c && md_accepts InNumber s'
      | InNumber =>
          if is_digit c then md_accepts InNumber s'
          else if Ascii.eqb c "^" then md_accepts AfterCaret s'
          else is_upper c && md_accepts NeedNumber s'
      | AfterCaret => is_upper c && md_accepts InDeletion s'
      | InDeletion =>
          if is_upper c then md_accepts InDeletion s'
          else is_digit c && md_accepts InNumber s'
      end
  end.

Definition valid_md (s : string) : bool := md_accepts NeedNumber s.

(** Tokens that [re.split] cuts out of a well-formed string: a run of
    digits, or a run of digits closed by a caret. *)
Fixpoint token_tail (s : string) : bool :=
  match s with
  | EmptyString => true
  | String c s' =>
      (is_digit c && token_tail s')
      || (Ascii.eqb c "^" && String.eqb s' EmptyString)
  end.

Definition good_token (s : string) : bool :=
  match s with
  | EmptyString => false
  | String c s' => is_digit c && token_tail s'
  end.

Fixpoint all_digits (s : string) : bool :=
  match s with
  | EmptyString => true
  | String c s' => is_digit c && all_digits s'
  end.

(** All tokens but the last are good. *)
Definition body_good (l : list string) : Prop :=
  Forall (fun t => good_token t = true) (removelast l).

(** The first token continues a number; those after it, the last one
    apart, are good. *)
Definition tail_then_good (l : list string) : Prop :=
  exists t ts, l = t :: ts /\ token_tail t = true /\ body_good ts.

(** ** Vote counts and emissions *)

(** A vote count that [consensus_maker] can build: five counters, none
    negative, adding up to at most [bound]. *)
Definition count_vector (bound : Z) (score : list Z) : Prop :=
  List.length score = 5%nat
  /\ Forall (fun v => 0 <= v) score
  /\ sum score <= bound.

(** The value of [Q] at lines 270-273 for [P = e/t]. *)
Definition quality_of (fp : FloatSource) (e t : Z) : Z :=
  if e =? 0 then 62 else phred_float fp e t.

(** What one position adds to the two accumulators. *)
Definition emission (fp : FloatSource) (rng : RandomSource) (n : nat)
    (score : list Z) : string * list Z :=
  emit fp rng n score (EmptyString, []).

(** A read that [consensus_maker] can process at every position below
    [readLength]: its MD string decodes, its aligned bases are over
    A, C, G, T, N and reach from the start to the end of its query bounds,
    and each mismatch position within the bounds has a quality. *)
Definition well_formed_read (readLength : Z) (read : AlignedRead) : bool :=
  over_alphabet (query_alignment_sequence read)
  && match query_seq_pos (cigar read) readLength,
           mismatch_pos (cigar read) (MD read) with
     | Ok (start, end_), Ok ms =>
         (end_ - start
          <=? Z.of_nat (String.length (query_alignment_sequence read)))
         && forallb
              (fun m =>
                 (m <? start) || (end_ <=? m)
                 || (m <? Z.of_nat
                            (List.length (query_alignment_qualities read))))
              ms
     | _, _ => false
     end.

(** ** Decimal strings *)

(** No character of [s] is [c]. *)
Fixpoint lacks (c : ascii) (s : string) : bool :=
  match s with
  | EmptyString => true
  | String x s' => negb (Ascii.eqb x c) && lacks c s'
  end.

(** The value of a run of digits read after the number [acc]. *)
Fixpoint digits_value (s : string) (acc : Z) : Z :=
  match s with
  | EmptyString => acc
  | String c s' => digits_value s' (10 * acc + digit_val c)
  end.

(** ** Raw tags

    The tag that [main] builds for a read (lines 540-547):
    ['{}_{}_{}_{}_{}_{}_{}'.format(barcode, reference_id, reference_start,
    next_reference_id, next_reference_start, strand, read)]. *)
Definition raw_tag (barcode : string)
    (reference_id reference_start next_reference_id next_reference_start : Z)
    (strand read : string) : string :=
  join "_" [barcode; str reference_id; str reference_start;
            str next_reference_id; str next_reference_start; strand; read].

(** The first five fields of a raw tag, joined. *)
Definition tag_body (barcode : string) (a b c d : Z) : string :=
  join "_" [barcode; str a; str b; str c; str d].

(** [new_tag] after the first [if]/[else] of [sscs_qname] for the raw tag
    of a read at [(c1, p1)] with its mate at [(c2, p2)]; [r1] tells whether
    the read is read 1. *)
Definition strand_tag_of (barcode : string) (c1 p1 c2 p2 : Z) (r1 : bool)
    (flag : Z) : option string :=
  if ((p1 >? p2) && (c1 =? c2)) || (negb (c1 =? p2) && (c1 >? c2)) then
    Some (tag_body barcode c2 p2 c1 p1 ++ (if r1 then "_neg" else "_pos"))%string
  else if (c1 =? c2) && (p1 =? p2) then
    if mem flag [99; 147] then Some (tag_body barcode c1 p1 c2 p2 ++ "_pos")%string
    else if mem flag [83; 163]
         then Some (tag_body barcode c1 p1 c2 p2 ++ "_neg")%string
         else None
  else
    Some (tag_body barcode c1 p1 c2 p2 ++ (if r1 then "_pos" else "_neg"))%string.

(** ** Sample reads *)

(** One soft-clipped base, then three aligned bases with a mismatch at
    offset 1 of the aligned part; only the first aligned base has a quality
    under 30. *)
Definition clipped_read : AlignedRead :=
  mkRead [(SOFT_CLIP, 1%nat); (MATCH, 3%nat)] "1A1" [10; 40; 40] "ACG".

(** Three aligned bases without mismatch. *)
Definition plain_read (bases : string) : AlignedRead :=
  mkRead [(MATCH, 3%nat)] "3" [40; 40; 40] bases.

(** The logarithm to base 10 of a real number. *)
Definition log10 (x : R) : R := (ln x / ln 10)%R.

(** Four reads that agree on the first and last base and are tied, two
    against two, on the middle one. *)
Definition tie_family : list AlignedRead :=
  [plain_read "AAA"; plain_read "AAA"; plain_read "ACA"; plain_read "ACA"].

(** Three aligned bases, the middle one a mismatch of quality 10. *)
Definition low_quality_read : AlignedRead :=
  mkRead [(MATCH, 3%nat)] "1A1" [40; 10; 40] "ACG".

(** ['c' * n]. *)
Fixpoint string_repeat (c : ascii) (n : nat) : string :=
  match n with
  | O => EmptyString
  | S n' => String c (string_repeat c n')
  end.

(** Position [i] lies outside of the query bounds of [read]. *)
Definition outside_bounds (readLength i : Z) (read : AlignedRead) : Prop :=
  exists start end_,
    query_seq_pos (cigar read) readLength = Ok (start, end_)
    /\ (i < start \/ end_ <= i).

(** ** Mismatch strings as data

    An MD string read as the SAM format defines it: a first run of matches,
    then events, each followed by a run of matches.  An event is the
    substitution of one base or the deletion of a run of reference bases. *)

Inductive md_event : Set :=
| Substitution (base : ascii)
| Deletion (bases : string).

Definition render_event (ev : md_event) : string :=
  match ev with
  | Substitution c => String c EmptyString
  | Deletion s => String "^" s
  end.

Fixpoint render_md_tail (items : list (md_event * Z)) : string :=
  match items with
  | [] => EmptyString
  | (ev, n) :: rest => (render_event ev ++ str n ++ render_md_tail rest)%string
  end.

(** The MD string with [n0] leading matches and the events [items]. *)
Definition render_md (n0 : Z) (items : list (md_event * Z)) : string :=
  (str n0 ++ render_md_tail items)%string.

Fixpoint all_upper (s : string) : bool :=
  match s with
  | EmptyString => true
  | String c s' => is_upper c && all_upper s'
  end.

(** Run lengths are not negative, bases are capital letters, and a deletion
    names at least one base. *)
Definition md_items_ok (items : list (md_event * Z)) : bool :=
  forallb
    (fun item =>
       (0 <=? snd item)
       && match fst item with
          | Substitution c => is_upper c
          | Deletion s => negb (String.eqb s EmptyString) && all_upper s
          end)
    items.

(** The query offsets of the substituted bases, [off] being the offset of
    the next event: a substitution takes one query base, a deletion none. *)
Fixpoint substitution_offsets (off : Z) (items : list (md_event * Z))
  : list Z :=
  match items with
  | [] => []
  | (Substitution _, n) :: rest =>
      off :: substitution_offsets (off + 1 + n) rest
  | (Deletion _, n) :: rest => substitution_offsets (off + n) rest
  end.

(** [z] is the query offset of a base of an INSERTION operation of [cig]. *)
Definition insertion_offset (cig : cigar_t) (z : Z) : Prop :=
  exists pre k post j,
    cig = pre ++ (INSERTION, k) :: post
    /\ (j < k)%nat
    /\ z = query_offset pre + Z.of_nat j.

(** No operation of [cig] is an insertion. *)
Definition no_insertion (cig : cigar_t) : bool :=
  forallb (fun op => negb (fst op =? INSERTION)%nat) cig.

(** The tokens that [re.split] cuts out of [render_md n items]. *)
Fixpoint md_tokens (n : Z) (items : list (md_event * Z)) : list string :=
  match items with
  | [] => [str n]
  | (Substitution _, m) :: rest => str n :: md_tokens m rest
  | (Deletion _, m) :: rest => (str n ++ "^")%string :: md_tokens m rest
  end.

(** The query offset that the first loop of [mismatch_pos] has reached. *)
Definition reached (st : md_state) : Z :=
  match mis_pos st with
  | [] => 0
  | _ :: _ => List.last (mis_pos st) 0 + 1
  end + del_pos st.

(** A read that votes for the bases [s] at every position: its query
    bounds are the whole read length, its aligned bases are [s], and each
    mismatch position that it reports below the read length has a
    quality of 30 or more. *)
Definition full_vote (readLength : Z) (s : string) (read : AlignedRead)
  : bool :=
  match query_seq_pos (cigar read) readLength,
        mismatch_pos (cigar read) (MD read) with
  | Ok (start, end_), Ok ms =>
      (start =? 0) && (end_ =? readLength)
      && String.eqb (query_alignment_sequence read) s
      && forallb
           (fun m =>
              (m <? 0) || (readLength <=? m)
              || match getitem (query_alignment_qualities read) m with
                 | Ok q => 30 <=? q
                 | Raise _ => false
                 end)
           ms
  | _, _ => false
  end.

(** ** The reads of [main]

    What [main] looks at in a line of the input file, a [pysam] aligned
    segment; [has_MD] tells whether [line.get_tag('MD')] returns. *)
Record BamLine : Type := mkLine {
  qname : string;
  flag : Z;
  reference_id : Z;
  reference_start : Z;
  next_reference_id : Z;
  next_reference_start : Z;
  is_reverse : bool;
  is_read2 : bool;
  is_unmapped : bool;
  is_secondary : bool;
  is_supplementary : bool;
  has_MD : bool
}.

(** *** Dictionaries in insertion order *)

(** [d.get(k)]. *)
Fixpoint od_get {V : Type} (d : list (string * V)) (k : string) : option V :=
  match d with
  | [] => None
  | (k', v) :: d' => if String.eqb k k' then Some v else od_get d' k
  end.

(** [d[k] = v]: the value of a key that is present is replaced where it
    stands, a new key goes to the end. *)
Fixpoint od_set {V : Type} (d : list (string * V)) (k : string) (v : V)
  : list (string * V) :=
  match d with
  | [] => [(k, v)]
  | (k', v') :: d' =>
      if String.eqb k k' then (k, v) :: d' else (k', v') :: od_set d' k v
  end.

(** [d[k]] on a [defaultdict(int)]. *)
Definition dd_get (d : list (string * Z)) (k : string) : Z :=
  match od_get d k with
  | Some v => v
  | None => 0
  end.

(** *** The loop over the reads of a region, lines 498-569 *)

(** The three dictionaries and the counters of [main]. *)
Record ingest_state : Type := mkIngest {
  bam_dict : list (string * list BamLine);
  tag_dict : list (string * Z);
  paired_dict : list (string * list string);
  counter : Z;
  unmapped : Z;
  unmapped_flag : Z;
  bad_reads : Z
}.

Definition bad_flags : list Z :=
  [73; 133; 89; 121; 165; 181; 101; 117; 153; 185; 69; 137; 77; 141].

(** The tag of lines 540-547. *)
Definition line_tag (line : BamLine) : result string :=
  let strand := if is_reverse line then "rev" else "fwd" in
  let read := if is_read2 line then "R2" else "R1" in
  barcode <- getitem (split "|" (qname line)) 1 ;;
  Ok (raw_tag barcode (reference_id line) (reference_start line)
        (next_reference_id line) (next_reference_start line) strand read).

(** Lines 560-564: a tag is listed under its consensus tag. *)
Definition paired_add (paired : list (string * list string))
    (consensus_tag tag : string) : list (string * list string) :=
  match od_get paired consensus_tag with
  | None => od_set paired consensus_tag [tag]
  | Some tags => od_set paired consensus_tag (tags ++ [tag])
  end.

(** The body of [for line in bamLines]. *)
Definition ingest_line (line : BamLine) (st : ingest_state)
  : result ingest_state :=
  let counter := counter st + 1 in
  if is_unmapped line then
    Ok (mkIngest (bam_dict st) (tag_dict st) (paired_dict st) counter
          (unmapped st + 1) (unmapped_flag st) (bad_reads st))
  else if is_secondary line then
    Ok (mkIngest (bam_dict st) (tag_dict st) (paired_dict st) counter
          (unmapped st) (unmapped_flag st) (bad_reads st + 1))
  else if is_supplementary line then
    Ok (mkIngest (bam_dict st) (tag_dict st) (paired_dict st) counter
          (unmapped st) (unmapped_flag st) (bad_reads st + 1))
  else if mem (flag line) bad_flags then
    Ok (mkIngest (bam_dict st) (tag_dict st) (paired_dict st) counter
          (unmapped st) (unmapped_flag st + 1) (bad_reads st))
  else
    tag <- line_tag line ;;
    if negb (has_MD line) then
      Ok (mkIngest (bam_dict st) (tag_dict st) (paired_dict st) counter
            (unmapped st) (unmapped_flag st) (bad_reads st))
    else
      let tag_dict := od_set (tag_dict st) tag (dd_get (tag_dict st) tag + 1) in
      consensus_tag <- sscs_qname tag (flag line) ;;
      match od_get (bam_dict st) tag with
      | None =>
          Ok (mkIngest (od_set (bam_dict st) tag [line]) tag_dict
                (paired_add (paired_dict st) consensus_tag tag) counter
                (unmapped st) (unmapped_flag st) (bad_reads st))
      | Some family =>
          Ok (mkIngest (od_set (bam_dict st) tag (family ++ [line])) tag_dict
                (paired_dict st) counter
                (unmapped st) (unmapped_flag st) (bad_reads st))
      end.

Fixpoint ingest (bamLines : list BamLine) (st : ingest_state)
  : result ingest_state :=
  match bamLines with
  | [] => Ok st
  | line :: rest =>
      st' <- ingest_line line st ;;
      ingest rest st'
  end.

(** A read that passes the four filters of lines 524-535. *)
Definition passes_filters (line : BamLine) : bool :=
  negb (is_unmapped line) && negb (is_secondary line)
  && negb (is_supplementary line) && negb (mem (flag line) bad_flags).

(** A read that the loop files under [tag]. *)
Definition filed_under (tag : string) (line : BamLine) : bool :=
  passes_filters line && has_MD line
  && match line_tag line with
     | Ok t => String.eqb t tag
     | Raise _ => false
     end.

(** A read that the loop gets past: it is filtered out, or it has a
    barcode and either no MD tag or a tag that [sscs_qname] accepts. *)
Definition admissible (line : BamLine) : bool :=
  negb (passes_filters line)
  || match line_tag line with
     | Ok tag => negb (has_MD line) || returns (sscs_qname tag (flag line))
     | Raise _ => false
     end.

(** [bam_dict[tag]], with no read for a tag that is not a key. *)
Definition family_of (d : list (string * list BamLine)) (tag : string)
  : list BamLine :=
  match od_get d tag with
  | Some family => family
  | None => []
  end.

(** The tags that [paired_dict] lists, over all of its keys. *)
Definition listed_tags (paired : list (string * list string)) : list string :=
  List.concat (map snd paired).

(** What the loop keeps true of the two dictionaries of a region. *)
Definition paired_invariant (st : ingest_state) : Prop :=
  NoDup (map fst (bam_dict st))
  /\ NoDup (map fst (paired_dict st))
  /\ (forall tag,
        count_occ string_dec (listed_tags (paired_dict st)) tag
        = match od_get (bam_dict st) tag with
          | Some _ => 1%nat
          | None => 0%nat
          end)
  /\ (forall key tags tag,
        od_get (paired_dict st) key = Some tags -> In tag tags ->
        exists line rest,
          od_get (bam_dict st) tag = Some (line :: rest)
          /\ sscs_qname tag (flag line) = Ok key).

(** Two reads of one molecule on the forward strand, their mate, and an
    unmapped read. *)
Definition sample_lines : list BamLine :=
  [mkLine "read1|ACGT" 99 1 100 1 200 false false false false false true;
   mkLine "read2|ACGT" 99 1 100 1 200 false false false false false true;
   mkLine "read1|ACGT" 147 1 200 1 100 true true false false false true;
   mkLine "read3|TTTT" 77 (-1) (-1) (-1) (-1) false false true false false
          false].

(** ** [chr_arm_pos]

    [bands] holds the lines of [cytoBand.txt] that follow its header, as
    the iteration over the file yields them. *)

(** [l.index(x)] on a list of strings. *)
Fixpoint index_of (l : list string) (x : string) : result Z :=
  match l with
  | [] => Raise ValueError
  | y :: t => if String.eqb y x then Ok 0
              else k <- index_of t x ;; Ok (k + 1)
  end.

Definition tab : ascii := ascii_of_nat 9.

(** The body of [for line in f], lines 317-324. *)
Definition band_step (line : string) (chr_arm_coor : list (string * (Z * Z)))
  : result (list (string * (Z * Z))) :=
  let chr_arm := split tab line in
  chrom <- getitem chr_arm 0 ;;
  arm <- getitem chr_arm 3 ;;
  let chr_key := (chrom ++ "_" ++ arm)%string in
  start <- (field <- getitem chr_arm 1 ;; int field) ;;
  end_ <- (field <- getitem chr_arm 2 ;; int field) ;;
  let chr_val := (start, end_) in
  Ok (od_set chr_arm_coor chr_key chr_val).

Fixpoint band_loop (bands : list string)
    (chr_arm_coor : list (string * (Z * Z)))
  : result (list (string * (Z * Z))) :=
  match bands with
  | [] => Ok chr_arm_coor
  | line :: rest =>
      chr_arm_coor' <- band_step line chr_arm_coor ;;
      band_loop rest chr_arm_coor'
  end.

Definition chr_arm_pos (chr_lst : list string) (chr_len : list Z)
    (bands : list string) : result (list (string * (Z * Z))) :=
  chr_arm_coor <-
    (if existsb (String.eqb "chrM") chr_lst then
       k <- index_of chr_lst "chrM" ;;
       len <- getitem chr_len k ;;
       Ok (od_set [] "chrM" (0, len))
     else Ok []) ;;
  band_loop bands chr_arm_coor.

(** The arguments of [bamfile.fetch] for the key [x], line 496 of [main]:
    [reference = x.split('_')[0]], [start = chr_arm_coor[x][0]] and
    [end = chr_arm_coor[x][1]]. *)
Definition region_of (chr_arm_coor : list (string * (Z * Z))) (x : string)
  : result (string * Z * Z) :=
  reference <- getitem (split "_" x) 0 ;;
  val <- match od_get chr_arm_coor x with
         | Some v => Ok v
         | None => Raise KeyError
         end ;;
  Ok (reference, fst val, snd val).

(** The four columns that [chr_arm_pos] reads of a line. *)
Definition band_columns (line : string) : result (string * Z * Z * string) :=
  let chr_arm := split tab line in
  chrom <- getitem chr_arm 0 ;;
  arm <- getitem chr_arm 3 ;;
  start <- (field <- getitem chr_arm 1 ;; int field) ;;
  end_ <- (field <- getitem chr_arm 2 ;; int field) ;;
  Ok (chrom, start, end_, arm).

(** * Properties *)

(** ** Facts on strings and on list indexing *)

Lemma append_nil_r (s : string) : (s ++ "")%string = s.
Proof. induction s as [|c s IH]; cbn; [|rewrite IH]; reflexivity. Qed.

Lemma append_assoc (a b c : string) :
  ((a ++ b) ++ c = a ++ (b ++ c))%string.
Proof. induction a as [|x a IH]; cbn; [|rewrite IH]; reflexivity. Qed.

Lemma length_append (a b : string) :
  String.length (a ++ b) = (String.length a + String.length b)%nat.
Proof. induction a as [|x a IH]; cbn; [|rewrite IH]; reflexivity. Qed.

Lemma getitem_first {A : Type} (x : A) (l : list A) : getitem (x :: l) 0 = Ok x.
Proof.
  unfold getitem. cbn [List.length].
  replace (0 <? 0) with false by reflexivity.
  replace (0 <=? 0) with true by reflexivity.
  destruct (0 <? Z.of_nat (S (List.length l))) eqn:E; [reflexivity|].
  apply Z.ltb_ge in E. lia.
Qed.

Lemma nth_error_last {A : Type} (l : list A) :
  forall x, nth_error (x :: l) (List.length l) = Some (List.last l x).
Proof.
  induction l as [|y l IH]; intro x; [reflexivity|].
  change (nth_error (y :: l) (List.length l) = Some (List.last (y :: l) x)).
  rewrite IH. f_equal. clear IH.
  destruct l as [|z l]; [reflexivity|].
  change (List.last (z :: l) y = List.last (z :: l) x).
  revert z. induction l as [|w l IH]; intro z; [reflexivity|].
  exact (IH w).
Qed.

Lemma getitem_last {A : Type} (x : A) (l : list A) :
  getitem (x :: l) (-1) = Ok (List.last l x).
Proof.
  unfold getitem.
  replace (-1 <? 0) with true by reflexivity.
  set (n := Z.of_nat (List.length (x :: l))).
  assert (Hn : n = Z.of_nat (List.length l) + 1)
    by (unfold n; cbn [List.length]; lia).
  assert (H1 : (0 <=? -1 + n) = true) by (apply Z.leb_le; lia).
  assert (H2 : (-1 + n <? n) = true) by (apply Z.ltb_lt; lia).
  rewrite H1, H2. cbn [andb].
  replace (Z.to_nat (-1 + n)) with (List.length l) by lia.
  now rewrite nth_error_last.
Qed.

(** C9. For an operation list with first operation [first] and any declared
    length, [query_seq_pos] returns as start the length of the first
    operation when that is a soft or hard clip and 0 otherwise, and as end
    the declared length minus the length of the last operation when that is
    a soft or hard clip and the declared length otherwise; the two sample
    calls give (6, 98) and (0, 37). *)
Theorem query_seq_pos_bounds :
  (forall (first : nat * nat) (rest : cigar_t) (readLength : Z),
      let final := List.last rest first in
      query_seq_pos (first :: rest) readLength
      = Ok (if (fst first =? SOFT_CLIP)%nat || (fst first =? HARD_CLIP)%nat
            then Z.of_nat (snd first) else 0,
            if (fst final =? SOFT_CLIP)%nat || (fst final =? HARD_CLIP)%nat
            then readLength - Z.of_nat (snd final) else readLength))
  /\ query_seq_pos [(SOFT_CLIP, 6%nat); (MATCH, 92%nat)] 98 = Ok (6, 98)
  /\ query_seq_pos [(MATCH, 37%nat); (HARD_CLIP, 61%nat)] 98 = Ok (0, 37).
Proof.
  split; [|split; reflexivity].
  intros first rest readLength final.
  unfold query_seq_pos.
  rewrite getitem_first, getitem_last. cbn [bind].
  fold final. unfold is_clip, SOFT_CLIP, HARD_CLIP.
  destruct ((fst first =? 4)%nat || (fst first =? 5)%nat); reflexivity.
Qed.

(** ** [reverse_seq] *)

Lemma in_alphabet_cases (c : ascii) :
  in_alphabet c = true ->
  c = "A"%char \/ c = "C"%char \/ c = "G"%char \/ c = "T"%char \/ c = "N"%char.
Proof.
  unfold in_alphabet, nuc_lst. cbn [existsb].
  rewrite !orb_true_iff, !Ascii.eqb_eq. intuition discriminate.
Qed.

Lemma complement_alphabet (c : ascii) :
  in_alphabet c = true ->
  exists d, complement c = Ok d /\ in_alphabet d = true /\ complement d = Ok c.
Proof.
  intro H. apply in_alphabet_cases in H.
  destruct H as [-> | [-> | [-> | [-> | ->]]]];
    eexists; (split; [reflexivity | split; reflexivity]).
Qed.

(** The loop prepends the complemented bases, last base first. *)
Lemma reverse_seq_loop_spec (s : string) :
  over_alphabet s = true ->
  forall acc, exists r,
    reverse_seq_loop s acc = Ok (r ++ acc)%string
    /\ String.length r = String.length s
    /\ over_alphabet r = true
    /\ forall acc' tail,
         reverse_seq_loop (r ++ tail) acc'
         = reverse_seq_loop tail (s ++ acc')%string.
Proof.
  induction s as [|c s IH]; intros Hs acc.
  - exists EmptyString. repeat split.
  - cbn [over_alphabet] in Hs. apply andb_true_iff in Hs as [Hc Hs].
    destruct (complement_alphabet c Hc) as (d & Hd & Hin & Hback).
    destruct (IH Hs (String d acc)) as (r & Hr & Hlen & Halpha & Hinv).
    exists (r ++ String d EmptyString)%string.
    assert (Happ : forall a b x, ((a ++ String x EmptyString) ++ b
                                  = a ++ String x b)%string)
      by (intros a b x; now rewrite append_assoc).
    repeat split.
    + cbn [reverse_seq_loop]. rewrite Hd. cbn [bind]. rewrite Hr.
      now rewrite Happ.
    + rewrite length_append, Hlen. cbn. lia.
    + clear - Halpha Hin. induction r as [|y r IHr]; cbn in *.
      * now rewrite Hin.
      * apply andb_true_iff in Halpha as [Hy Hr]. now rewrite Hy, IHr.
    + intros acc' tail. rewrite Happ, Hinv.
      cbn [reverse_seq_loop]. rewrite Hback. reflexivity.
Qed.

(** C10. On a string over A, C, G, T, N, [reverse_seq] returns a string of
    the same length over the same alphabet, and applying it twice gives the
    string back. *)
Theorem reverse_seq_involutive (s : string) :
  over_alphabet s = true ->
  exists r,
    reverse_seq s = Ok r
    /\ String.length r = String.length s
    /\ over_alphabet r = true
    /\ reverse_seq r = Ok s.
Proof.
  intro Hs.
  destruct (reverse_seq_loop_spec s Hs EmptyString) as (r & Hr & Hlen & Ha & Hinv).
  rewrite append_nil_r in Hr.
  exists r. repeat split; try assumption.
  unfold reverse_seq. specialize (Hinv EmptyString EmptyString).
  rewrite !append_nil_r in Hinv. exact Hinv.
Qed.

Lemma reverse_seq_involutive_witness :
  exists r,
    reverse_seq "TCAGCATAATTN" = Ok r
    /\ String.length r = String.length "TCAGCATAATTN"
    /\ over_alphabet r = true
    /\ reverse_seq r = Ok "TCAGCATAATTN".
Proof. apply (reverse_seq_involutive "TCAGCATAATTN"). reflexivity. Defined.

(** ** [sscs_qname] *)

(** C2, as the code has it. The raw tag "CCCC_12_25398064_12_25398156_fwd_R1"
    with flag 99 and the raw tag "CCCC_12_25398156_12_25398064_rev_R2" with
    flag 147 both give "CCCC_12_25398064_12_25398156_pos_99_147": the strand
    marker stands between the coordinates and the flag pair, where the
    test cases of the docstring (lines 374-377) have none. *)
Theorem sscs_qname_documented_pair :
  sscs_qname "CCCC_12_25398064_12_25398156_fwd_R1" 99
  = Ok "CCCC_12_25398064_12_25398156_pos_99_147"
  /\ sscs_qname "CCCC_12_25398156_12_25398064_rev_R2" 147
     = Ok "CCCC_12_25398064_12_25398156_pos_99_147".
Proof. split; vm_compute; reflexivity. Qed.

(** C2, as stated and as the docstring has it, fails: neither call returns
    the string "CCCC_12_25398064_12_25398156_99_147". *)
Lemma sscs_qname_documented_pair_no_marker :
  sscs_qname "CCCC_12_25398064_12_25398156_fwd_R1" 99
  <> Ok "CCCC_12_25398064_12_25398156_99_147"
  /\ sscs_qname "CCCC_12_25398156_12_25398064_rev_R2" 147
     <> Ok "CCCC_12_25398064_12_25398156_99_147".
Proof. split; vm_compute; intro H; discriminate H. Qed.

(** C1 at a translocated pair. Read 1 lies on reference 3 at position 5 and
    its mate on reference 5 at position 100, with the paired flags 97 and
    145. The two mates get different keys: the key of read 2 keeps the
    higher reference first, because line 411 compares the chromosome of the
    read with the coordinate of its mate, and both are "5". *)
Theorem sscs_qname_mates_differ :
  dict_get flag_pairings 97 = Ok 145
  /\ sscs_qname (raw_tag "ACGT" 3 5 5 100 "fwd" "R1") 97
     = Ok "ACGT_3_5_5_100_pos_97_145"
  /\ sscs_qname (raw_tag "ACGT" 5 100 3 5 "rev" "R2") 145
     = Ok "ACGT_5_100_3_5_neg_97_145"
  /\ sscs_qname (raw_tag "ACGT" 3 5 5 100 "fwd" "R1") 97
     <> sscs_qname (raw_tag "ACGT" 5 100 3 5 "rev" "R2") 145.
Proof.
  repeat split; try (vm_compute; reflexivity).
  vm_compute; intro H; discriminate H.
Qed.

(** ** [consensus_maker] *)

(** C8. The consensus does not depend on the cutoff: with the same family,
    read length and randomness, two cutoffs give the same bases and the same
    qualities. *)
Theorem consensus_maker_ignores_cutoff :
  forall (readList : list AlignedRead) (readLength : Z) (fp : FloatSource)
    (rng : RandomSource)
         (cutoff cutoff' : Q),
    consensus_maker readList readLength cutoff fp rng
    = consensus_maker readList readLength cutoff' fp rng.
Proof. intros. reflexivity. Qed.

(** C3 at a soft-clipped read. Position 1 lies within the query bounds
    (1, 4) of [clipped_read], is one of its mismatch positions, and the
    quality at the in-read offset 1 - 1 is 10, under 30; yet the read votes,
    for its base "A": the quality that line 238 tests is the one at index 1,
    which is 40. *)
Theorem phred_filter_reads_unshifted_quality :
  query_seq_pos (cigar clipped_read) 4 = Ok (1, 4)
  /\ mismatch_pos (cigar clipped_read) (MD clipped_read) = Ok [1]
  /\ getitem (query_alignment_qualities clipped_read) (1 - 1) = Ok 10
  /\ getitem (query_alignment_qualities clipped_read) 1 = Ok 40
  /\ vote_step 4 clipped_read [1] (mkVote [0; 0; 0; 0; 0] 0 1)
     = Ok (mkVote [1; 0; 0; 0; 0] 0 1)
  /\ forall cutoff fp,
       consensus_maker [clipped_read] 4 cutoff fp always_lowest
       = Ok ("NACG", [62; 62; 62; 62]).
Proof.
  repeat split; try (vm_compute; reflexivity).
Qed.

(** C4, as stated, fails: a base outside A, C, G, T, N makes line 250 raise
    [ValueError] outside of the [try], and [consensus_maker] raises too. *)
Lemma consensus_maker_propagates :
  tally 3 [(plain_read "ARA", [])] 1 = Raise ValueError
  /\ mismatch_pos_all [plain_read "ARA"] = Ok [[]]
  /\ consensus_maker [plain_read "ARA"] 3 (7 # 10) exact_rounding always_lowest
     = Raise ValueError.
Proof. repeat split; vm_compute; reflexivity. Qed.

(** ** [mismatch_pos] *)

Section SortedSet.

Lemma insert_uniq_in (x z : Z) (l : list Z) :
  In z (insert_uniq x l) <-> z = x \/ In z l.
Proof.
  induction l as [|y l IH]; cbn [insert_uniq].
  - cbn. intuition.
  - destruct (x <? y) eqn:Hlt; [cbn; intuition|].
    destruct (x =? y) eqn:Heq.
    + apply Z.eqb_eq in Heq. subst. cbn. intuition.
    + cbn [In]. rewrite IH. intuition.
Qed.

Lemma insert_uniq_sorted (x : Z) (l : list Z) :
  StronglySorted Z.lt l -> StronglySorted Z.lt (insert_uniq x l).
Proof.
  induction l as [|y l IH]; intro Hs; cbn [insert_uniq].
  - repeat constructor.
  - inversion Hs as [|? ? Hl Hy]; subst.
    destruct (x <? y) eqn:Hlt.
    + apply Z.ltb_lt in Hlt. constructor; [assumption|].
      constructor; [assumption|].
      rewrite Forall_forall in *. intros w Hw. specialize (Hy w Hw). lia.
    + destruct (x =? y) eqn:Heq; [assumption|].
      apply Z.ltb_ge in Hlt. apply Z.eqb_neq in Heq.
      constructor; [now apply IH|].
      rewrite Forall_forall in *. intros w Hw.
      apply insert_uniq_in in Hw as [-> | Hw]; [lia | now apply Hy].
Qed.

Lemma sorted_set_in (z : Z) (l : list Z) : In z (sorted_set l) <-> In z l.
Proof.
  induction l as [|x l IH]; [reflexivity|].
  unfold sorted_set in *. cbn [fold_right In].
  rewrite insert_uniq_in, IH. intuition.
Qed.

Lemma sorted_set_sorted (l : list Z) : StronglySorted Z.lt (sorted_set l).
Proof.
  induction l as [|x l IH]; [constructor|].
  now apply insert_uniq_sorted.
Qed.

Lemma strictly_sorted_nodup (l : list Z) : StronglySorted Z.lt l -> NoDup l.
Proof.
  induction 1 as [|x l Hl IH Hx]; constructor; [|assumption].
  intro Hin. rewrite Forall_forall in Hx. specialize (Hx x Hin). lia.
Qed.

End SortedSet.

Section Insertions.

Lemma append_run_spec (k : nat) :
  forall (mp : list Z) (insert : Z),
    snd (append_run k mp insert) = insert + Z.of_nat k
    /\ (forall z, In z mp -> In z (fst (append_run k mp insert)))
    /\ (forall j, (j < k)%nat ->
                  In (insert + Z.of_nat j) (fst (append_run k mp insert))).
Proof.
  induction k as [|k IH]; intros mp insert; cbn [append_run].
  - cbn. repeat split; [lia | auto | intros j Hj; lia].
  - destruct (IH (mp ++ [insert]) (insert + 1)) as (Hs & Hkeep & Hnew).
    repeat split.
    + rewrite Hs. lia.
    + intros z Hz. apply Hkeep, in_or_app. now left.
    + intros [|j] Hj.
      * apply Hkeep, in_or_app. right. left. lia.
      * replace (insert + Z.of_nat (S j)) with (insert + 1 + Z.of_nat j) by lia.
        apply Hnew. lia.
Qed.

Lemma insert_loop_keeps (cig : cigar_t) :
  forall (mp : list Z) (insert z : Z),
    In z mp -> In z (insert_loop cig mp insert).
Proof.
  induction cig as [|[op len] cig IH]; intros mp insert z Hz; cbn [insert_loop].
  - assumption.
  - destruct (op =? 1)%nat.
    + destruct (append_run len mp insert) as [mp' insert'] eqn:E.
      apply IH. destruct (append_run_spec len mp insert) as (_ & Hkeep & _).
      rewrite E in Hkeep. now apply Hkeep.
    + destruct (op =? 0)%nat; now apply IH.
Qed.

(** Every base of an insertion is recorded, at its query offset. *)
Lemma insert_loop_records (pre : cigar_t) :
  forall (k : nat) (post : cigar_t) (mp : list Z) (insert : Z) (j : nat),
    (j < k)%nat ->
    In (insert + query_offset pre + Z.of_nat j)
       (insert_loop (pre ++ (INSERTION, k) :: post) mp insert).
Proof.
  induction pre as [|[op len] pre IH]; intros k post mp insert j Hj.
  - cbn [app insert_loop query_offset]. unfold INSERTION. cbn [Nat.eqb].
    destruct (append_run k mp insert) as [mp' insert'] eqn:E.
    apply insert_loop_keeps.
    destruct (append_run_spec k mp insert) as (_ & _ & Hnew).
    rewrite E in Hnew. cbn [fst] in Hnew.
    replace (insert + 0 + Z.of_nat j) with (insert + Z.of_nat j) by lia.
    now apply Hnew.
  - cbn [app insert_loop query_offset]. unfold MATCH, INSERTION.
    destruct (op =? 1)%nat eqn:E1.
    + destruct (append_run len mp insert) as [mp' insert'] eqn:E.
      destruct (append_run_spec len mp insert) as (Hs & _ & _).
      rewrite E in Hs. cbn [snd] in Hs. subst insert'.
      rewrite orb_true_r.
      replace (insert + (Z.of_nat len + query_offset pre) + Z.of_nat j)
        with (insert + Z.of_nat len + query_offset pre + Z.of_nat j) by lia.
      now apply IH.
    + rewrite orb_false_r. destruct (op =? 0)%nat.
      * replace (insert + (Z.of_nat len + query_offset pre) + Z.of_nat j)
          with (insert + Z.of_nat len + query_offset pre + Z.of_nat j) by lia.
        now apply IH.
      * replace (insert + (0 + query_offset pre) + Z.of_nat j)
          with (insert + query_offset pre + Z.of_nat j) by lia.
        now apply IH.
Qed.

End Insertions.

Section CharacterClasses.

Lemma digit_not_space (c : ascii) : is_digit c = true -> is_space c = false.
Proof.
  unfold is_digit, is_space. intro H.
  apply andb_true_iff in H as [H1 H2].
  apply Nat.leb_le in H1. apply Nat.leb_le in H2.
  apply orb_false_iff; split.
  - apply andb_false_iff. right. apply Nat.leb_gt. lia.
  - apply Nat.eqb_neq. lia.
Qed.

Lemma digit_neq (c d : ascii) :
  is_digit c = true -> is_digit d = false -> Ascii.eqb c d = false.
Proof.
  intros Hc Hd. destruct (Ascii.eqb_spec c d) as [->|]; [congruence | reflexivity].
Qed.

Lemma digit_token_char (c : ascii) : is_digit c = true -> md_token_char c = true.
Proof. intro H. unfold md_token_char. now rewrite H. Qed.

Lemma upper_not_digit (c : ascii) : is_upper c = true -> is_digit c = false.
Proof.
  unfold is_digit, is_upper. intro H.
  apply andb_true_iff in H as [H1 H2].
  apply Nat.leb_le in H1. apply andb_false_iff. right. apply Nat.leb_gt. lia.
Qed.

Lemma upper_neq (c d : ascii) :
  is_upper c = true -> is_upper d = false -> Ascii.eqb c d = false.
Proof.
  intros Hc Hd. destruct (Ascii.eqb_spec c d) as [->|]; [congruence | reflexivity].
Qed.

Lemma upper_not_token_char (c : ascii) :
  is_upper c = true -> md_token_char c = false.
Proof.
  intro H. unfold md_token_char.
  rewrite (upper_not_digit c H).
  rewrite !(upper_neq c _ H) by reflexivity. reflexivity.
Qed.

End CharacterClasses.

Section IntOfDigits.

Lemma lstrip_digits (s : string) : good_token s = true -> lstrip s = s.
Proof.
  destruct s as [|c s]; [discriminate|]. cbn.
  intro H. apply andb_true_iff in H as [Hc _].
  now rewrite (digit_not_space c Hc).
Qed.

Lemma rstrip_digits (s : string) : all_digits s = true -> rstrip s = s.
Proof.
  induction s as [|c s IH]; [reflexivity|]. cbn [all_digits rstrip].
  intro H. apply andb_true_iff in H as [Hc Hs].
  rewrite (IH Hs). destruct s; [|reflexivity].
  now rewrite (digit_not_space c Hc).
Qed.

Lemma parse_digits_total (s : string) :
  all_digits s = true ->
  forall acc after, s <> EmptyString \/ after = true ->
                    exists v, parse_digits s acc after = Some v.
Proof.
  induction s as [|c s IH]; intros Hs acc after Hne.
  - destruct Hne as [Hne | ->]; [congruence|]. now exists acc.
  - cbn [all_digits] in Hs. apply andb_true_iff in Hs as [Hc Hs].
    cbn [parse_digits]. rewrite Hc. apply (IH Hs). now right.
Qed.

(** [int] accepts every non-empty run of digits. *)
Lemma int_digits (s : string) :
  all_digits s = true -> s <> EmptyString -> exists v, int s = Ok v.
Proof.
  intros Hs Hne. unfold int, strip.
  assert (Hg : good_token s = true).
  { destruct s as [|c s]; [congruence|]. cbn in *.
    apply andb_true_iff in Hs as [Hc Hs]. rewrite Hc. cbn.
    clear - Hs. induction s as [|d s IH]; [reflexivity|].
    cbn in *. apply andb_true_iff in Hs as [Hd Hs]. now rewrite Hd, IH. }
  rewrite (lstrip_digits s Hg), (rstrip_digits s Hs).
  destruct s as [|c s]; [congruence|].
  cbn [all_digits] in Hs. pose proof Hs as Hs'.
  apply andb_true_iff in Hs' as [Hc _].
  rewrite !(digit_neq c _ Hc) by reflexivity.
  destruct (parse_digits_total (String c s) Hs 0 false) as [v Hv];
    [left; discriminate|].
  rewrite Hv. now exists v.
Qed.

End IntOfDigits.

Section Tokens.

Lemma prefix_caret (c : ascii) (s : string) :
  String.prefix "^" (String c s) = Ascii.eqb "^" c.
Proof.
  cbn [String.prefix]. destruct (ascii_dec "^" c) as [<-|Hn].
  - destruct s; reflexivity.
  - symmetry. now apply Ascii.eqb_neq.
Qed.

Lemma contains_caret_digits (s : string) :
  all_digits s = true -> contains "^" s = false.
Proof.
  induction s as [|c s IH]; [reflexivity|]. cbn [all_digits]. intro H.
  apply andb_true_iff in H as [Hc Hs].
  cbn [contains]. rewrite prefix_caret, (IH Hs), Ascii.eqb_sym.
  now rewrite (digit_neq c _ Hc).
Qed.

(** A token tail is a run of digits, possibly closed by one caret. *)
Lemma token_tail_cases (s : string) :
  token_tail s = true ->
  all_digits s = true
  \/ exists d, all_digits d = true /\ s = (d ++ "^")%string.
Proof.
  induction s as [|c s IH]; [now left|]. cbn [token_tail]. intro H.
  apply orb_true_iff in H as [H | H]; apply andb_true_iff in H as [H1 H2].
  - destruct (IH H2) as [Hd | (d & Hd & ->)].
    + left. cbn. now rewrite H1.
    + right. exists (String c d). cbn. now rewrite H1, Hd.
  - apply Ascii.eqb_eq in H1. apply String.eqb_eq in H2. subst.
    right. now exists EmptyString.
Qed.

Lemma good_token_cases (s : string) :
  good_token s = true ->
  (all_digits s = true /\ s <> EmptyString)
  \/ exists d, all_digits d = true /\ d <> EmptyString /\ s = (d ++ "^")%string.
Proof.
  destruct s as [|c s]; [discriminate|]. cbn [good_token]. intro H.
  apply andb_true_iff in H as [Hc Hs].
  destruct (token_tail_cases s Hs) as [Hd | (d & Hd & ->)].
  - left. split; [cbn; now rewrite Hc | discriminate].
  - right. exists (String c d). repeat split; [cbn; now rewrite Hc | discriminate].
Qed.

Lemma contains_caret_closed (d : string) : contains "^" (d ++ "^") = true.
Proof.
  induction d as [|c d IH]; [reflexivity|].
  cbn [append contains]. rewrite IH. apply orb_true_r.
Qed.

Lemma drop_last_closed (d : string) : drop_last 1 (d ++ "^") = d.
Proof.
  unfold drop_last. rewrite length_append. cbn [String.length].
  replace (String.length d + 1 - 1)%nat with (String.length d) by lia.
  induction d as [|c d IH]; [reflexivity|].
  cbn [append String.length String.substring]. now rewrite IH.
Qed.

End Tokens.

Section MismatchTotal.

Lemma getitem_beyond {A : Type} (l : list A) (i : Z) :
  Z.of_nat (List.length l) <= i -> getitem l i = Raise IndexError.
Proof.
  intro H. unfold getitem.
  replace (i <? 0) with false by (symmetry; apply Z.ltb_ge; lia).
  replace (i <? Z.of_nat (List.length l)) with false
    by (symmetry; apply Z.ltb_ge; lia).
  now rewrite andb_false_r.
Qed.

Lemma getitem_in_range {A : Type} (l : list A) (i : Z) :
  - Z.of_nat (List.length l) <= i < Z.of_nat (List.length l) ->
  exists a, getitem l i = Ok a.
Proof.
  intro H. unfold getitem.
  set (n := Z.of_nat (List.length l)) in *.
  set (k := if i <? 0 then i + n else i).
  assert (Hk : 0 <= k < n).
  { unfold k. destruct (i <? 0) eqn:E;
      [apply Z.ltb_lt in E | apply Z.ltb_ge in E]; lia. }
  replace (0 <=? k) with true by (symmetry; apply Z.leb_le; lia).
  replace (k <? n) with true by (symmetry; apply Z.ltb_lt; lia).
  cbn [andb].
  destruct (nth_error l (Z.to_nat k)) as [a|] eqn:E; [now exists a|].
  apply nth_error_None in E. lia.
Qed.

Lemma length_add_to_last (l : list Z) (d : Z) :
  List.length (add_to_last l d) = List.length l.
Proof.
  induction l as [|x l IH]; [reflexivity|].
  destruct l as [|y l]; [reflexivity|].
  change (add_to_last (x :: y :: l) d) with (x :: add_to_last (y :: l) d).
  cbn [List.length] in *. now rewrite IH.
Qed.

Lemma md_step_total (n : nat) (i : Z) (tok : string) (st : md_state) :
  good_token tok = true -> exists st', md_step n i tok st = Ok st'.
Proof.
  intro Hg. unfold md_step.
  assert (Hne : String.eqb tok EmptyString = false)
    by (destruct tok; [discriminate | reflexivity]).
  rewrite Hne.
  destruct (good_token_cases tok Hg) as [[Hd Hn] | (d & Hd & Hn & ->)].
  - rewrite (contains_caret_digits tok Hd).
    destruct (int_digits tok Hd Hn) as [v ->]. cbn [bind].
    set (st1 := if prev_del st then _ else _).
    destruct (2 <=? n)%nat; [|now eexists].
    destruct (negb (i =? 0) && (1 <? List.length (mis_pos st1))%nat) eqn:E;
      [|now eexists].
    apply andb_true_iff in E as [_ E]. apply Nat.ltb_lt in E.
    destruct (getitem_in_range (mis_pos st1) (-2)) as [a ->]; [lia|].
    cbn [bind]. now eexists.
  - rewrite contains_caret_closed, drop_last_closed.
    destruct (int_digits d Hd Hn) as [v ->]. cbn [bind]. now eexists.
Qed.

Lemma md_loop_total (toks : list string) :
  Forall (fun t => good_token t = true) toks ->
  forall n i st, exists st', md_loop n i toks st = Ok st'.
Proof.
  induction 1 as [|tok toks Hg _ IH]; intros n i st; cbn [md_loop].
  - now exists st.
  - destruct (md_step_total n i tok st Hg) as [st1 ->]. cbn [bind]. apply IH.
Qed.

Lemma body_good_cons (c : ascii) (t : string) (ts : list string) :
  is_digit c = true -> token_tail t = true -> body_good ts ->
  body_good (String c t :: ts).
Proof.
  intros Hc Ht Hts. unfold body_good in *.
  destruct ts as [|u ts]; [constructor|].
  change (removelast (String c t :: u :: ts))
    with (String c t :: removelast (u :: ts)).
  constructor; [|assumption]. cbn. now rewrite Hc.
Qed.

Lemma re_split_md_shape (s : string) :
  forall ph, md_accepts ph s = true ->
    match ph with
    | NeedNumber => forall b, body_good (re_split_md b s)
    | InNumber | AfterCaret => tail_then_good (re_split_md false s)
    | InDeletion => body_good (re_split_md true s)
    end.
Proof.
  induction s as [|c s IH]; intros ph H.
  - destruct ph; try discriminate H.
    exists EmptyString, []. repeat split. constructor.
  - destruct ph; cbn [md_accepts] in H.
    + apply andb_true_iff in H as [Hc H]. intro b.
      destruct (IH InNumber H) as (t & ts & E & Ht & Hts).
      cbn [re_split_md]. rewrite (digit_token_char c Hc), E.
      now apply body_good_cons.
    + destruct (is_digit c) eqn:Hc.
      * destruct (IH InNumber H) as (t & ts & E & Ht & Hts).
        cbn [re_split_md]. rewrite (digit_token_char c Hc), E.
        exists (String c t), ts. repeat split; [|assumption].
        cbn. now rewrite Hc, Ht.
      * destruct (Ascii.eqb_spec c "^") as [->|Hn].
        -- destruct (IH AfterCaret H) as (t & ts & E & Ht & Hts).
           change (re_split_md false (String "^" s))
             with (match re_split_md false s with
                   | t :: ts => String "^" t :: ts
                   | [] => [String "^" EmptyString]
                   end).
           rewrite E.
           destruct s as [|u s]; [discriminate H|].
           cbn [md_accepts] in H. apply andb_true_iff in H as [Hu H].
           cbn [re_split_md] in E. rewrite (upper_not_token_char u Hu) in E.
           injection E as <- <-.
           exists (String "^" EmptyString), (re_split_md true s).
           repeat split. exact Hts.
        -- apply andb_true_iff in H as [Hu H].
           cbn [re_split_md]. rewrite (upper_not_token_char c Hu).
           exists EmptyString, (re_split_md true s).
           repeat split. exact (IH NeedNumber H true).
    + apply andb_true_iff in H as [Hu H].
      cbn [re_split_md]. rewrite (upper_not_token_char c Hu).
      exists EmptyString, (re_split_md true s).
      repeat split. exact (IH InDeletion H).
    + destruct (is_upper c) eqn:Hu.
      * cbn [re_split_md]. rewrite (upper_not_token_char c Hu).
        exact (IH InDeletion H).
      * apply andb_true_iff in H as [Hc H].
        destruct (IH InNumber H) as (t & ts & E & Ht & Hts).
        cbn [re_split_md]. rewrite (digit_token_char c Hc), E.
        now apply body_good_cons.
Qed.

(** [mismatch_pos] returns on every well-formed mismatch string. *)
Lemma mismatch_pos_total (cig : cigar_t) (mismatch_tag : string) :
  valid_md mismatch_tag = true ->
  exists l, mismatch_pos cig mismatch_tag = Ok l.
Proof.
  intro H. unfold mismatch_pos.
  pose proof (re_split_md_shape mismatch_tag NeedNumber H false) as Hb.
  unfold body_good in Hb. rewrite removelast_firstn_len in Hb.
  replace (Nat.pred (List.length (re_split_md false mismatch_tag)))
    with (List.length (re_split_md false mismatch_tag) - 1)%nat in Hb by lia.
  destruct (md_loop_total _ Hb (List.length (re_split_md false mismatch_tag)) 0
                          (mkMd [] 0 false)) as [st ->].
  cbn [bind]. now eexists.
Qed.

End MismatchTotal.

(** Whatever [mismatch_pos] returns is strictly increasing, has no
    duplicate, and holds the query offset of every inserted base. *)
Lemma mismatch_pos_result (cig : cigar_t) (mismatch_tag : string) (l : list Z) :
  mismatch_pos cig mismatch_tag = Ok l ->
  StronglySorted Z.lt l
  /\ NoDup l
  /\ forall pre k post j,
       cig = pre ++ (INSERTION, k) :: post -> (j < k)%nat ->
       In (query_offset pre + Z.of_nat j) l.
Proof.
  unfold mismatch_pos. intro H.
  destruct (md_loop _ _ _ _) as [st|e]; cbn [bind] in H; [|discriminate H].
  injection H as <-.
  split; [apply sorted_set_sorted|].
  split; [apply strictly_sorted_nodup, sorted_set_sorted|].
  intros pre k post j -> Hj. apply sorted_set_in.
  replace (query_offset pre + Z.of_nat j)
    with (0 + query_offset pre + Z.of_nat j) by lia.
  now apply insert_loop_records.
Qed.

(** C6. On every operation list and every well-formed mismatch string,
    [mismatch_pos] returns a list of positions that is strictly increasing,
    hence without duplicate, and that holds, for each INSERTION operation of
    the list, the query offset of each of its inserted bases. *)
Theorem mismatch_pos_sorted_with_insertions
    (cig : cigar_t) (mismatch_tag : string) :
  valid_md mismatch_tag = true ->
  exists l,
    mismatch_pos cig mismatch_tag = Ok l
    /\ StronglySorted Z.lt l
    /\ NoDup l
    /\ forall pre k post j,
         cig = pre ++ (INSERTION, k) :: post -> (j < k)%nat ->
         In (query_offset pre + Z.of_nat j) l.
Proof.
  intro H. destruct (mismatch_pos_total cig mismatch_tag H) as [l Hl].
  exists l. split; [assumption|]. exact (mismatch_pos_result _ _ _ Hl).
Qed.

Lemma mismatch_pos_sorted_with_insertions_witness :
  exists l,
    mismatch_pos [(MATCH, 74); (DELETION, 2); (MATCH, 3); (INSERTION, 2);
                  (MATCH, 19)]%nat "70T1A1^GC22" = Ok l
    /\ StronglySorted Z.lt l
    /\ NoDup l
    /\ forall pre k post j,
         [(MATCH, 74); (DELETION, 2); (MATCH, 3); (INSERTION, 2);
          (MATCH, 19)]%nat = pre ++ (INSERTION, k) :: post -> (j < k)%nat ->
         In (query_offset pre + Z.of_nat j) l.
Proof.
  apply (mismatch_pos_sorted_with_insertions
           [(MATCH, 74); (DELETION, 2); (MATCH, 3); (INSERTION, 2);
            (MATCH, 19)]%nat "70T1A1^GC22").
  reflexivity.
Defined.

(** ** Votes, winner and quality *)

Section Tally.

Lemma incr_at_length (l : list Z) : forall k, List.length (incr_at l k) = List.length l.
Proof.
  induction l as [|x l IH]; intros [|k]; cbn; try reflexivity. now rewrite IH.
Qed.

Lemma incr_at_nonneg (l : list Z) :
  Forall (fun v => 0 <= v) l -> forall k, Forall (fun v => 0 <= v) (incr_at l k).
Proof.
  induction 1 as [|x l Hx Hl IH]; intros [|k]; cbn; constructor;
    try assumption; try lia. apply IH.
Qed.

Lemma incr_at_sum (l : list Z) :
  forall k, sum l <= sum (incr_at l k) <= sum l + 1.
Proof.
  induction l as [|x l IH]; intros [|k]; cbn; try lia.
  specialize (IH k). unfold sum in IH. lia.
Qed.

Lemma vote_step_counts (readLength : Z) (read : AlignedRead)
    (mismatches : list Z) (st st' : vote_state) (bound : Z) :
  vote_step readLength read mismatches st = Ok st' ->
  count_vector bound (position_score st) ->
  count_vector (bound + 1) (position_score st') /\ pos st' = pos st.
Proof.
  unfold vote_step. intros H (Hlen & Hpos & Hsum).
  destruct (query_seq_pos _ _) as [qp|]; cbn [bind] in H; [|discriminate H].
  assert (Hincr : forall k,
             count_vector (bound + 1) (incr_at (position_score st) k)).
  { intro k. repeat split.
    - now rewrite incr_at_length.
    - now apply incr_at_nonneg.
    - pose proof (incr_at_sum (position_score st) k). lia. }
  destruct ((pos st <? fst qp) || (pos st >=? snd qp)).
  - injection H as <-. cbn. split; [apply Hincr | reflexivity].
  - destruct (if mem (pos st) mismatches then _ else _) as [fail|];
      cbn [bind] in H; [|discriminate H].
    destruct fail.
    + injection H as <-. cbn. repeat split; try assumption. lia.
    + destruct (str_getitem _ _) as [nuc|]; cbn [bind] in H; [|discriminate H].
      destruct (list_index nuc_lst nuc) as [k|]; cbn [bind] in H;
        [|discriminate H].
      injection H as <-. cbn. split; [apply Hincr | lia].
Qed.

Lemma vote_loop_counts (readLength : Z) (reads : list (AlignedRead * list Z)) :
  forall (st st' : vote_state) (bound : Z),
    vote_loop readLength reads st = Ok st' ->
    count_vector bound (position_score st) ->
    count_vector (bound + Z.of_nat (List.length reads)) (position_score st')
    /\ pos st' = pos st.
Proof.
  induction reads as [|[read ms] reads IH]; intros st st' bound H Hc.
  - injection H as <-. cbn [List.length]. rewrite Z.add_0_r. now split.
  - cbn [vote_loop] in H.
    destruct (vote_step readLength read ms st) as [st1|] eqn:E;
      cbn [bind] in H; [|discriminate H].
    destruct (vote_step_counts _ _ _ _ _ bound E Hc) as [Hc1 Hp1].
    destruct (IH st1 st' (bound + 1) H Hc1) as [Hc' Hp'].
    split; [|congruence].
    replace (bound + Z.of_nat (List.length ((read, ms) :: reads)))
      with (bound + 1 + Z.of_nat (List.length reads))
      by (cbn [List.length]; lia).
    exact Hc'.
Qed.

Lemma tally_counts (readLength : Z) (reads : list (AlignedRead * list Z))
    (i : Z) (score : list Z) :
  tally readLength reads i = Ok score ->
  count_vector (Z.of_nat (List.length reads)) score.
Proof.
  unfold tally. intro H.
  destruct (vote_loop _ _ _) as [st|] eqn:E; cbn [bind] in H; [|discriminate H].
  injection H as <-.
  apply (vote_loop_counts _ _ _ _ 0) in E as [Hc _]; [exact Hc|].
  repeat split; [repeat constructor; lia | cbn; lia].
Qed.

End Tally.

Section Phred.

Lemma phred_search_spec (fuel : nat) (e t : Z) :
  forall q,
    let r := phred_search fuel e t q in
    q <= r <= q + Z.of_nat fuel
    /\ (forall q', q <= q' < r -> 10 ^ (2 * q' + 1) * e ^ 20 <= t ^ 20)
    /\ (r < q + Z.of_nat fuel -> t ^ 20 < 10 ^ (2 * r + 1) * e ^ 20).
Proof.
  induction fuel as [|fuel IH]; intro q; cbn [phred_search].
  - cbn zeta. repeat split; lia.
  - destruct (t ^ 20 <? 10 ^ (2 * q + 1) * e ^ 20) eqn:E; cbn zeta.
    + apply Z.ltb_lt in E. repeat split; lia.
    + apply Z.ltb_ge in E. destruct (IH (q + 1)) as (Hr & Hbelow & Hat).
      split; [lia|]. split.
      * intros q' Hq'. destruct (Z.eq_dec q' q) as [->|Hn]; [exact E|].
        apply Hbelow. lia.
      * intro Hlt. apply Hat. lia.
Qed.

(** [phred_up e t] is the least [q >= 0] with [t^20 < 10^(2q+1) * e^20]. *)
Lemma phred_up_spec (e t : Z) :
  0 < e <= t ->
  let q := phred_up e t in
  0 <= q
  /\ t ^ 20 < 10 ^ (2 * q + 1) * e ^ 20
  /\ (forall q', 0 <= q' < q -> 10 ^ (2 * q' + 1) * e ^ 20 <= t ^ 20).
Proof.
  intros He q. unfold phred_up in q.
  set (T := t ^ 20) in *.
  assert (HT : 0 < T) by (apply Z.pow_pos_nonneg; lia).
  assert (HE : 1 <= e ^ 20) by (pose proof (Z.pow_pos_nonneg e 20); lia).
  pose proof (Z.log2_nonneg T) as Hl.
  destruct (phred_search_spec (Z.to_nat (Z.log2 T)) e t 0) as (Hr & Hbelow & Hat).
  fold q in Hr, Hbelow, Hat. rewrite Z2Nat.id in Hr, Hat by assumption.
  repeat split; [lia | | exact Hbelow].
  destruct (Z_lt_le_dec q (0 + Z.log2 T)) as [Hlt|Hge]; [now apply Hat|].
  assert (q = Z.log2 T) by lia.
  destruct (Z.log2_spec T HT) as [_ Hup].
  assert (H1 : 2 ^ Z.succ (Z.log2 T) <= 2 ^ (2 * q + 1))
    by (apply Z.pow_le_mono_r; lia).
  assert (H2 : 2 ^ (2 * q + 1) <= 10 ^ (2 * q + 1))
    by (apply Z.pow_le_mono_l; lia).
  assert (H3 : 0 < 10 ^ (2 * q + 1)) by (apply Z.pow_pos_nonneg; lia).
  nia.
Qed.

Lemma phred_up_le (e t q0 : Z) :
  0 < e <= t -> 0 <= q0 -> t ^ 20 < 10 ^ (2 * q0 + 1) * e ^ 20 ->
  phred_up e t <= q0.
Proof.
  intros He Hq0 Htest.
  destruct (phred_up_spec e t He) as (_ & _ & Hbelow).
  destruct (Z_le_gt_dec (phred_up e t) q0) as [Hle|Hgt]; [assumption|].
  specialize (Hbelow q0). lia.
Qed.

(** With fewer than [2^63] votes the nearest integer is at most 190. *)
Lemma phred_up_byte (e t : Z) :
  0 < e <= t -> t < 2 ^ 63 -> 0 <= phred_up e t <= 190.
Proof.
  intros He Ht. split; [apply (phred_up_spec e t He)|].
  apply phred_up_le; [assumption | lia |].
  assert (H1 : t ^ 20 < (2 ^ 63) ^ 20) by (apply Z.pow_lt_mono_l; lia).
  assert (H2 : (2 ^ 63) ^ 20 < 10 ^ (2 * 190 + 1)) by (vm_compute; reflexivity).
  assert (H3 : 1 <= e ^ 20) by (pose proof (Z.pow_pos_nonneg e 20); lia).
  assert (H4 : 0 < 10 ^ (2 * 190 + 1)) by (vm_compute; reflexivity).
  nia.
Qed.

Lemma quotient_num_den (e t : Z) :
  0 < t ->
  Qnum (inject_Z e / inject_Z t) = e
  /\ Zpos (Qden (inject_Z e / inject_Z t)) = t.
Proof.
  intro Ht. destruct t as [|p|p]; try lia.
  unfold Qdiv, Qinv, Qmult, inject_Z. cbn. split; [lia | reflexivity].
Qed.

(** A half-integer that a value [10 * log10(b/a)] comes close to is not
    negative. *)
Lemma near_half_exponent (a b m : Z) :
  0 < b -> near_half a b m = true -> 0 <= m.
Proof.
  intros Hb H. unfold near_half in H. apply andb_true_iff in H as [H _].
  apply Z.leb_le in H.
  destruct (Z_lt_le_dec m 0) as [Hm|Hm]; [|assumption].
  rewrite (Z.pow_neg_r 10 m Hm) in H.
  assert (0 < b ^ 20) by (apply Z.pow_pos_nonneg; lia). lia.
Qed.

(** The doubles give the nearest integer, or the integer on the other side
    of a half-integer that the value is close to. *)
Lemma phred_float_cases (fp : FloatSource) (a b : Z) :
  0 < a <= b ->
  let q := phred_up a b in
  phred_float fp a b = q
  \/ (phred_float fp a b = q - 1 /\ near_half a b (2 * q - 1) = true
      /\ 1 <= q)
  \/ (phred_float fp a b = q + 1 /\ near_half a b (2 * q + 1) = true).
Proof.
  intros Ha q. unfold phred_float. fold q.
  destruct (near_half a b (2 * q - 1)) eqn:Elow.
  - destruct (other_side fp a b); [|now left].
    right; left. repeat split.
    apply near_half_exponent in Elow; lia.
  - destruct (near_half a b (2 * q + 1)) eqn:Eup; [|now left].
    destruct (other_side fp a b); [|now left].
    right; right. now split.
Qed.

Lemma phred_float_exact (a b : Z) :
  phred_float exact_rounding a b = phred_up a b.
Proof.
  unfold phred_float. cbn [other_side exact_rounding].
  destruct (near_half a b (2 * phred_up a b - 1)); [reflexivity|].
  now destruct (near_half a b (2 * phred_up a b + 1)).
Qed.

(** With fewer than [2^63] votes the score fits an unsigned byte. *)
Lemma phred_float_byte (fp : FloatSource) (e t : Z) :
  0 < e <= t -> t < 2 ^ 63 -> 0 <= phred_float fp e t <= 255.
Proof.
  intros He Ht. pose proof (phred_up_byte e t He Ht) as Hq.
  destruct (phred_float_cases fp e t He) as [-> | [(-> & _ & H1) | (-> & _)]];
    lia.
Qed.

Lemma molecular_phred_quotient (fp : FloatSource) (e t : Z) :
  0 < e <= t ->
  molecular_phred fp (inject_Z e / inject_Z t) = phred_float fp e t.
Proof.
  intro He. unfold molecular_phred.
  destruct (quotient_num_den e t) as [-> ->]; [lia|].
  replace (e <=? t) with true by (symmetry; apply Z.leb_le; lia).
  reflexivity.
Qed.

End Phred.

Section Winner.

Lemma getitem_in {A : Type} (l : list A) (i : Z) (a : A) :
  getitem l i = Ok a -> In a l.
Proof.
  unfold getitem. destruct (_ && _); [|discriminate].
  destruct (nth_error l _) as [b|] eqn:E; [|discriminate].
  intro H. injection H as <-. now apply nth_error_In in E.
Qed.

Lemma fold_max_spec (t : list Z) :
  forall x, (forall y, In y (x :: t) -> y <= fold_left Z.max t x)
            /\ In (fold_left Z.max t x) (x :: t).
Proof.
  induction t as [|z t IH]; intro x; cbn [fold_left].
  - split; [intros y [<-|[]]; lia | now left].
  - destruct (IH (Z.max x z)) as [Hle Hin]. split.
    + intros y [<-|[<-|Hy]].
      * specialize (Hle (Z.max x z) (or_introl eq_refl)). lia.
      * specialize (Hle (Z.max x z) (or_introl eq_refl)). lia.
      * apply Hle. now right.
    + destruct Hin as [Hm|Hin]; [|right; now right].
      rewrite <- Hm. destruct (Z.max_spec x z) as [[_ ->]|[_ ->]];
        [right; now left | now left].
Qed.

Lemma enumerate_from_in (l : list Z) :
  forall a k x,
    In (k, x) (enumerate_from a l)
    <-> a <= k /\ nth_error l (Z.to_nat (k - a)) = Some x.
Proof.
  induction l as [|y l IH]; intros a k x; cbn [enumerate_from In].
  - split; [tauto|]. intros [_ H]. destruct (Z.to_nat (k - a)); discriminate H.
  - rewrite IH. split.
    + intros [H | [Hk H]].
      * injection H as <- <-. rewrite Z.sub_diag. split; [lia | reflexivity].
      * split; [lia|].
        replace (Z.to_nat (k - a)) with (S (Z.to_nat (k - (a + 1)))) by lia.
        exact H.
    + intros [Hk H]. destruct (Z.eq_dec k a) as [->|Hn].
      * rewrite Z.sub_diag in H. cbn in H. injection H as <-. now left.
      * right. split; [lia|].
        replace (Z.to_nat (k - a)) with (S (Z.to_nat (k - (a + 1)))) in H by lia.
        exact H.
Qed.

(** The indices kept by line 261 are those of the largest counters, and
    there is at least one. *)
Lemma max_nuc_positions_spec (score : list Z) :
  score <> [] ->
  max_nuc_positions score <> []
  /\ forall k, In k (max_nuc_positions score) ->
       0 <= k < Z.of_nat (List.length score)
       /\ forall j, (j < List.length score)%nat ->
                    nth j score 0 <= nth (Z.to_nat k) score 0.
Proof.
  destruct score as [|x t]; [congruence|]. intros _.
  unfold max_nuc_positions, Py.max.
  destruct (fold_max_spec t x) as [Hle Hin].
  set (m := fold_left Z.max t x) in *.
  set (score := x :: t) in *.
  assert (Hmem : forall k, In k (map fst (filter (fun fk => snd fk =? m)
                                            (enumerate_from 0 score)))
                           <-> 0 <= k /\ nth_error score (Z.to_nat k) = Some m).
  { intro k. rewrite in_map_iff. split.
    - intros ([k' v] & Hk & Hf). cbn in Hk. subst k'.
      apply filter_In in Hf as [Hf Hv]. cbn in Hv. apply Z.eqb_eq in Hv. subst v.
      apply enumerate_from_in in Hf. now rewrite Z.sub_0_r in Hf.
    - intros [Hk Hn]. exists (k, m). split; [reflexivity|].
      apply filter_In. split; [|cbn; apply Z.eqb_refl].
      apply enumerate_from_in. now rewrite Z.sub_0_r. }
  split.
  - apply In_nth_error in Hin as [j Hj].
    intro Hnil. assert (Hk : In (Z.of_nat j) []).
    { rewrite <- Hnil. apply Hmem. split; [lia|]. now rewrite Nat2Z.id. }
    destruct Hk.
  - intros k Hk. apply Hmem in Hk as [Hk Hn]. split.
    + assert (Z.to_nat k < List.length score)%nat
        by (apply nth_error_Some; congruence). lia.
    + intros j Hj. rewrite (nth_error_nth _ _ 0 Hn).
      apply Hle, nth_In, Hj.
Qed.

Lemma sum_app (a b : list Z) : sum (a ++ b) = sum a + sum b.
Proof.
  unfold sum. induction a as [|x a IH]; cbn [app fold_right]; lia.
Qed.

(** The counters of the symbols that lost add up to the total minus the
    counter of the winner. *)
Lemma sum_without (l : list Z) :
  forall k, (k < List.length l)%nat ->
    sum (firstn k l ++ skipn (k + 1) l) = sum l - nth k l 0.
Proof.
  induction l as [|x l IH]; intros k Hk; [cbn in Hk; lia|].
  destruct k as [|k].
  - cbn. unfold sum. lia.
  - cbn [firstn Nat.add skipn app nth]. cbn [List.length] in Hk.
    change (sum (x :: firstn k l ++ skipn (k + 1) l))
      with (x + sum (firstn k l ++ skipn (k + 1) l)).
    rewrite IH by lia. cbn. unfold sum. lia.
Qed.

Lemma sum_nonneg (l : list Z) : Forall (fun v => 0 <= v) l -> 0 <= sum l.
Proof. induction 1 as [|x l Hx _ IH]; cbn; [lia|]. unfold sum in IH. lia. Qed.

Lemma nth_nonneg (l : list Z) (k : nat) :
  Forall (fun v => 0 <= v) l -> 0 <= nth k l 0.
Proof.
  intro H. destruct (Nat.lt_ge_cases k (List.length l)) as [Hk|Hk].
  - rewrite Forall_forall in H. apply H, nth_In, Hk.
  - rewrite nth_overflow by assumption. lia.
Qed.

Lemma nth_le_sum (l : list Z) (k : nat) :
  Forall (fun v => 0 <= v) l -> nth k l 0 <= sum l.
Proof.
  intro H. revert k. induction H as [|x l Hx Hl IH]; intros [|k]; cbn; try lia.
  - pose proof (sum_nonneg l Hl). unfold sum in *. lia.
  - specialize (IH k). unfold sum in *. lia.
Qed.

(** With at least one vote, [winner] returns the index of a largest counter
    and the quality of the votes that went elsewhere. *)
Lemma winner_votes (fp : FloatSource) (rng : RandomSource) (n : nat)
    (score : list Z) :
  Forall (fun v => 0 <= v) score -> 0 < sum score ->
  exists k,
    winner fp rng n score
    = Ok (k, quality_of fp (sum score - nth (Z.to_nat k) score 0) (sum score))
    /\ 0 <= k < Z.of_nat (List.length score)
    /\ forall j, (j < List.length score)%nat ->
                 nth j score 0 <= nth (Z.to_nat k) score 0.
Proof.
  intros Hpos Hsum.
  assert (Hne : score <> []) by (intros ->; cbn in Hsum; lia).
  destruct (max_nuc_positions_spec score Hne) as [Hnil Hmax].
  unfold winner.
  set (L := max_nuc_positions score) in *.
  assert (Hlen : 0 < Z.of_nat (List.length L))
    by (destruct L; [congruence | cbn [List.length]; lia]).
  replace (0 <=? Z.of_nat (List.length L) - 1) with true
    by (symmetry; apply Z.leb_le; lia).
  cbn [bind].
  pose proof (randint_range rng n 0 (Z.of_nat (List.length L) - 1)) as Hr.
  destruct (getitem_in_range L (randint rng n 0 (Z.of_nat (List.length L) - 1)))
    as [k Hk]; [lia|].
  rewrite Hk. cbn [bind].
  destruct (Hmax k (getitem_in _ _ _ Hk)) as [Hkr Hkm].
  exists k. split; [|split; assumption].
  replace (Z.to_nat (k + 1)) with (Z.to_nat k + 1)%nat by lia.
  rewrite sum_without by lia.
  set (t := sum score) in *. set (e := t - nth (Z.to_nat k) score 0).
  assert (He : 0 <= e <= t).
  { unfold e, t. pose proof (nth_nonneg score (Z.to_nat k) Hpos).
    pose proof (nth_le_sum score (Z.to_nat k) Hpos). lia. }
  unfold true_div. replace (t =? 0) with false by (symmetry; apply Z.eqb_neq; lia).
  cbn [bind].
  destruct (quotient_num_den e t Hsum) as [Hnum Hden].
  assert (Hz : Qeq_bool (inject_Z e / inject_Z t) 0 = (e =? 0)).
  { unfold Qeq_bool. rewrite Hnum. cbn [Qnum Qden].
    rewrite Z.mul_1_r. cbn [Z.mul].
    destruct e; reflexivity. }
  rewrite Hz. unfold quality_of.
  destruct (e =? 0) eqn:E0; [reflexivity|].
  apply Z.eqb_neq in E0. unfold round_phred. rewrite Hnum.
  replace (e <=? 0) with false by (symmetry; apply Z.leb_gt; lia).
  cbn [bind]. rewrite molecular_phred_quotient by lia. reflexivity.
Qed.

(** Without any vote, [winner] raises. *)
Lemma winner_no_vote (fp : FloatSource) (rng : RandomSource) (n : nat)
    (score : list Z) :
  sum score = 0 -> exists e, winner fp rng n score = Raise e.
Proof.
  intro Hsum. unfold winner.
  destruct (0 <=? _); cbn [bind]; [|now eexists].
  destruct (getitem _ _); cbn [bind]; [|now eexists].
  unfold true_div. rewrite Hsum. cbn. now eexists.
Qed.

End Winner.

Section Emission.

Lemma emit_appends (fp : FloatSource) (rng : RandomSource) (n : nat)
    (score : list Z)
    (read : string) (quals : list Z) :
  emit fp rng n score (read, quals)
  = ((read ++ fst (emission fp rng n score))%string,
     quals ++ snd (emission fp rng n score)).
Proof.
  unfold emission, emit.
  destruct (winner fp rng n score) as [[k q]|]; [|reflexivity].
  destruct (getitem nuc_lst k) as [nuc|]; [|reflexivity].
  destruct ((0 <=? q) && (q <=? 255)); cbn [fst snd append app];
    [reflexivity|].
  now rewrite append_assoc.
Qed.

(** Without any vote the position is an N of quality 0. *)
Lemma emission_no_vote (fp : FloatSource) (rng : RandomSource) (n : nat)
    (score : list Z) :
  sum score = 0 -> emission fp rng n score = ("N", [0]).
Proof.
  intro H. unfold emission, emit.
  destruct (winner_no_vote fp rng n score H) as [e ->]. reflexivity.
Qed.

Lemma nuc_lst_has (k : Z) :
  0 <= k < 5 ->
  exists c, getitem nuc_lst k = Ok c /\ c = nth (Z.to_nat k) nuc_lst "N"%char
            /\ in_alphabet c = true.
Proof.
  intro H.
  assert (Hk : k = 0 \/ k = 1 \/ k = 2 \/ k = 3 \/ k = 4) by lia.
  destruct Hk as [-> | [-> | [-> | [-> | ->]]]];
    eexists; (split; [reflexivity | split; reflexivity]).
Qed.

Lemma quality_of_byte (fp : FloatSource) (e t : Z) :
  0 <= e <= t -> t < 2 ^ 63 -> 0 <= quality_of fp e t <= 255.
Proof.
  intros He Ht. unfold quality_of.
  destruct (e =? 0) eqn:E; [lia|]. apply Z.eqb_neq in E.
  apply phred_float_byte; lia.
Qed.

(** With at least one vote, and fewer than [2^63] of them, the position is
    the symbol of a largest counter with the quality of the other votes. *)
Lemma emission_votes (fp : FloatSource) (rng : RandomSource) (n : nat)
    (score : list Z) :
  count_vector (2 ^ 63 - 1) score -> 0 < sum score ->
  exists k : nat,
    (k < 5)%nat
    /\ (forall j, (j < 5)%nat -> nth j score 0 <= nth k score 0)
    /\ emission fp rng n score
       = (String (nth k nuc_lst "N"%char) EmptyString,
          [quality_of fp (sum score - nth k score 0) (sum score)]).
Proof.
  intros (Hlen & Hpos & Hbound) Hsum.
  destruct (winner_votes fp rng n score Hpos Hsum) as (k & Hw & Hk & Hmax).
  rewrite Hlen in Hk, Hmax.
  exists (Z.to_nat k). split; [lia|]. split; [exact Hmax|].
  unfold emission, emit. rewrite Hw.
  destruct (nuc_lst_has k) as (c & -> & -> & _); [lia|].
  pose proof (nth_nonneg score (Z.to_nat k) Hpos) as H0.
  pose proof (nth_le_sum score (Z.to_nat k) Hpos) as H1.
  destruct (quality_of_byte fp (sum score - nth (Z.to_nat k) score 0)
    (sum score))
    as [Hq0 Hq1]; [lia | lia |].
  replace (0 <=? quality_of fp _ _) with true by
    (symmetry; apply Z.leb_le; lia).
  replace (quality_of fp _ _ <=? 255) with true by
    (symmetry; apply Z.leb_le; lia).
  reflexivity.
Qed.

(** Each position adds one symbol of the alphabet and one quality. *)
Lemma emission_single (fp : FloatSource) (rng : RandomSource) (n : nat)
    (score : list Z) :
  count_vector (2 ^ 63 - 1) score ->
  exists c q, emission fp rng n score = (String c EmptyString, [q])
              /\ in_alphabet c = true.
Proof.
  intro Hc. pose proof Hc as (Hlen & Hpos & Hbound).
  destruct (Z.eq_dec (sum score) 0) as [H0|Hn].
  - rewrite (emission_no_vote fp rng n score H0). now exists "N"%char, 0.
  - pose proof (sum_nonneg score Hpos).
    destruct (emission_votes fp rng n score Hc) as (k & Hk & _ & ->); [lia|].
    do 2 eexists. split; [reflexivity|].
    destruct (nuc_lst_has (Z.of_nat k)) as (c & _ & Hc' & Hin); [lia|].
    rewrite Nat2Z.id in Hc'. now rewrite <- Hc'.
Qed.

End Emission.

Section PositionLoop.

Variable fp : FloatSource.
Variable rng : RandomSource.
Variable readLength : Z.
Variable reads : list (AlignedRead * list Z).
Hypothesis family_size : Z.of_nat (List.length reads) < 2 ^ 63.

(** The output of the loop over positions [a, a+1, ..., a+n-1]: one symbol
    and one quality per position, those of the vote count there. *)
Lemma position_loop_spec (n : nat) :
  forall (a : nat) (read : string) (quals : list Z) (out : string * list Z),
    position_loop fp rng readLength reads (seq a n) (read, quals) = Ok out ->
    exists chars qs,
      out = ((read ++ chars)%string, quals ++ qs)
      /\ String.length chars = n
      /\ List.length qs = n
      /\ over_alphabet chars = true
      /\ forall j, (j < n)%nat ->
           exists score c q,
             tally readLength reads (Z.of_nat (a + j)) = Ok score
             /\ emission fp rng (a + j) score = (String c EmptyString, [q])
             /\ String.get j chars = Some c
             /\ nth_error qs j = Some q.
Proof.
  induction n as [|n IH]; intros a read quals out H.
  - injection H as <-. exists EmptyString, [].
    rewrite append_nil_r, app_nil_r. repeat split. intros j Hj. lia.
  - cbn [seq position_loop] in H.
    destruct (tally readLength reads (Z.of_nat a)) as [score|] eqn:Et;
      cbn [bind] in H; [|discriminate H].
    rewrite emit_appends in H.
    destruct (emission_single fp rng a score) as (c & q & Ee & Hin).
    { pose proof (tally_counts _ _ _ _ Et) as (H1 & H2 & H3).
      repeat split; try assumption. lia. }
    rewrite Ee in H. cbn [fst snd] in H.
    destruct (IH _ _ _ _ H) as (chars & qs & -> & Hlc & Hlq & Halpha & Hat).
    exists (String c chars), (q :: qs).
    rewrite append_assoc, <- app_assoc. cbn [append app].
    repeat split.
    + cbn. now rewrite Hlc.
    + cbn. now rewrite Hlq.
    + cbn [over_alphabet]. now rewrite Hin, Halpha.
    + intros [|j] Hj.
      * exists score, c, q. rewrite Nat.add_0_r. now repeat split.
      * destruct (Hat j) as (score' & c' & q' & H1 & H2 & H3 & H4); [lia|].
        exists score', c', q'.
        replace (a + S j)%nat with (S a + j)%nat by lia. now repeat split.
Qed.

(** The loop returns as soon as the vote count of every position does. *)
Lemma position_loop_total (positions : list nat) :
  (forall i, In i positions ->
             exists score, tally readLength reads (Z.of_nat i) = Ok score) ->
  forall out, exists out',
      position_loop fp rng readLength reads positions out = Ok out'.
Proof.
  induction positions as [|i positions IH]; intros Hall out; cbn [position_loop].
  - now exists out.
  - destruct (Hall i (or_introl eq_refl)) as [score ->]. cbn [bind].
    apply IH. intros k Hk. apply Hall. now right.
Qed.

End PositionLoop.

Section VoteTotal.

Lemma query_seq_pos_start (cig : cigar_t) (readLength start end_ : Z) :
  query_seq_pos cig readLength = Ok (start, end_) -> 0 <= start.
Proof.
  unfold query_seq_pos. intro H.
  destruct (getitem cig 0) as [first|]; cbn [bind] in H; [|discriminate H].
  destruct (getitem cig (-1)) as [final|]; cbn [bind] in H; [|discriminate H].
  injection H as <- _. destruct (is_clip (fst first)); lia.
Qed.

Lemma string_get_alphabet (s : string) :
  forall k, (k < String.length s)%nat ->
    exists c, String.get k s = Some c
              /\ (over_alphabet s = true -> in_alphabet c = true).
Proof.
  induction s as [|x s IH]; intros k Hk; [cbn in Hk; lia|].
  destruct k as [|k].
  - exists x. split; [reflexivity|]. cbn [over_alphabet]. intro H.
    now apply andb_true_iff in H.
  - cbn [String.length] in Hk. destruct (IH k) as (c & Hc & Ha); [lia|].
    exists c. split; [exact Hc|]. cbn [over_alphabet]. intro H.
    apply andb_true_iff in H. now apply Ha.
Qed.

Lemma list_index_alphabet (c : ascii) :
  in_alphabet c = true -> exists k, list_index nuc_lst c = Ok k.
Proof.
  intro H. apply in_alphabet_cases in H.
  destruct H as [-> | [-> | [-> | [-> | ->]]]]; eexists; reflexivity.
Qed.

Lemma vote_step_pos (readLength : Z) (read : AlignedRead)
    (mismatches : list Z) (st st' : vote_state) :
  vote_step readLength read mismatches st = Ok st' -> pos st' = pos st.
Proof.
  unfold vote_step. intro H.
  destruct (query_seq_pos _ _) as [qp|]; cbn [bind] in H; [|discriminate H].
  destruct ((pos st <? fst qp) || (pos st >=? snd qp)).
  - now injection H as <-.
  - destruct (if mem (pos st) mismatches then _ else _) as [fail|];
      cbn [bind] in H; [|discriminate H].
    destruct fail; [now injection H as <-|].
    destruct (str_getitem _ _) as [nuc|]; cbn [bind] in H; [|discriminate H].
    destruct (list_index nuc_lst nuc) as [k|]; cbn [bind] in H;
      [|discriminate H].
    injection H as <-. cbn. lia.
Qed.

(** A well-formed read votes, or abstains, at every position. *)
Lemma vote_step_total (readLength : Z) (read : AlignedRead)
    (mismatches : list Z) (st : vote_state) :
  well_formed_read readLength read = true ->
  mismatch_pos (cigar read) (MD read) = Ok mismatches ->
  0 <= pos st ->
  exists st', vote_step readLength read mismatches st = Ok st'.
Proof.
  unfold well_formed_read. intros Hwf Hms Hpos. rewrite Hms in Hwf.
  apply andb_true_iff in Hwf as [Halpha Hwf].
  destruct (query_seq_pos (cigar read) readLength) as [[start end_]|] eqn:Eq;
    [|discriminate Hwf].
  apply andb_true_iff in Hwf as [Hcover Hquals].
  apply Z.leb_le in Hcover. rewrite forallb_forall in Hquals.
  pose proof (query_seq_pos_start _ _ _ _ Eq) as Hstart.
  unfold vote_step. rewrite Eq. cbn [bind fst snd].
  destruct ((pos st <? start) || (pos st >=? end_)) eqn:Eout; [now eexists|].
  apply orb_false_iff in Eout as [E1 E2].
  apply Z.ltb_ge in E1. rewrite Z.geb_leb in E2. apply Z.leb_gt in E2.
  assert (Hfail : exists fail,
             (if mem (pos st) mismatches
              then q <- getitem (query_alignment_qualities read) (pos st) ;;
                   Ok (q <? 30)
              else Ok false) = Ok fail).
  { destruct (mem (pos st) mismatches) eqn:Em; [|now eexists].
    unfold mem in Em. apply existsb_exists in Em as (m & Hm & Heq).
    apply Z.eqb_eq in Heq. subst m. specialize (Hquals _ Hm).
    apply orb_true_iff in Hquals as [Hquals | Hq].
    - apply orb_true_iff in Hquals as [H | H];
        [apply Z.ltb_lt in H | apply Z.leb_le in H]; lia.
    - apply Z.ltb_lt in Hq.
      destruct (getitem_in_range (query_alignment_qualities read) (pos st))
        as [q ->]; [lia|]. cbn [bind]. now eexists. }
  destruct Hfail as [fail ->]. cbn [bind].
  destruct fail; [now eexists|].
  assert (Eneg : (pos st - start <? 0) = false) by (apply Z.ltb_ge; lia).
  unfold str_getitem. cbv zeta. rewrite Eneg. cbv iota. rewrite Eneg.
  destruct (string_get_alphabet (query_alignment_sequence read)
                                (Z.to_nat (pos st - start)))
    as (c & -> & Hc); [lia|].
  cbn [bind]. destruct (list_index_alphabet c (Hc Halpha)) as [k ->].
  cbn [bind]. now eexists.
Qed.

Lemma vote_loop_total (readLength : Z) (reads : list (AlignedRead * list Z)) :
  Forall (fun rm => well_formed_read readLength (fst rm) = true
                    /\ mismatch_pos (cigar (fst rm)) (MD (fst rm))
                       = Ok (snd rm)) reads ->
  forall st, 0 <= pos st -> exists st', vote_loop readLength reads st = Ok st'.
Proof.
  induction 1 as [|[read ms] reads [Hwf Hms] _ IH]; intros st Hpos;
    cbn [vote_loop].
  - now exists st.
  - cbn [fst snd] in Hwf, Hms.
    destruct (vote_step_total readLength read ms st Hwf Hms Hpos) as [st1 E].
    rewrite E. cbn [bind]. apply IH.
    rewrite (vote_step_pos _ _ _ _ _ E). exact Hpos.
Qed.

Lemma mismatch_pos_all_spec (readList : list AlignedRead) :
  forall mss, mismatch_pos_all readList = Ok mss ->
    Forall2 (fun read ms => mismatch_pos (cigar read) (MD read) = Ok ms)
            readList mss.
Proof.
  induction readList as [|read rest IH]; intros mss H; cbn [mismatch_pos_all] in H.
  - injection H as <-. constructor.
  - destruct (mismatch_pos (cigar read) (MD read)) as [m|] eqn:Em;
      cbn [bind] in H; [|discriminate H].
    destruct (mismatch_pos_all rest) as [ms|]; cbn [bind] in H;
      [|discriminate H].
    injection H as <-. constructor; [exact Em | now apply IH].
Qed.

Lemma mismatch_pos_all_total (readLength : Z) (readList : list AlignedRead) :
  forallb (well_formed_read readLength) readList = true ->
  exists mss, mismatch_pos_all readList = Ok mss.
Proof.
  induction readList as [|read rest IH]; cbn [forallb mismatch_pos_all]; intro H.
  - now eexists.
  - apply andb_true_iff in H as [Hwf Hrest].
    destruct (IH Hrest) as [mss ->].
    unfold well_formed_read in Hwf. apply andb_true_iff in Hwf as [_ Hwf].
    destruct (query_seq_pos _ _) as [[s e]|]; [|discriminate Hwf].
    destruct (mismatch_pos (cigar read) (MD read)) as [m|]; [|discriminate Hwf].
    cbn [bind]. now eexists.
Qed.

Lemma tally_total (readLength : Z) (readList : list AlignedRead)
    (mss : list (list Z)) (i : Z) :
  forallb (well_formed_read readLength) readList = true ->
  mismatch_pos_all readList = Ok mss ->
  0 <= i ->
  exists score, tally readLength (combine readList mss) i = Ok score.
Proof.
  intros Hwf Hms Hi. unfold tally.
  destruct (vote_loop_total readLength (combine readList mss))
    with (st := mkVote [0; 0; 0; 0; 0] 0 i) as [st ->]; [|exact Hi|].
  - apply mismatch_pos_all_spec in Hms. rewrite forallb_forall in Hwf.
    clear Hi. induction Hms as [|read ms rest mss' Hm _ IH]; cbn [combine].
    + constructor.
    + constructor.
      * cbn [fst snd]. split; [apply Hwf; now left | exact Hm].
      * apply IH. intros x Hx. apply Hwf. now right.
  - cbn [bind]. now eexists.
Qed.

End VoteTotal.

Section Consensus.

Variable fp : FloatSource.
Variable rng : RandomSource.
Variable cutoff : Q.

(** The result of [consensus_maker], position by position. *)
Lemma consensus_maker_positions (readList : list AlignedRead)
    (readLength : nat) (bases : string) (quals : list Z) :
  Z.of_nat (List.length readList) < 2 ^ 63 ->
  consensus_maker readList (Z.of_nat readLength) cutoff fp rng
  = Ok (bases, quals) ->
  exists mss,
    mismatch_pos_all readList = Ok mss
    /\ String.length bases = readLength
    /\ List.length quals = readLength
    /\ over_alphabet bases = true
    /\ forall i, (i < readLength)%nat ->
         exists score c q,
           tally (Z.of_nat readLength) (combine readList mss) (Z.of_nat i)
           = Ok score
           /\ emission fp rng i score = (String c EmptyString, [q])
           /\ String.get i bases = Some c
           /\ nth_error quals i = Some q.
Proof.
  intros Hsize H. unfold consensus_maker in H.
  destruct (mismatch_pos_all readList) as [mss|]; cbn [bind] in H;
    [|discriminate H].
  exists mss. split; [reflexivity|].
  rewrite Nat2Z.id in H.
  apply position_loop_spec in H.
  - destruct H as (chars & qs & E & Hlc & Hlq & Ha & Hat).
    cbn [append app] in E. injection E as -> ->.
    repeat split; assumption.
  - rewrite length_combine. lia.
Qed.

(** The result is fixed by the vote counts: two vote counts for one position
    are the same. *)
Lemma consensus_maker_at (readList : list AlignedRead) (readLength : nat)
    (bases : string) (quals : list Z) (mss : list (list Z)) (i : nat)
    (score : list Z) :
  Z.of_nat (List.length readList) < 2 ^ 63 ->
  consensus_maker readList (Z.of_nat readLength) cutoff fp rng
  = Ok (bases, quals) ->
  mismatch_pos_all readList = Ok mss ->
  (i < readLength)%nat ->
  tally (Z.of_nat readLength) (combine readList mss) (Z.of_nat i) = Ok score ->
  exists c q,
    emission fp rng i score = (String c EmptyString, [q])
    /\ String.get i bases = Some c
    /\ nth_error quals i = Some q.
Proof.
  intros Hsize H Hms Hi Ht.
  destruct (consensus_maker_positions _ _ _ _ Hsize H)
    as (mss' & Hms' & _ & _ & _ & Hat).
  rewrite Hms in Hms'. injection Hms' as <-.
  destruct (Hat i Hi) as (score' & c & q & Ht' & He & Hc & Hq).
  rewrite Ht in Ht'. injection Ht' as <-. now exists c, q.
Qed.

End Consensus.

(** C7, as the code has it. For a family of fewer than [2^63] reads and
    any read length, the bases and the qualities that [consensus_maker]
    returns both have the read length, and every base is one of A, C, G,
    T, N; and [consensus_maker] does return when every read of the family
    is well formed. *)
Theorem consensus_maker_shape (readList : list AlignedRead)
    (readLength : nat) (cutoff : Q) (fp : FloatSource) (rng : RandomSource) :
  Z.of_nat (List.length readList) < 2 ^ 63 ->
  (forall bases quals,
      consensus_maker readList (Z.of_nat readLength) cutoff fp rng
      = Ok (bases, quals) ->
      String.length bases = readLength
      /\ List.length quals = readLength
      /\ over_alphabet bases = true)
  /\ (forallb (well_formed_read (Z.of_nat readLength)) readList = true ->
      exists bases quals,
        consensus_maker readList (Z.of_nat readLength) cutoff fp rng
        = Ok (bases, quals)).
Proof.
  intro Hsize. split.
  - intros bases quals H.
    destruct (consensus_maker_positions fp rng cutoff _ _ _ _ Hsize H)
      as (_ & _ & H1 & H2 & H3 & _).
    now repeat split.
  - intro Hwf. unfold consensus_maker.
    destruct (mismatch_pos_all_total _ _ Hwf) as [mss Hms].
    rewrite Hms. cbn [bind].
    destruct (position_loop_total fp rng (Z.of_nat readLength)
                (combine readList mss) (seq 0 (Z.to_nat (Z.of_nat readLength))))
      with (out := (EmptyString, @nil Z)) as [[bases quals] E].
    + intros i _. apply tally_total; [assumption | assumption | lia].
    + now exists bases, quals.
Qed.

Lemma consensus_maker_shape_witness :
  exists bases quals,
    consensus_maker [plain_read "AAA"; plain_read "AAA"; plain_read "ACA";
                     plain_read "ACA"] (Z.of_nat 3)
                       (7 # 10) exact_rounding always_lowest
    = Ok (bases, quals)
    /\ String.length bases = 3%nat
    /\ List.length quals = 3%nat
    /\ over_alphabet bases = true.
Proof.
  destruct (consensus_maker_shape
              [plain_read "AAA"; plain_read "AAA"; plain_read "ACA";
               plain_read "ACA"] 3 (7 # 10) exact_rounding always_lowest)
    as [Hshape Htotal]; [reflexivity|].
  destruct (Htotal eq_refl) as (bases & quals & E).
  exists bases, quals. split; [exact E | exact (Hshape _ _ E)].
Defined.

(** C7, as stated, fails: a read of three bases in a family of read
    length 5 has no base at position 3, line 249 raises [IndexError], and
    [consensus_maker] returns nothing. *)
Lemma consensus_maker_short_read :
  query_seq_pos (cigar (plain_read "AAA")) 5 = Ok (0, 5)
  /\ str_getitem (query_alignment_sequence (plain_read "AAA")) 3
     = Raise IndexError
  /\ well_formed_read 5 (plain_read "AAA") = false
  /\ consensus_maker [plain_read "AAA"] 5 (7 # 10) exact_rounding
       always_lowest
     = Raise IndexError.
Proof. repeat split; vm_compute; reflexivity. Qed.

Section PhredOverReals.

(** The integer bounds that pin [phred_up e t] down. *)
Lemma phred_up_nearest (e t : Z) :
  0 < e <= t ->
  let q := phred_up e t in
  0 <= q
  /\ 10 ^ (2 * q) * e ^ 20 <= 10 * t ^ 20
  /\ t ^ 20 < 10 ^ (2 * q + 1) * e ^ 20.
Proof.
  intros He q. destruct (phred_up_spec e t He) as (Hq & Hup & Hbelow).
  fold q in Hq, Hup, Hbelow. repeat split; try assumption.
  destruct (Z.eq_dec q 0) as [E|E].
  - replace (10 ^ (2 * q)) with 1 by (rewrite E; reflexivity).
    assert (e ^ 20 <= t ^ 20) by (apply Z.pow_le_mono_l; lia).
    assert (0 <= t ^ 20) by (apply Z.pow_nonneg; lia). lia.
  - specialize (Hbelow (q - 1) ltac:(lia)).
    replace (2 * (q - 1) + 1) with (2 * q - 1) in Hbelow by lia.
    replace (2 * q) with (Z.succ (2 * q - 1)) by lia.
    rewrite Z.pow_succ_r by lia. lia.
Qed.

Lemma ln_10_pos : (0 < ln 10)%R.
Proof. rewrite <- ln_1. apply ln_increasing; lra. Qed.

Lemma ln_le_mono (x y : R) : (0 < x)%R -> (x <= y)%R -> (ln x <= ln y)%R.
Proof.
  intros Hx [Hlt | ->]; [|lra]. left. now apply ln_increasing.
Qed.

(** [phred_up e t] is within one half of [-10 * log10(e/t)]. *)
Lemma phred_up_real (e t : Z) :
  0 < e <= t ->
  (Rabs (IZR (phred_up e t) - (-10 * log10 (IZR e / IZR t))) <= 1 / 2)%R.
Proof.
  intro He. unfold log10.
  destruct (phred_up_nearest e t He) as (Hq & Hlow & Hup).
  set (q := phred_up e t) in *.
  assert (Ha : (0 < IZR e)%R) by (apply IZR_lt; lia).
  assert (Hb : (0 < IZR t)%R) by (apply IZR_lt; lia).
  pose proof ln_10_pos as HL.
  set (n := Z.to_nat q).
  assert (Hn : q = Z.of_nat n) by (unfold n; lia).
  assert (Ha20 : (0 < IZR e ^ 20)%R) by (apply pow_lt; assumption).
  assert (Hb20 : (0 < IZR t ^ 20)%R) by (apply pow_lt; assumption).
  assert (H10 : forall m : nat, (0 < 10 ^ m)%R) by (intro m; apply pow_lt; lra).
  (* the two integer bounds, over the reals *)
  assert (Rlow : (10 ^ (2 * n) * IZR e ^ 20 <= 10 * IZR t ^ 20)%R).
  { apply IZR_le in Hlow. rewrite !mult_IZR in Hlow.
    replace (2 * q) with (Z.of_nat (2 * n)) in Hlow by lia.
    change 20 with (Z.of_nat 20) in Hlow.
    now rewrite <- !pow_IZR in Hlow. }
  assert (Rup : (IZR t ^ 20 < 10 ^ (2 * n + 1) * IZR e ^ 20)%R).
  { apply IZR_lt in Hup. rewrite !mult_IZR in Hup.
    replace (2 * q + 1) with (Z.of_nat (2 * n + 1)) in Hup by lia.
    change 20 with (Z.of_nat 20) in Hup.
    now rewrite <- !pow_IZR in Hup. }
  (* logarithms *)
  apply ln_le_mono in Rlow; [|apply Rmult_lt_0_compat; auto].
  apply ln_increasing in Rup; [|assumption].
  rewrite !ln_mult, !ln_pow in Rlow by (auto; lra).
  rewrite ln_mult, !ln_pow in Rup by (auto; lra).
  rewrite !INR_IZR_INZ in Rlow, Rup.
  replace (Z.of_nat (2 * n)) with (2 * q) in Rlow by lia.
  replace (Z.of_nat (2 * n + 1)) with (2 * q + 1) in Rup by lia.
  rewrite plus_IZR, mult_IZR in Rup. rewrite mult_IZR in Rlow.
  change (Z.of_nat 20) with 20 in Rlow, Rup.
  unfold Rdiv at 2. rewrite ln_mult, ln_Rinv by (auto using Rinv_0_lt_compat).
  set (A := ln (IZR e)) in *. set (B := ln (IZR t)) in *. set (L := ln 10) in *.
  assert (Hx : (-10 * ((A + - B) / L) * L = 10 * (B - A))%R) by (field; lra).
  set (x := (-10 * ((A + - B) / L))%R) in *.
  apply Rabs_le. split.
  - apply Rmult_le_reg_r with (2 * L)%R; [lra|]. nra.
  - apply Rmult_le_reg_r with (2 * L)%R; [lra|]. nra.
Qed.

Lemma log10_quotient (e t : Z) :
  0 < e -> 0 < t ->
  (-10 * log10 (IZR e / IZR t)
   = 10 * (ln (IZR t) - ln (IZR e)) / ln 10)%R.
Proof.
  intros He Ht. unfold log10.
  assert (Ha : (0 < IZR e)%R) by (apply IZR_lt; lia).
  assert (Hb : (0 < IZR t)%R) by (apply IZR_lt; lia).
  pose proof ln_10_pos as HL.
  unfold Rdiv at 2. rewrite ln_mult, ln_Rinv by (auto using Rinv_0_lt_compat).
  field. lra.
Qed.

Lemma ln_10_ge_1 : (1 <= ln 10)%R.
Proof.
  rewrite <- (ln_exp 1). apply ln_le_mono; [apply exp_pos|].
  pose proof exp_le_3. lra.
Qed.

Lemma Rabs_le_bounds (a b : R) : (Rabs a <= b -> - b <= a <= b)%R.
Proof. unfold Rabs. destruct (Rcase_abs a); lra. Qed.

(** The step of [near_half], over the reals. *)
Lemma ln_step_small :
  (ln (IZR (10 ^ 9 + 1)) - ln (IZR (10 ^ 9)) <= 1 / 10 ^ 9)%R.
Proof.
  assert (H9 : (0 < IZR (10 ^ 9))%R) by (apply IZR_lt; reflexivity).
  assert (H91 : (0 < IZR (10 ^ 9 + 1))%R) by (apply IZR_lt; reflexivity).
  unfold Rminus. rewrite <- ln_Rinv by assumption.
  rewrite <- ln_mult by (try apply Rinv_0_lt_compat; assumption).
  replace (IZR (10 ^ 9 + 1) * / IZR (10 ^ 9))%R with (1 + 1 / 10 ^ 9)%R.
  - rewrite <- (ln_exp (1 / 10 ^ 9)) at 2.
    apply ln_le_mono; [lra|]. apply exp_ineq1_le.
  - rewrite plus_IZR. change (10 ^ 9)%Z with 1000000000. field.
Qed.

(** Bounds of [near_half], over the reals. *)
Lemma near_half_real (a b m : Z) :
  0 < a -> 0 < b -> near_half a b m = true ->
  (Rabs (20 * (ln (IZR b) - ln (IZR a)) - IZR m * ln 10) <= 1 / 10 ^ 9)%R.
Proof.
  intros Ha Hb H. pose proof (near_half_exponent a b m Hb H) as Hm.
  unfold near_half in H. apply andb_true_iff in H as [Hup Hlow].
  apply Z.leb_le in Hup, Hlow.
  set (n := Z.to_nat m). assert (Hn : m = Z.of_nat n) by (unfold n; lia).
  assert (Ra : (0 < IZR a)%R) by (apply IZR_lt; lia).
  assert (Rb : (0 < IZR b)%R) by (apply IZR_lt; lia).
  assert (Ra20 : (0 < IZR a ^ 20)%R) by (apply pow_lt; assumption).
  assert (Rb20 : (0 < IZR b ^ 20)%R) by (apply pow_lt; assumption).
  assert (R10 : (0 < 10 ^ n)%R) by (apply pow_lt; lra).
  assert (R9 : (0 < IZR (10 ^ 9))%R) by (apply IZR_lt; reflexivity).
  assert (R91 : (0 < IZR (10 ^ 9 + 1))%R) by (apply IZR_lt; reflexivity).
  pose proof ln_step_small as Hstep.
  apply IZR_le in Hup, Hlow. rewrite !mult_IZR in Hup, Hlow.
  rewrite Hn in Hup, Hlow. change 20 with (Z.of_nat 20) in Hup, Hlow.
  rewrite <- !pow_IZR in Hup, Hlow.
  apply ln_le_mono in Hup; [|apply Rmult_lt_0_compat; assumption].
  apply ln_le_mono in Hlow;
    [|apply Rmult_lt_0_compat; [apply Rmult_lt_0_compat|]; assumption].
  rewrite !ln_mult, !ln_pow in Hup, Hlow
    by first [assumption | lra | apply Rmult_lt_0_compat; assumption].
  rewrite !INR_IZR_INZ in Hup, Hlow. rewrite <- Hn in Hup, Hlow.
  change (IZR (Z.of_nat 20)) with 20%R in Hup, Hlow.
  apply Rabs_le. lra.
Qed.

(** The quality computed on doubles is within one half, and the step of
    [near_half], of [-10 * log10(e/t)]. *)
Lemma phred_float_real (fp : FloatSource) (e t : Z) :
  0 < e <= t ->
  (Rabs (IZR (phred_float fp e t) - (-10 * log10 (IZR e / IZR t)))
   <= 1 / 2 + 1 / 10 ^ 9)%R.
Proof.
  intro He. pose proof (phred_up_real e t He) as Hq.
  rewrite log10_quotient in Hq |- * by lia.
  pose proof ln_10_ge_1 as HL.
  set (q := phred_up e t) in *.
  set (D := (ln (IZR t) - ln (IZR e))%R) in *. set (L := ln 10) in *.
  assert (Hx : (10 * D / L * L = 10 * D)%R) by (field; lra).
  set (x := (10 * D / L)%R) in *.
  set (eps := (1 / 10 ^ 9)%R).
  assert (Heps : (0 < eps)%R) by (unfold eps; lra).
  apply Rabs_le_bounds in Hq.
  destruct (phred_float_cases fp e t He)
    as [-> | [(-> & Hn & _) | (-> & Hn)]]; fold q.
  - apply Rabs_le. lra.
  - fold q in Hn. apply near_half_real in Hn; [|lia|lia].
    fold D L eps in Hn.
    apply Rabs_le_bounds in Hn.
    rewrite minus_IZR, mult_IZR in Hn. rewrite minus_IZR.
    apply Rabs_le. split; [|lra].
    set (u := (2 * x - 2 * IZR q + 1)%R).
    destruct (Rle_lt_dec 0 u) as [Hu|Hu]; [|unfold u in Hu; lra].
    assert (Hm : (u * 1 <= u * L)%R) by (apply Rmult_le_compat_l; lra).
    unfold u in Hm. nra.
  - fold q in Hn. apply near_half_real in Hn; [|lia|lia].
    fold D L eps in Hn.
    apply Rabs_le_bounds in Hn.
    rewrite plus_IZR, mult_IZR in Hn. rewrite plus_IZR.
    apply Rabs_le. split; [lra|].
    set (u := (2 * IZR q + 1 - 2 * x)%R).
    destruct (Rle_lt_dec 0 u) as [Hu|Hu]; [|unfold u in Hu; lra].
    assert (Hm : (u * 1 <= u * L)%R) by (apply Rmult_le_compat_l; lra).
    unfold u in Hm. nra.
Qed.

End PhredOverReals.

Section Examples.

Variable fp : FloatSource.
Variable rng : RandomSource.

Lemma position_loop_cons (readLength : Z)
    (reads : list (AlignedRead * list Z)) (i : nat) (rest : list nat)
    (out : string * list Z) :
  position_loop fp rng readLength reads (i :: rest) out
  = (score <- tally readLength reads (Z.of_nat i) ;;
     position_loop fp rng readLength reads rest (emit fp rng i score out)).
Proof. reflexivity. Qed.

Lemma count_vector_small (a b c d e : Z) :
  0 <= a -> 0 <= b -> 0 <= c -> 0 <= d -> 0 <= e ->
  a + b + c + d + e < 2 ^ 63 ->
  count_vector (2 ^ 63 - 1) [a; b; c; d; e].
Proof.
  intros. repeat split; [repeat constructor; assumption | cbn; lia].
Qed.

(** Four votes for A and none for another symbol: A with quality 62. *)
Lemma emission_unanimous (n : nat) :
  emission fp rng n [4; 0; 0; 0; 0] = ("A", [62]).
Proof.
  destruct (emission_votes fp rng n [4; 0; 0; 0; 0]) as (k & Hk & Hmax & ->);
    [apply count_vector_small; lia | reflexivity |].
  specialize (Hmax 0%nat ltac:(lia)).
  destruct k as [|[|[|[|[|k]]]]]; cbn in Hmax; try lia. reflexivity.
Qed.

(** Two votes for A and two for C: A or C, with quality 3. *)
Lemma emission_tie (n : nat) :
  emission fp rng n [2; 2; 0; 0; 0] = ("A", [3])
  \/ emission fp rng n [2; 2; 0; 0; 0] = ("C", [3]).
Proof.
  destruct (emission_votes fp rng n [2; 2; 0; 0; 0]) as (k & Hk & Hmax & ->);
    [apply count_vector_small; lia | reflexivity |].
  specialize (Hmax 0%nat ltac:(lia)).
  destruct k as [|[|[|[|[|k]]]]]; cbn in Hmax; try lia;
    [left | right]; reflexivity.
Qed.

Lemma tie_family_consensus (cutoff : Q) :
  consensus_maker tie_family 3 cutoff fp rng = Ok ("AAA", [62; 3; 62])
  \/ consensus_maker tie_family 3 cutoff fp rng = Ok ("ACA", [62; 3; 62]).
Proof.
  unfold consensus_maker.
  replace (mismatch_pos_all tie_family) with (Ok [[]; []; []; []] : result (list (list Z)))
    by (vm_compute; reflexivity).
  cbn [bind]. change (seq 0 (Z.to_nat 3)) with [0; 1; 2]%nat.
  set (reads := combine tie_family [[]; []; []; []]).
  assert (E0 : tally 3 reads (Z.of_nat 0) = Ok [4; 0; 0; 0; 0])
    by (vm_compute; reflexivity).
  assert (E1 : tally 3 reads (Z.of_nat 1) = Ok [2; 2; 0; 0; 0])
    by (vm_compute; reflexivity).
  assert (E2 : tally 3 reads (Z.of_nat 2) = Ok [4; 0; 0; 0; 0])
    by (vm_compute; reflexivity).
  rewrite position_loop_cons, E0. cbn [bind].
  rewrite position_loop_cons, E1. cbn [bind].
  rewrite position_loop_cons, E2. cbn [bind position_loop].
  rewrite !emit_appends, !emission_unanimous.
  destruct (emission_tie 1) as [-> | ->]; [left | right]; reflexivity.
Qed.

End Examples.

(** C5. At a position where at least one vote is cast, the emitted symbol
    is one whose counter is largest, and the emitted quality is 62 when no
    vote went to another symbol and otherwise [round(-10 * log10(P))] for
    [P = (total - votes of the winner) / total], as the doubles give it: an
    integer within [1/2 + 10^-9] of the real number [-10 * log10(P)], and
    the integer nearest to it, within one half, unless that number is
    close to a half-integer.  Stated for families of fewer than [2^63]
    reads.  With two votes for A, two for C and no other vote the
    position is A or C with quality 3 on every platform, as in the family
    [tie_family]. *)
Theorem consensus_maker_majority :
  (forall (readList : list AlignedRead) (readLength : nat) (cutoff : Q)
          (fp : FloatSource) (rng : RandomSource) (bases : string)
            (quals : list Z)
          (mss : list (list Z)) (i : nat) (score : list Z),
      Z.of_nat (List.length readList) < 2 ^ 63 ->
      consensus_maker readList (Z.of_nat readLength) cutoff fp rng
      = Ok (bases, quals) ->
      mismatch_pos_all readList = Ok mss ->
      (i < readLength)%nat ->
      tally (Z.of_nat readLength) (combine readList mss) (Z.of_nat i)
      = Ok score ->
      0 < sum score ->
      exists (k : nat) (q : Z),
        (k < 5)%nat
        /\ (forall j, (j < 5)%nat -> nth j score 0 <= nth k score 0)
        /\ String.get i bases = Some (nth k nuc_lst "N"%char)
        /\ nth_error quals i = Some q
        /\ let e := sum score - nth k score 0 in
           let t := sum score in
           (e = 0 -> q = 62)
           /\ (e <> 0 ->
               q = molecular_phred fp (inject_Z e / inject_Z t)
               /\ (Rabs (IZR q - (-10 * log10 (IZR e / IZR t)))
                   <= 1 / 2 + 1 / 10 ^ 9)%R
               /\ (near_half e t (2 * phred_up e t - 1) = false ->
                   near_half e t (2 * phred_up e t + 1) = false ->
                   (Rabs (IZR q - (-10 * log10 (IZR e / IZR t)))
                    <= 1 / 2)%R)))
  /\ (forall (fp : FloatSource) (rng : RandomSource) (n : nat),
         emission fp rng n [2; 2; 0; 0; 0] = ("A", [3])
         \/ emission fp rng n [2; 2; 0; 0; 0] = ("C", [3]))
  /\ (forall (fp : FloatSource) (rng : RandomSource) (cutoff : Q),
         consensus_maker tie_family 3 cutoff fp rng = Ok ("AAA", [62; 3; 62])
         \/ consensus_maker tie_family 3 cutoff fp rng = Ok
           ("ACA", [62; 3; 62])).
Proof.
  split; [|split; [apply emission_tie | apply tie_family_consensus]].
  intros readList readLength cutoff fp rng bases quals mss i score
         Hsize Hcm Hms Hi Ht Hsum.
  destruct (consensus_maker_at fp rng cutoff _ _ _ _ _ _ _ Hsize Hcm Hms Hi Ht)
    as (c & q & He & Hc & Hq).
  pose proof (tally_counts _ _ _ _ Ht) as (Hlen & Hpos & Hbound).
  rewrite length_combine in Hbound.
  destruct (emission_votes fp rng i score) as (k & Hk & Hmax & Hem);
    [repeat split; try assumption; lia | assumption |].
  rewrite Hem in He. injection He as <- <-.
  exists k, (quality_of fp (sum score - nth k score 0) (sum score)).
  repeat split; try assumption.
  - intro E. unfold quality_of. now rewrite E.
  - unfold quality_of. apply Z.eqb_neq in H. rewrite H.
    apply Z.eqb_neq in H. pose proof (nth_nonneg score k Hpos).
    pose proof (nth_le_sum score k Hpos).
    rewrite molecular_phred_quotient by lia. reflexivity.
  - unfold quality_of. apply Z.eqb_neq in H. rewrite H.
    apply Z.eqb_neq in H. pose proof (nth_nonneg score k Hpos).
    pose proof (nth_le_sum score k Hpos).
    apply phred_float_real. lia.
  - intros Hlow Hup. unfold quality_of. apply Z.eqb_neq in H. rewrite H.
    apply Z.eqb_neq in H. pose proof (nth_nonneg score k Hpos).
    pose proof (nth_le_sum score k Hpos).
    unfold phred_float. rewrite Hlow, Hup.
    apply phred_up_real. lia.
Qed.

Lemma consensus_maker_majority_witness :
  exists (k : nat) (q : Z),
    (k < 5)%nat
    /\ (forall j, (j < 5)%nat ->
                  nth j [2; 2; 0; 0; 0] 0 <= nth k [2; 2; 0; 0; 0] 0)
    /\ String.get 1 "AAA" = Some (nth k nuc_lst "N"%char)
    /\ nth_error [62; 3; 62] 1 = Some q
    /\ let e := sum [2; 2; 0; 0; 0] - nth k [2; 2; 0; 0; 0] 0 in
       let t := sum [2; 2; 0; 0; 0] in
       (e = 0 -> q = 62)
       /\ (e <> 0 ->
           q = molecular_phred exact_rounding (inject_Z e / inject_Z t)
           /\ (Rabs (IZR q - (-10 * log10 (IZR e / IZR t)))
               <= 1 / 2 + 1 / 10 ^ 9)%R
           /\ (near_half e t (2 * phred_up e t - 1) = false ->
               near_half e t (2 * phred_up e t + 1) = false ->
               (Rabs (IZR q - (-10 * log10 (IZR e / IZR t)))
                <= 1 / 2)%R)).
Proof.
  apply (proj1 consensus_maker_majority
               tie_family 3%nat (7 # 10) exact_rounding always_lowest "AAA" [62; 3; 62]
               [[]; []; []; []] 1%nat [2; 2; 0; 0; 0]).
  - reflexivity.
  - vm_compute. reflexivity.
  - vm_compute. reflexivity.
  - lia.
  - vm_compute. reflexivity.
  - reflexivity.
Defined.

Section Propagation.

Variable readLength : Z.

(** An exception of [mismatch_pos] on a read leaves the first loop. *)
Lemma mismatch_pos_all_raises (before : list AlignedRead) :
  forall (read : AlignedRead) (after : list AlignedRead)
         (mss : list (list Z)) (e : exn),
    mismatch_pos_all before = Ok mss ->
    mismatch_pos (cigar read) (MD read) = Raise e ->
    mismatch_pos_all (before ++ read :: after) = Raise e.
Proof.
  induction before as [|r before IH]; intros read after mss e Hb He.
  - cbn [app mismatch_pos_all]. now rewrite He.
  - cbn [app mismatch_pos_all] in Hb |- *.
    destruct (mismatch_pos (cigar r) (MD r)) as [m|]; cbn [bind] in Hb |- *;
      [|discriminate Hb].
    destruct (mismatch_pos_all before) as [ms|]; [|discriminate Hb].
    now rewrite (IH read after ms e eq_refl He).
Qed.

(** An exception of the body leaves the loop over the reads. *)
Lemma vote_loop_raises (before : list (AlignedRead * list Z)) :
  forall (read : AlignedRead) (ms : list Z)
         (after : list (AlignedRead * list Z)) (st st1 : vote_state)
         (e : exn),
    vote_loop readLength before st = Ok st1 ->
    vote_step readLength read ms st1 = Raise e ->
    vote_loop readLength (before ++ (read, ms) :: after) st = Raise e.
Proof.
  induction before as [|[r m] before IH]; intros read ms after st st1 e Hb He.
  - injection Hb as ->. cbn [app vote_loop]. now rewrite He.
  - cbn [app vote_loop] in Hb |- *.
    destruct (vote_step readLength r m st) as [st'|]; cbn [bind] in Hb |- *;
      [|discriminate Hb].
    now apply (IH read ms after st' st1).
Qed.

(** An exception of the vote count leaves the loop over the positions. *)
Lemma position_loop_raises (fp : FloatSource) (rng : RandomSource)
    (reads : list (AlignedRead * list Z)) (before : list nat) :
  forall (i : nat) (after : list nat) (out : string * list Z) (e : exn),
    (forall j, In j before ->
               exists score, tally readLength reads (Z.of_nat j) = Ok score) ->
    tally readLength reads (Z.of_nat i) = Raise e ->
    position_loop fp rng readLength reads (before ++ i :: after) out
    = Raise e.
Proof.
  induction before as [|j before IH]; intros i after out e Hb He.
  - cbn [app position_loop]. now rewrite He.
  - cbn [app position_loop].
    destruct (Hb j (or_introl eq_refl)) as [score ->]. cbn [bind].
    apply IH; [|exact He]. intros k Hk. apply Hb. now right.
Qed.

(** A read without operations has no query bounds. *)
Lemma vote_step_no_operation (read : AlignedRead) (ms : list Z)
    (st : vote_state) :
  cigar read = [] -> vote_step readLength read ms st = Raise IndexError.
Proof. intro H. unfold vote_step, query_seq_pos. now rewrite H. Qed.

Lemma str_getitem_beyond (s : string) (i : Z) :
  Z.of_nat (String.length s) <= i -> str_getitem s i = Raise IndexError.
Proof.
  intro H. unfold str_getitem.
  replace (i <? 0) with false by (symmetry; apply Z.ltb_ge; lia).
  replace (i <? 0) with false by (symmetry; apply Z.ltb_ge; lia).
  destruct (String.get (Z.to_nat i) s) as [c|] eqn:E; [|reflexivity].
  assert (Hlt : (Z.to_nat i < String.length s)%nat).
  { clear H. revert E. generalize (Z.to_nat i). clear i.
    induction s as [|x s IH]; intros [|n] E; try discriminate E;
      cbn [String.length]; [lia|].
    cbn [String.get] in E. apply IH in E. lia. }
  lia.
Qed.

Lemma list_index_foreign (c : ascii) :
  in_alphabet c = false -> list_index nuc_lst c = Raise ValueError.
Proof.
  unfold in_alphabet, nuc_lst. cbn [existsb list_index]. intro H.
  repeat (apply orb_false_iff in H as [H0 H];
          rewrite Ascii.eqb_sym in H0; rewrite H0; clear H0).
  reflexivity.
Qed.

(** What makes the body of the loop over the reads raise, for a read with
    the position within its query bounds: a mismatch position beyond the
    qualities, and for a read that votes, a base beyond the aligned bases
    or outside of A, C, G, T, N. *)
Lemma vote_step_raises (read : AlignedRead) (ms : list Z) (st : vote_state)
    (start end_ : Z) :
  query_seq_pos (cigar read) readLength = Ok (start, end_) ->
  start <= pos st < end_ ->
  (mem (pos st) ms = true ->
   Z.of_nat (List.length (query_alignment_qualities read)) <= pos st ->
   vote_step readLength read ms st = Raise IndexError)
  /\ (mem (pos st) ms = false
      \/ (exists q, getitem (query_alignment_qualities read) (pos st) = Ok q
                    /\ 30 <= q) ->
      (Z.of_nat (String.length (query_alignment_sequence read))
       <= pos st - start ->
       vote_step readLength read ms st = Raise IndexError)
      /\ (forall nuc,
            str_getitem (query_alignment_sequence read) (pos st - start)
            = Ok nuc ->
            in_alphabet nuc = false ->
            vote_step readLength read ms st = Raise ValueError)).
Proof.
  intros Hq Hin. unfold vote_step. rewrite Hq. cbn [bind fst snd].
  replace ((pos st <? start) || (pos st >=? end_)) with false
    by (symmetry; apply orb_false_iff; rewrite Z.geb_leb; split;
        [apply Z.ltb_ge | apply Z.leb_gt]; lia).
  split.
  - intros Hm Hlen. rewrite Hm, (getitem_beyond _ _ Hlen). reflexivity.
  - intro Hvote.
    assert (Hfail : (if mem (pos st) ms
                     then q <- getitem (query_alignment_qualities read)
                                       (pos st) ;;
                          Ok (q <? 30)
                     else Ok false) = Ok false).
    { destruct Hvote as [-> | (q & Hg & H30)]; [reflexivity|].
      destruct (mem (pos st) ms); [|reflexivity].
      rewrite Hg. cbn [bind]. f_equal. apply Z.ltb_ge. lia. }
    rewrite Hfail. cbn [bind]. split.
    + intro Hlen. now rewrite (str_getitem_beyond _ _ Hlen).
    + intros nuc Hnuc Hforeign. rewrite Hnuc. cbn [bind].
      now rewrite (list_index_foreign nuc Hforeign).
Qed.

End Propagation.

(** C4, as the code has it. With no vote at a position, or when the
    computation of the winner and of its quality raises, the position is an
    N of quality 0, and nothing raised there leaves [consensus_maker]: it
    returns as soon as the mismatch strings decode and the votes of every
    position are counted.  What is raised outside of the [try] leaves
    [consensus_maker]: the exception of [mismatch_pos] on a read, and the
    exception of the vote count of a position, which a read without
    operations, a mismatch position beyond the qualities, and the base of
    a voting read beyond the aligned bases or outside of A, C, G, T, N
    raise.  Stated for families of fewer than [2^63] reads. *)
Theorem consensus_maker_no_vote (readList : list AlignedRead)
    (readLength : nat) (cutoff : Q) (fp : FloatSource) (rng : RandomSource) :
  Z.of_nat (List.length readList) < 2 ^ 63 ->
  (forall n score e,
      winner fp rng n score = Raise e -> emission fp rng n score = ("N", [0]))
  /\ (forall n score, sum score = 0 -> emission fp rng n score = ("N", [0]))
  /\ (forall bases quals mss i score,
         consensus_maker readList (Z.of_nat readLength) cutoff fp rng
         = Ok (bases, quals) ->
         mismatch_pos_all readList = Ok mss ->
         (i < readLength)%nat ->
         tally (Z.of_nat readLength) (combine readList mss) (Z.of_nat i)
         = Ok score ->
         sum score = 0 ->
         String.get i bases = Some "N"%char /\ nth_error quals i = Some 0)
  /\ (forall mss,
         mismatch_pos_all readList = Ok mss ->
         (forall i, (i < readLength)%nat ->
                    exists score,
                      tally (Z.of_nat readLength) (combine readList mss)
                            (Z.of_nat i) = Ok score) ->
         exists bases quals,
           consensus_maker readList (Z.of_nat readLength) cutoff fp rng
           = Ok (bases, quals))
  /\ (forall e,
         mismatch_pos_all readList = Raise e ->
         consensus_maker readList (Z.of_nat readLength) cutoff fp rng
         = Raise e)
  /\ (forall mss i e,
         mismatch_pos_all readList = Ok mss ->
         (i < readLength)%nat ->
         (forall j, (j < i)%nat ->
                    exists score,
                      tally (Z.of_nat readLength) (combine readList mss)
                            (Z.of_nat j) = Ok score) ->
         tally (Z.of_nat readLength) (combine readList mss) (Z.of_nat i)
         = Raise e ->
         consensus_maker readList (Z.of_nat readLength) cutoff fp rng
         = Raise e)
  /\ (forall before read after mss e,
         readList = before ++ read :: after ->
         mismatch_pos_all before = Ok mss ->
         mismatch_pos (cigar read) (MD read) = Raise e ->
         mismatch_pos_all readList = Raise e)
  /\ (forall before read ms after i st e,
         vote_loop (Z.of_nat readLength) before
                   (mkVote [0; 0; 0; 0; 0] 0 (Z.of_nat i)) = Ok st ->
         vote_step (Z.of_nat readLength) read ms st = Raise e ->
         tally (Z.of_nat readLength) (before ++ (read, ms) :: after)
               (Z.of_nat i) = Raise e)
  /\ (forall read ms st,
         cigar read = [] ->
         vote_step (Z.of_nat readLength) read ms st = Raise IndexError)
  /\ (forall read ms st start end_,
         query_seq_pos (cigar read) (Z.of_nat readLength)
         = Ok (start, end_) ->
         start <= pos st < end_ ->
         (mem (pos st) ms = true ->
          Z.of_nat (List.length (query_alignment_qualities read)) <= pos st ->
          vote_step (Z.of_nat readLength) read ms st = Raise IndexError)
         /\ (mem (pos st) ms = false
             \/ (exists q,
                    getitem (query_alignment_qualities read) (pos st) = Ok q
                    /\ 30 <= q) ->
             (Z.of_nat (String.length (query_alignment_sequence read))
              <= pos st - start ->
              vote_step (Z.of_nat readLength) read ms st = Raise IndexError)
             /\ (forall nuc,
                   str_getitem (query_alignment_sequence read)
                               (pos st - start) = Ok nuc ->
                   in_alphabet nuc = false ->
                   vote_step (Z.of_nat readLength) read ms st
                   = Raise ValueError))).
Proof.
  intro Hsize. repeat apply conj.
  - intros n score e H. unfold emission, emit. now rewrite H.
  - intros n score H. now apply emission_no_vote.
  - intros bases quals mss i score Hcm Hms Hi Ht Hsum.
    destruct (consensus_maker_at fp rng cutoff _ _ _ _ _ _ _ Hsize Hcm Hms Hi
      Ht)
      as (c & q & He & Hc & Hq).
    rewrite (emission_no_vote fp rng i score Hsum) in He.
    injection He as <- <-. now split.
  - intros mss Hms Hall. unfold consensus_maker. rewrite Hms. cbn [bind].
    destruct (position_loop_total fp rng (Z.of_nat readLength)
                (combine readList mss) (seq 0 (Z.to_nat (Z.of_nat readLength))))
      with (out := (EmptyString, @nil Z)) as [[bases quals] E].
    + intros i Hin. apply in_seq in Hin. apply Hall. lia.
    + now exists bases, quals.
  - intros e He. unfold consensus_maker. now rewrite He.
  - intros mss i e Hms Hi Hbefore He.
    unfold consensus_maker. rewrite Hms. cbn [bind]. rewrite Nat2Z.id.
    replace (seq 0 readLength)
      with (seq 0 i ++ i :: seq (S i) (readLength - S i)).
    + apply position_loop_raises; [|exact He].
      intros j Hj. apply in_seq in Hj. apply Hbefore. lia.
    + change (i :: seq (S i) (readLength - S i))
        with (seq i (S (readLength - S i))).
      rewrite <- seq_app. f_equal. lia.
  - intros before read after mss e -> Hb He.
    now apply (mismatch_pos_all_raises before read after mss).
  - intros before read ms after i st e Hb He. unfold tally.
    now rewrite (vote_loop_raises _ before read ms after _ st e Hb He).
  - intros read ms st H. now apply vote_step_no_operation.
  - intros read ms st start end_ Hq Hin.
    exact (vote_step_raises _ read ms st start end_ Hq Hin).
Qed.

Lemma consensus_maker_no_vote_witness :
  exists bases quals,
    consensus_maker [low_quality_read] (Z.of_nat 3)
      (7 # 10) exact_rounding always_lowest
    = Ok (bases, quals)
    /\ String.get 1 bases = Some "N"%char
    /\ nth_error quals 1 = Some 0.
Proof.
  destruct (consensus_maker_no_vote [low_quality_read] 3
    (7 # 10) exact_rounding always_lowest)
    as (_ & _ & Hat & Htotal & _); [reflexivity|].
  destruct (Htotal [[1]]) as (bases & quals & E).
  - vm_compute. reflexivity.
  - intros i Hi.
    destruct i as [|[|[|i]]]; [| | |lia]; eexists; vm_compute; reflexivity.
  - exists bases, quals. split; [exact E|].
    apply (Hat bases quals [[1]] 1%nat [0; 0; 0; 0; 0]).
    + exact E.
    + vm_compute. reflexivity.
    + lia.
    + vm_compute. reflexivity.
    + reflexivity.
Defined.

(** ** [sscs_qname] on the raw tags of two mates *)

Section Decimal.

Lemma digit_char_digit (d : Z) :
  0 <= d < 10 -> is_digit (digit_char d) = true /\ digit_val (digit_char d) = d.
Proof.
  intro H.
  assert (Hd : d = 0 \/ d = 1 \/ d = 2 \/ d = 3 \/ d = 4
               \/ d = 5 \/ d = 6 \/ d = 7 \/ d = 8 \/ d = 9) by lia.
  repeat (destruct Hd as [-> | Hd]; [split; reflexivity|]).
  subst. split; reflexivity.
Qed.

(** [str_digits] writes the decimal digits of [n] in front of [acc]. *)
Lemma str_digits_spec (fuel : nat) :
  forall n acc,
    0 <= n < 2 ^ (Z.of_nat fuel + 1) ->
    exists d,
      str_digits fuel n acc = (d ++ acc)%string
      /\ d <> EmptyString
      /\ all_digits d = true
      /\ digits_value d 0 = n.
Proof.
  induction fuel as [|fuel IH]; intros n acc Hn.
  - cbn [str_digits]. change (2 ^ (Z.of_nat 0 + 1)) with 2 in Hn.
    rewrite Z.mod_small by lia.
    destruct (digit_char_digit n) as [Hd Hv]; [lia|].
    exists (String (digit_char n) EmptyString).
    repeat split; [discriminate | cbn; now rewrite Hd | cbn; lia].
  - cbn [str_digits]. destruct (n <? 10) eqn:E.
    + apply Z.ltb_lt in E. rewrite Z.mod_small by lia.
      destruct (digit_char_digit n) as [Hd Hv]; [lia|].
      exists (String (digit_char n) EmptyString).
      repeat split; [discriminate | cbn; now rewrite Hd | cbn; lia].
    + apply Z.ltb_ge in E.
      destruct (digit_char_digit (n mod 10)) as [Hd Hv];
        [apply Z.mod_pos_bound; lia|].
      destruct (IH (n / 10) (String (digit_char (n mod 10)) acc))
        as (d & -> & Hne & Hall & Hval).
      { split; [apply Z.div_pos; lia|].
        apply Z.div_lt_upper_bound; [lia|].
        replace (Z.of_nat (S fuel) + 1) with (Z.succ (Z.of_nat fuel + 1)) in Hn
          by lia.
        rewrite Z.pow_succ_r in Hn by lia. lia. }
      exists (d ++ String (digit_char (n mod 10)) EmptyString)%string.
      repeat split.
      * now rewrite append_assoc.
      * destruct d; [congruence | discriminate].
      * clear - Hall Hd. induction d as [|c d IHd]; cbn in *.
        -- now rewrite Hd.
        -- apply andb_true_iff in Hall as [Hc Hall]. now rewrite Hc, IHd.
      * assert (Hv' : forall a, digits_value
                          (d ++ String (digit_char (n mod 10)) EmptyString) a
                        = 10 * digits_value d a + n mod 10).
        { clear - Hv. induction d as [|c d IHd]; intro a; cbn; [lia|].
          apply IHd. }
        rewrite Hv', Hval. pose proof (Z.div_mod n 10). lia.
Qed.

Lemma str_nonneg (n : Z) :
  0 <= n ->
  str n <> EmptyString /\ all_digits (str n) = true /\ digits_value (str n) 0 = n.
Proof.
  intro Hn. unfold str. replace (n <? 0) with false
    by (symmetry; apply Z.ltb_ge; lia).
  unfold str_of_nonneg.
  destruct (str_digits_spec (Z.to_nat (Z.log2 n)) n EmptyString)
    as (d & -> & Hne & Hall & Hval).
  - split; [assumption|]. rewrite Z2Nat.id by apply Z.log2_nonneg.
    destruct (Z.eq_dec n 0) as [->|Hz]; [cbn; lia|].
    replace (Z.log2 n + 1) with (Z.succ (Z.log2 n)) by lia.
    apply Z.log2_spec. lia.
  - rewrite append_nil_r. now repeat split.
Qed.

Lemma parse_digits_value (s : string) :
  all_digits s = true ->
  forall acc after, s <> EmptyString \/ after = true ->
                    parse_digits s acc after = Some (digits_value s acc).
Proof.
  induction s as [|c s IH]; intros Hs acc after Hne.
  - destruct Hne as [Hne | ->]; [congruence | reflexivity].
  - cbn [all_digits] in Hs. apply andb_true_iff in Hs as [Hc Hs].
    cbn [parse_digits digits_value]. rewrite Hc. apply (IH Hs). now right.
Qed.

Lemma all_digits_good (s : string) :
  all_digits s = true -> s <> EmptyString -> good_token s = true.
Proof.
  intros Hs Hne. destruct s as [|c s]; [congruence|]. cbn in *.
  apply andb_true_iff in Hs as [Hc Hs]. rewrite Hc. cbn.
  clear - Hs. induction s as [|d s IH]; [reflexivity|].
  cbn in *. apply andb_true_iff in Hs as [Hd Hs]. now rewrite Hd, IH.
Qed.

(** [int] reads a run of digits as its decimal value. *)
Lemma int_digits_value (s : string) :
  all_digits s = true -> s <> EmptyString -> int s = Ok (digits_value s 0).
Proof.
  intros Hs Hne. unfold int, strip.
  rewrite (lstrip_digits s (all_digits_good s Hs Hne)), (rstrip_digits s Hs).
  destruct s as [|c s]; [congruence|].
  pose proof Hs as Hs'. cbn [all_digits] in Hs'.
  apply andb_true_iff in Hs' as [Hc _].
  rewrite !(digit_neq c _ Hc) by reflexivity.
  now rewrite (parse_digits_value (String c s) Hs 0 false) by (left; discriminate).
Qed.

(** [int(str(n))] is [n], for [n >= 0]. *)
Lemma int_str (n : Z) : 0 <= n -> int (str n) = Ok n.
Proof.
  intro Hn. destruct (str_nonneg n Hn) as (Hne & Hall & Hval).
  now rewrite (int_digits_value _ Hall Hne), Hval.
Qed.

Lemma str_injective (a b : Z) : 0 <= a -> 0 <= b -> str a = str b -> a = b.
Proof.
  intros Ha Hb E. pose proof (int_str a Ha) as H1. rewrite E, (int_str b Hb) in H1.
  now injection H1.
Qed.

Lemma digits_lack (c : ascii) (s : string) :
  is_digit c = false -> all_digits s = true -> lacks c s = true.
Proof.
  intros Hc. induction s as [|x s IH]; [reflexivity|]. cbn. intro H.
  apply andb_true_iff in H as [Hx Hs]. rewrite (digit_neq x c Hx Hc), (IH Hs).
  reflexivity.
Qed.

End Decimal.

Section RawTags.

Lemma split_append (sep : ascii) (a b : string) :
  lacks sep a = true -> split sep (a ++ String sep b) = a :: split sep b.
Proof.
  induction a as [|x a IH]; intro H; cbn [append split].
  - now rewrite Ascii.eqb_refl.
  - cbn [lacks] in H. apply andb_true_iff in H as [Hx Ha].
    apply negb_true_iff in Hx. rewrite Hx, (IH Ha). reflexivity.
Qed.

Lemma split_lacks (sep : ascii) (a : string) :
  lacks sep a = true -> split sep a = [a].
Proof.
  induction a as [|x a IH]; intro H; cbn [split]; [reflexivity|].
  cbn [lacks] in H. apply andb_true_iff in H as [Hx Ha].
  apply negb_true_iff in Hx. rewrite Hx, (IH Ha). reflexivity.
Qed.

Lemma lacks_append (c : ascii) (a b : string) :
  lacks c (a ++ b) = lacks c a && lacks c b.
Proof.
  induction a as [|x a IH]; cbn [append lacks]; [reflexivity|].
  now rewrite IH, andb_assoc.
Qed.

Lemma drop_last_append (a b : string) :
  drop_last (String.length b) (a ++ b) = a.
Proof.
  unfold drop_last. rewrite length_append.
  replace (String.length a + String.length b - String.length b)%nat
    with (String.length a) by lia.
  induction a as [|x a IH]; cbn [append String.length String.substring].
  - destruct b; reflexivity.
  - now rewrite IH.
Qed.

Lemma prefix_R1 (c : ascii) (s : string) :
  Ascii.eqb c "R" = false -> String.prefix "R1" (String c s) = false.
Proof.
  intro H. cbn [String.prefix].
  destruct (ascii_dec "R" c) as [<-|]; [discriminate H | reflexivity].
Qed.

Lemma contains_R1_skip (a b : string) :
  lacks "R" a = true -> contains "R1" (a ++ b) = contains "R1" b.
Proof.
  induction a as [|x a IH]; intro H; [reflexivity|].
  cbn [lacks] in H. apply andb_true_iff in H as [Hx Ha].
  apply negb_true_iff in Hx.
  cbn [append contains]. now rewrite (prefix_R1 x _ Hx), (IH Ha).
Qed.

Variable barcode : string.
Hypothesis barcode_fields : lacks "_" barcode = true.
Hypothesis barcode_reads : lacks "R" barcode = true.

Lemma str_lacks (c : ascii) (n : Z) :
  is_digit c = false -> 0 <= n -> lacks c (str n) = true.
Proof.
  intros Hc Hn. destruct (str_nonneg n Hn) as (_ & Hall & _).
  now apply digits_lack.
Qed.

Lemma raw_tag_body (a b c d : Z) (strand read : string) :
  raw_tag barcode a b c d strand read
  = (tag_body barcode a b c d ++ "_" ++ strand ++ "_" ++ read)%string.
Proof.
  unfold raw_tag, tag_body, join. cbn [String.concat].
  rewrite !append_assoc. cbn [append]. reflexivity.
Qed.

Lemma tag_body_lacks_R (a b c d : Z) :
  0 <= a -> 0 <= b -> 0 <= c -> 0 <= d ->
  lacks "R" (tag_body barcode a b c d) = true.
Proof.
  intros. unfold tag_body, join. cbn [String.concat].
  rewrite !lacks_append, barcode_reads, !str_lacks by (reflexivity || assumption).
  reflexivity.
Qed.

Lemma raw_tag_fields (a b c d : Z) (strand read : string) :
  0 <= a -> 0 <= b -> 0 <= c -> 0 <= d ->
  lacks "_" strand = true -> lacks "_" read = true ->
  split "_" (raw_tag barcode a b c d strand read)
  = [barcode; str a; str b; str c; str d; strand; read].
Proof.
  intros Ha Hb Hc Hd Hs Hr. unfold raw_tag, join. cbn [String.concat].
  cbn [append].
  rewrite !split_append by (assumption || (apply str_lacks; [reflexivity | assumption])).
  now rewrite split_lacks.
Qed.

Lemma str_eqb (a b : Z) :
  0 <= a -> 0 <= b -> String.eqb (str a) (str b) = (a =? b).
Proof.
  intros Ha Hb. destruct (Z.eqb_spec a b) as [->|Hn].
  - apply String.eqb_refl.
  - apply String.eqb_neq. intro E. now apply Hn, str_injective.
Qed.

Lemma contains_R1_raw_tag (a b c d : Z) (strand : string) (r1 : bool) :
  0 <= a -> 0 <= b -> 0 <= c -> 0 <= d ->
  strand = "fwd" \/ strand = "rev" ->
  contains "R1" (raw_tag barcode a b c d strand (if r1 then "R1" else "R2"))
  = r1.
Proof.
  intros Ha Hb Hc Hd Hs. rewrite raw_tag_body.
  rewrite contains_R1_skip by now apply tag_body_lacks_R.
  destruct Hs as [-> | ->]; destruct r1; reflexivity.
Qed.

(** The strand marker and the order of the coordinates, for the raw tag of
    a mapped read. *)
Lemma strand_tag_raw (c1 p1 c2 p2 : Z) (strand : string) (r1 : bool) (flag : Z) :
  0 <= c1 -> 0 <= p1 -> 0 <= c2 -> 0 <= p2 ->
  strand = "fwd" \/ strand = "rev" ->
  strand_tag (raw_tag barcode c1 p1 c2 p2 strand (if r1 then "R1" else "R2")) flag
  = Ok (strand_tag_of barcode c1 p1 c2 p2 r1 flag).
Proof.
  intros H1 H2 H3 H4 Hs. unfold strand_tag.
  rewrite (contains_R1_raw_tag c1 p1 c2 p2 strand r1) by assumption.
  rewrite raw_tag_fields
    by (try assumption; destruct Hs as [-> | ->]; destruct r1; reflexivity).
  change (getitem [barcode; str c1; str p1; str c2; str p2; strand;
                   if r1 then "R1" else "R2"] 1) with (Ok (str c1)).
  change (getitem [barcode; str c1; str p1; str c2; str p2; strand;
                   if r1 then "R1" else "R2"] 3) with (Ok (str c2)).
  change (getitem [barcode; str c1; str p1; str c2; str p2; strand;
                   if r1 then "R1" else "R2"] 2) with (Ok (str p1)).
  change (getitem [barcode; str c1; str p1; str c2; str p2; strand;
                   if r1 then "R1" else "R2"] 4) with (Ok (str p2)).
  cbn [bind]. unfold out_of_order.
  rewrite !int_str by assumption. cbn [bind].
  rewrite !str_eqb by assumption.
  unfold strand_tag_of.
  assert (Hdrop : forall a b c d,
             drop_last 7 (raw_tag barcode a b c d strand
                                  (if r1 then "R1" else "R2"))
             = tag_body barcode a b c d).
  { intros a b c d. rewrite raw_tag_body.
    replace 7%nat
      with (String.length ("_" ++ strand ++ "_" ++ (if r1 then "R1" else "R2")))
      by (destruct Hs as [-> | ->]; destruct r1; reflexivity).
    apply drop_last_append. }
  destruct ((p1 >? p2) && (c1 =? c2)) eqn:E1; cbn [bind orb].
  - cbn [setitem]. fold (raw_tag barcode c2 p2 c1 p1 strand
                                 (if r1 then "R1" else "R2")).
    rewrite Hdrop. destruct r1; reflexivity.
  - destruct (negb (c1 =? p2)) eqn:E2; cbn [bind andb].
    + destruct (c1 >? c2) eqn:E3.
      * cbn [setitem]. fold (raw_tag barcode c2 p2 c1 p1 strand
                                     (if r1 then "R1" else "R2")).
        rewrite Hdrop. destruct r1; reflexivity.
      * rewrite Hdrop.
        destruct ((c1 =? c2) && (p1 =? p2)); [|destruct r1; reflexivity].
        destruct (mem flag [99; 147]); [reflexivity|].
        destruct (mem flag [83; 163]); reflexivity.
    + rewrite Hdrop.
      destruct ((c1 =? c2) && (p1 =? p2)); [|destruct r1; reflexivity].
      destruct (mem flag [99; 147]); [reflexivity|].
      destruct (mem flag [83; 163]); reflexivity.
Qed.

End RawTags.

Section Mates.

Lemma dict_get_in (d : list (Z * Z)) (k v : Z) :
  dict_get d k = Ok v -> In (k, v) d.
Proof.
  induction d as [|[k' v'] d IH]; cbn [dict_get]; [discriminate|].
  destruct (Z.eqb_spec k k') as [->|Hn].
  - intro H. injection H as <-. now left.
  - intro H. right. now apply IH.
Qed.

(** The pairing table is symmetric, pairs two different flags, and keeps a
    pair within the proper-pair flags of one strand. *)
Lemma flag_pairings_symmetric (f1 f2 : Z) :
  dict_get flag_pairings f1 = Ok f2 ->
  dict_get flag_pairings f2 = Ok f1
  /\ f1 <> f2
  /\ mem f1 [99; 147] = mem f2 [99; 147]
  /\ mem f1 [83; 163] = mem f2 [83; 163].
Proof.
  intro H. apply dict_get_in in H. unfold flag_pairings in H. cbn [In] in H.
  repeat (destruct H as [H | H];
          [injection H as <- <-; repeat split; (reflexivity || discriminate)|]).
  destruct H.
Qed.

Lemma strand_tag_of_mates (barcode : string) (c1 p1 c2 p2 f1 f2 : Z) :
  (c1 < c2 -> c2 <> p1) -> (c2 < c1 -> c1 <> p2) ->
  mem f1 [99; 147] = mem f2 [99; 147] ->
  mem f1 [83; 163] = mem f2 [83; 163] ->
  strand_tag_of barcode c1 p1 c2 p2 true f1
  = strand_tag_of barcode c2 p2 c1 p1 false f2.
Proof.
  intros Hlo Hhi Hpos Hneg. unfold strand_tag_of. rewrite !Z.gtb_ltb.
  rewrite Hpos, Hneg.
  destruct (Z.lt_total c1 c2) as [Hc | [Hc | Hc]].
  - (* the read lies on the lower reference *)
    replace (c2 <? c1) with false by (symmetry; apply Z.ltb_ge; lia).
    replace (c1 <? c2) with true by (symmetry; apply Z.ltb_lt; lia).
    replace (c1 =? c2) with false by (symmetry; apply Z.eqb_neq; lia).
    replace (c2 =? c1) with false by (symmetry; apply Z.eqb_neq; lia).
    replace (c2 =? p1) with false by (symmetry; apply Z.eqb_neq; auto).
    rewrite !andb_false_r. cbn. reflexivity.
  - (* both mates on one reference *)
    subst c2. rewrite Z.ltb_irrefl, Z.eqb_refl, !andb_false_r, !andb_true_r.
    rewrite !orb_false_r. cbn [andb].
    destruct (Z.lt_total p1 p2) as [Hp | [Hp | Hp]].
    + replace (p2 <? p1) with false by (symmetry; apply Z.ltb_ge; lia).
      replace (p1 <? p2) with true by (symmetry; apply Z.ltb_lt; lia).
      replace (p1 =? p2) with false by (symmetry; apply Z.eqb_neq; lia).
      reflexivity.
    + subst p2. rewrite Z.ltb_irrefl, Z.eqb_refl. reflexivity.
    + replace (p2 <? p1) with true by (symmetry; apply Z.ltb_lt; lia).
      replace (p1 <? p2) with false by (symmetry; apply Z.ltb_ge; lia).
      replace (p2 =? p1) with false by (symmetry; apply Z.eqb_neq; lia).
      reflexivity.
  - (* the read lies on the higher reference *)
    replace (c2 <? c1) with true by (symmetry; apply Z.ltb_lt; lia).
    replace (c1 <? c2) with false by (symmetry; apply Z.ltb_ge; lia).
    replace (c1 =? c2) with false by (symmetry; apply Z.eqb_neq; lia).
    replace (c2 =? c1) with false by (symmetry; apply Z.eqb_neq; lia).
    replace (c1 =? p2) with false by (symmetry; apply Z.eqb_neq; auto).
    rewrite !andb_false_r. cbn. reflexivity.
Qed.

(** The two mates of a fragment get one key: read 1 at [(c1, p1)] and
    read 2 at [(c2, p2)], each naming the other as its mate, with paired
    flags.  Two kinds of pairs are left out: those that line 411 mistakes,
    with the mates on two references and the higher reference equal to
    the coordinate of the mate on the lower one; and the mates that start
    at one position with flags outside 99, 147, 83 and 163, for which
    [sscs_qname] raises. *)
Lemma sscs_qname_mates_agree (barcode : string) (c1 p1 c2 p2 : Z)
    (strand1 strand2 : string) (f1 f2 : Z) :
  lacks "_" barcode = true -> lacks "R" barcode = true ->
  0 <= c1 -> 0 <= p1 -> 0 <= c2 -> 0 <= p2 ->
  strand1 = "fwd" \/ strand1 = "rev" ->
  strand2 = "fwd" \/ strand2 = "rev" ->
  dict_get flag_pairings f1 = Ok f2 ->
  (c1 < c2 -> c2 <> p1) -> (c2 < c1 -> c1 <> p2) ->
  (c1 = c2 -> p1 = p2 -> mem f1 [99; 147; 83; 163] = true) ->
  exists key,
    sscs_qname (raw_tag barcode c1 p1 c2 p2 strand1 "R1") f1 = Ok key
    /\ sscs_qname (raw_tag barcode c2 p2 c1 p1 strand2 "R2") f2 = Ok key.
Proof.
  intros Hb1 Hb2 H1 H2 H3 H4 Hs1 Hs2 Hf Hlo Hhi Hsame.
  destruct (flag_pairings_symmetric f1 f2 Hf) as (Hf' & Hne & Hpos & Hneg).
  unfold sscs_qname.
  rewrite (strand_tag_raw barcode Hb1 Hb2 c1 p1 c2 p2 strand1 true f1)
    by assumption.
  rewrite (strand_tag_raw barcode Hb1 Hb2 c2 p2 c1 p1 strand2 false f2)
    by assumption.
  cbn [bind]. rewrite Hf, Hf'. cbn [bind].
  rewrite (strand_tag_of_mates barcode c1 p1 c2 p2 f1 f2) by assumption.
  assert (Htag : exists t, strand_tag_of barcode c2 p2 c1 p1 false f2 = Some t).
  { unfold strand_tag_of.
    destruct ((p2 >? p1) && (c2 =? c1) || negb (c2 =? p1) && (c2 >? c1));
      [now eexists|].
    destruct ((c2 =? c1) && (p2 =? p1)) eqn:E; [|now eexists].
    apply andb_true_iff in E as [Ec Ep].
    apply Z.eqb_eq in Ec, Ep. subst c2 p2.
    specialize (Hsame eq_refl eq_refl).
    assert (Hflag : mem f1 [99; 147] || mem f1 [83; 163] = true).
    { unfold mem in *. cbn [existsb] in *.
      destruct (f1 =? 99), (f1 =? 147), (f1 =? 83), (f1 =? 163);
        (reflexivity || discriminate Hsame). }
    rewrite <- Hpos, <- Hneg.
    destruct (mem f1 [99; 147]); [now eexists|].
    destruct (mem f1 [83; 163]); [now eexists | discriminate Hflag]. }
  destruct Htag as [t ->]. cbn [bind].
  destruct (Z.ltb_spec f1 f2), (Z.ltb_spec f2 f1);
    try lia; eexists; split; reflexivity.
Qed.

End Mates.


(** * Further properties *)

(** ** [sscs_qname]: keys and errors *)

Lemma sscs_qname_mates_agree_witness :
  exists key,
    sscs_qname (raw_tag "CCCC" 12 25398064 12 25398156 "fwd" "R1") 99
    = Ok key
    /\ sscs_qname (raw_tag "CCCC" 12 25398156 12 25398064 "rev" "R2") 147
       = Ok key.
Proof.
  apply (sscs_qname_mates_agree "CCCC" 12 25398064 12 25398156 "fwd" "rev"
           99 147);
    try reflexivity; try lia; try (now left); try (now right).
Defined.

Section KeyErrors.

Variable barcode : string.
Hypothesis barcode_fields : lacks "_" barcode = true.
Hypothesis barcode_reads : lacks "R" barcode = true.

(** A flag that the pairing table does not hold is a [KeyError], and a
    read that starts where its mate starts, with a flag outside 99, 147,
    83 and 163, leaves [new_tag] unassigned: [UnboundLocalError]. *)
Theorem sscs_qname_flag_errors (c1 p1 c2 p2 : Z) (strand : string)
    (r1 : bool) (flag : Z) :
  0 <= c1 -> 0 <= p1 -> 0 <= c2 -> 0 <= p2 ->
  strand = "fwd" \/ strand = "rev" ->
  let tag := raw_tag barcode c1 p1 c2 p2 strand (if r1 then "R1" else "R2") in
  (dict_get flag_pairings flag = Raise KeyError ->
   sscs_qname tag flag = Raise KeyError)
  /\ (c1 = c2 -> p1 = p2 ->
      mem flag [99; 147; 83; 163] = false ->
      forall mate, dict_get flag_pairings flag = Ok mate ->
                   sscs_qname tag flag = Raise UnboundLocalError).
Proof.
  intros H1 H2 H3 H4 Hs tag. unfold tag, sscs_qname.
  rewrite (strand_tag_raw barcode barcode_fields barcode_reads) by assumption.
  cbn [bind]. split.
  - intros ->. reflexivity.
  - intros -> -> Hflag mate ->. cbn [bind].
    unfold strand_tag_of.
    rewrite Z.gtb_ltb, Z.ltb_irrefl, !Z.eqb_refl. cbn [andb orb].
    replace (negb (c2 =? p2) && (c2 >? c2)) with false
      by (rewrite Z.gtb_ltb, Z.ltb_irrefl; now rewrite andb_false_r).
    unfold mem in *. cbn [existsb] in *.
    apply orb_false_iff in Hflag as [E1 Hflag].
    apply orb_false_iff in Hflag as [E2 Hflag].
    apply orb_false_iff in Hflag as [E3 Hflag].
    apply orb_false_iff in Hflag as [E4 _].
    rewrite E1, E2, E3, E4. reflexivity.
Qed.

End KeyErrors.

Lemma sscs_qname_flag_errors_witness :
  sscs_qname (raw_tag "ACGT" 5 100 5 100 "fwd" "R1") 1 = Raise KeyError
  /\ sscs_qname (raw_tag "ACGT" 5 100 5 100 "fwd" "R1") 65
     = Raise UnboundLocalError.
Proof.
  destruct (sscs_qname_flag_errors "ACGT" eq_refl eq_refl 5 100 5 100 "fwd"
                                   true 1) as [Hkey _];
    try lia; [now left|].
  destruct (sscs_qname_flag_errors "ACGT" eq_refl eq_refl 5 100 5 100 "fwd"
                                   true 65) as [_ Hunbound];
    try lia; [now left|].
  split.
  - apply Hkey. reflexivity.
  - apply (Hunbound eq_refl eq_refl eq_refl 129). reflexivity.
Defined.

(** A tag with fewer than five fields has no [tag.split("_")[4]]:
    [IndexError], whatever the flag. *)
Theorem sscs_qname_short_tag (tag : string) (flag : Z) :
  (List.length (split "_" tag) < 5)%nat ->
  sscs_qname tag flag = Raise IndexError.
Proof.
  intro H. unfold sscs_qname, strand_tag.
  set (fields := split "_" tag) in *.
  destruct (getitem fields 1) as [a|e] eqn:E1; cbn [bind].
  2:{ unfold getitem in E1. destruct (_ && _); [|now injection E1 as <-].
      destruct (nth_error _ _); [discriminate | now injection E1 as <-]. }
  destruct (getitem fields 3) as [b|e] eqn:E3; cbn [bind].
  2:{ unfold getitem in E3. destruct (_ && _); [|now injection E3 as <-].
      destruct (nth_error _ _); [discriminate | now injection E3 as <-]. }
  destruct (getitem fields 2) as [c|e] eqn:E2; cbn [bind].
  2:{ unfold getitem in E2. destruct (_ && _); [|now injection E2 as <-].
      destruct (nth_error _ _); [discriminate | now injection E2 as <-]. }
  rewrite getitem_beyond by lia. reflexivity.
Qed.

Lemma sscs_qname_short_tag_witness :
  sscs_qname "CCCC_12_25398064_12" 99 = Raise IndexError.
Proof.
  apply (sscs_qname_short_tag "CCCC_12_25398064_12" 99). vm_compute. lia.
Defined.

Section KeyOrder.

Variable barcode : string.
Hypothesis barcode_fields : lacks "_" barcode = true.
Hypothesis barcode_reads : lacks "R" barcode = true.

(** The key of a mapped read names the two ends of the fragment in
    ascending order, reference first and coordinate second, then the strand
    marker, then the flag and its mate, smaller first.  The reads left out
    are those on the higher reference whose reference equals the coordinate
    of the mate. *)
Theorem sscs_qname_key_order (c1 p1 c2 p2 : Z) (strand : string) (r1 : bool)
    (flag : Z) (key : string) :
  0 <= c1 -> 0 <= p1 -> 0 <= c2 -> 0 <= p2 ->
  strand = "fwd" \/ strand = "rev" ->
  (c2 < c1 -> c1 <> p2) ->
  sscs_qname (raw_tag barcode c1 p1 c2 p2 strand (if r1 then "R1" else "R2"))
             flag = Ok key ->
  exists a b c d marker mate,
    key = format3 (tag_body barcode a b c d ++ marker)
                  (Z.min flag mate) (Z.max flag mate)
    /\ dict_get flag_pairings flag = Ok mate
    /\ (marker = "_pos" \/ marker = "_neg")
    /\ ((a, b, c, d) = (c1, p1, c2, p2) \/ (a, b, c, d) = (c2, p2, c1, p1))
    /\ (a < c \/ (a = c /\ b <= d)).
Proof.
  intros H1 H2 H3 H4 Hs Hhi. unfold sscs_qname.
  rewrite (strand_tag_raw barcode barcode_fields barcode_reads) by assumption.
  cbn [bind].
  destruct (dict_get flag_pairings flag) as [mate|] eqn:Em; cbn [bind];
    [|discriminate].
  assert (Hfmt :
            forall t, (if flag <? mate then Ok (format3 t flag mate)
                       else Ok (format3 t mate flag))
                      = Ok (format3 t (Z.min flag mate) (Z.max flag mate))).
  { intro t. destruct (Z.ltb_spec flag mate).
    - now rewrite Z.min_l, Z.max_r by lia.
    - now rewrite Z.min_r, Z.max_l by lia. }
  unfold strand_tag_of. rewrite !Z.gtb_ltb.
  destruct ((p2 <? p1) && (c1 =? c2) || negb (c1 =? p2) && (c2 <? c1)) eqn:Eswap.
  - cbn [bind]. rewrite Hfmt. intro H. injection H as <-.
    exists c2, p2, c1, p1, (if r1 then "_neg" else "_pos"), mate.
    repeat split.
    + destruct r1; [now right | now left].
    + now right.
    + apply orb_true_iff in Eswap as [E | E];
        apply andb_true_iff in E as [Ea Eb].
      * apply Z.ltb_lt in Ea. apply Z.eqb_eq in Eb. right. lia.
      * apply Z.ltb_lt in Eb. now left.
  - apply orb_false_iff in Eswap as [Ea Eb].
    assert (Hord : c1 < c2 \/ (c1 = c2 /\ p1 <= p2)).
    { destruct (Z.lt_total c1 c2) as [Hc | [Hc | Hc]].
      - now left.
      - right. split; [assumption|]. subst c2.
        rewrite Z.eqb_refl, andb_true_r in Ea. now apply Z.ltb_ge in Ea.
      - exfalso. apply andb_false_iff in Eb as [Eb | Eb].
        + apply negb_false_iff, Z.eqb_eq in Eb. now apply (Hhi Hc).
        + apply Z.ltb_ge in Eb. lia. }
    destruct ((c1 =? c2) && (p1 =? p2)).
    + destruct (mem flag [99; 147]).
      * cbn [bind]. rewrite Hfmt. intro H. injection H as <-.
        exists c1, p1, c2, p2, "_pos", mate. repeat split; auto.
      * destruct (mem flag [83; 163]); cbn [bind]; [|discriminate].
        rewrite Hfmt. intro H. injection H as <-.
        exists c1, p1, c2, p2, "_neg", mate. repeat split; auto.
    + cbn [bind]. rewrite Hfmt. intro H. injection H as <-.
      exists c1, p1, c2, p2, (if r1 then "_pos" else "_neg"), mate.
      repeat split; auto. destruct r1; [now left | now right].
Qed.

End KeyOrder.

Lemma sscs_qname_key_order_witness :
  exists a b c d marker mate,
    "CCCC_12_25398064_12_25398156_pos_99_147"
    = format3 (tag_body "CCCC" a b c d ++ marker)
              (Z.min 147 mate) (Z.max 147 mate)
    /\ dict_get flag_pairings 147 = Ok mate
    /\ (marker = "_pos" \/ marker = "_neg")
    /\ ((a, b, c, d) = (12, 25398156, 12, 25398064)
        \/ (a, b, c, d) = (12, 25398064, 12, 25398156))
    /\ (a < c \/ (a = c /\ b <= d)).
Proof.
  apply (sscs_qname_key_order "CCCC" eq_refl eq_refl
           12 25398156 12 25398064 "rev" false 147
           "CCCC_12_25398064_12_25398156_pos_99_147");
    try lia; [now right | vm_compute; reflexivity].
Defined.

(** ** [reverse_seq]: errors and concatenation *)

Lemma reverse_seq_loop_acc (s : string) :
  forall acc,
    reverse_seq_loop s acc
    = (r <- reverse_seq_loop s EmptyString ;; Ok (r ++ acc)%string).
Proof.
  induction s as [|c s IH]; intro acc; cbn [reverse_seq_loop].
  - reflexivity.
  - destruct (complement c) as [d|e]; cbn [bind]; [|reflexivity].
    rewrite (IH (String d acc)), (IH (String d EmptyString)).
    destruct (reverse_seq_loop s EmptyString) as [r|e]; cbn [bind];
      [|reflexivity].
    now rewrite append_assoc.
Qed.

Lemma reverse_seq_loop_append (a b : string) :
  forall acc,
    reverse_seq_loop (a ++ b) acc
    = (r <- reverse_seq_loop a acc ;; reverse_seq_loop b r).
Proof.
  induction a as [|c a IH]; intro acc; cbn [append reverse_seq_loop].
  - reflexivity.
  - destruct (complement c) as [d|e]; cbn [bind]; [apply IH | reflexivity].
Qed.

(** The reverse complement of two sequences joined is the reverse
    complement of the second followed by that of the first. *)
Theorem reverse_seq_append (a b ra rb : string) :
  reverse_seq a = Ok ra -> reverse_seq b = Ok rb ->
  reverse_seq (a ++ b) = Ok (rb ++ ra)%string.
Proof.
  unfold reverse_seq. intros Ha Hb.
  rewrite reverse_seq_loop_append, Ha. cbn [bind].
  rewrite reverse_seq_loop_acc, Hb. reflexivity.
Qed.

Lemma reverse_seq_append_witness :
  reverse_seq ("TCAG" ++ "CATN") = Ok ("NATG" ++ "CTGA")%string.
Proof.
  apply (reverse_seq_append "TCAG" "CATN" "CTGA" "NATG"); reflexivity.
Defined.

Lemma complement_returns (c : ascii) :
  (exists d, complement c = Ok d /\ in_alphabet c = true)
  \/ (complement c = Raise KeyError /\ in_alphabet c = false).
Proof.
  unfold complement, in_alphabet, nuc_lst. cbn [existsb].
  destruct (Ascii.eqb c "A"); [left; now eexists|].
  destruct (Ascii.eqb c "C"); [left; now eexists|].
  destruct (Ascii.eqb c "G"); [left; now eexists|].
  destruct (Ascii.eqb c "T"); [left; now eexists|].
  destruct (Ascii.eqb c "N"); [left; now eexists|].
  now right.
Qed.

Lemma reverse_seq_loop_returns (s : string) :
  forall acc,
    returns (reverse_seq_loop s acc) = over_alphabet s
    /\ forall e, reverse_seq_loop s acc = Raise e -> e = KeyError.
Proof.
  induction s as [|c s IH]; intro acc; cbn [reverse_seq_loop over_alphabet].
  - split; [reflexivity | discriminate].
  - destruct (complement_returns c) as [(d & -> & ->) | [-> ->]]; cbn [bind andb].
    + apply IH.
    + split; [reflexivity|]. intros e H. now injection H as <-.
Qed.

(** [reverse_seq] returns exactly on the sequences over A, C, G, T, N; on
    any other sequence it raises [KeyError]. *)
Theorem reverse_seq_raises (s : string) :
  returns (reverse_seq s) = over_alphabet s
  /\ forall e, reverse_seq s = Raise e -> e = KeyError.
Proof. apply reverse_seq_loop_returns. Qed.

(** ** [consensus_maker]: families without votes, clipped positions *)

Lemma string_repeat_snoc (c : ascii) (n : nat) :
  (String c (string_repeat c n)
   = string_repeat c n ++ String c EmptyString)%string.
Proof. induction n as [|n IH]; cbn; [|rewrite <- IH]; reflexivity. Qed.

Lemma position_loop_empty (fp : FloatSource) (rng : RandomSource)
    (readLength : Z) (n : nat) :
  forall (a : nat) (read : string) (quals : list Z),
    position_loop fp rng readLength [] (seq a n) (read, quals)
    = Ok ((read ++ string_repeat "N" n)%string, quals ++ repeat 0 n).
Proof.
  induction n as [|n IH]; intros a read quals; cbn [seq position_loop].
  - now rewrite append_nil_r, app_nil_r.
  - change (tally readLength [] (Z.of_nat a)) with (Ok [0; 0; 0; 0; 0]).
    cbn [bind]. rewrite emit_appends, emission_no_vote by reflexivity.
    cbn [fst snd]. rewrite IH, append_assoc, <- app_assoc. reflexivity.
Qed.

(** A family without reads gives N at every position, with quality 0. *)
Theorem consensus_maker_empty_family (readLength : nat) (cutoff : Q)
    (fp : FloatSource) (rng : RandomSource) :
  consensus_maker [] (Z.of_nat readLength) cutoff fp rng
  = Ok (string_repeat "N" readLength, repeat 0 readLength).
Proof.
  unfold consensus_maker. cbn [mismatch_pos_all bind combine].
  rewrite Nat2Z.id. apply position_loop_empty.
Qed.

Lemma count_vector_five (bound : Z) (score : list Z) :
  count_vector bound score ->
  exists a b c d e,
    score = [a; b; c; d; e]
    /\ 0 <= a /\ 0 <= b /\ 0 <= c /\ 0 <= d /\ 0 <= e
    /\ a + b + c + d + e <= bound.
Proof.
  intros (Hlen & Hpos & Hsum).
  destruct score as [|a [|b [|c [|d [|e [|]]]]]]; try discriminate Hlen.
  exists a, b, c, d, e. split; [reflexivity|].
  repeat match goal with
         | H : Forall _ (_ :: _) |- _ => inversion H; subst; clear H
         end.
  cbn in Hsum. lia.
Qed.

(** All votes on one symbol: that symbol, with quality 62. *)
Lemma emission_one_symbol (fp : FloatSource) (rng : RandomSource) (n : nat)
    (score : list Z)
    (k : nat) :
  count_vector (2 ^ 63 - 1) score -> (k < 5)%nat ->
  0 < nth k score 0 -> sum score = nth k score 0 ->
  emission fp rng n score = (String (nth k nuc_lst "N"%char) EmptyString, [62]).
Proof.
  intros Hc Hk Hpos Hall.
  destruct (emission_votes fp rng n score Hc) as (k' & Hk' & Hmax & ->); [lia|].
  specialize (Hmax k Hk).
  destruct (count_vector_five _ _ Hc) as (a & b & c & d & e & -> & Hnn).
  assert (k' = k).
  { destruct k as [|[|[|[|[|k]]]]]; try lia;
      destruct k' as [|[|[|[|[|k']]]]]; try lia; cbn in *; lia. }
  subst k'. rewrite Hall, Z.sub_diag. reflexivity.
Qed.

Section Clipped.

Variable readLength : Z.

Lemma vote_loop_outside (reads : list (AlignedRead * list Z)) :
  forall a b c d e fail i,
    (forall rm, In rm reads -> outside_bounds readLength i (fst rm)) ->
    vote_loop readLength reads (mkVote [a; b; c; d; e] fail i)
    = Ok (mkVote [a; b; c; d; e + Z.of_nat (List.length reads)] fail i).
Proof.
  induction reads as [|[read ms] reads IH]; intros a b c d e fail i Hout.
  - cbn [vote_loop List.length]. now rewrite Z.add_0_r.
  - cbn [vote_loop]. unfold vote_step. cbn [pos position_score phred_fail].
    destruct (Hout (read, ms) (or_introl eq_refl)) as (s & en & Hq & Hi).
    cbn [fst] in Hq. rewrite Hq.
    cbn [bind fst snd].
    replace ((i <? s) || (i >=? en)) with true.
    2:{ symmetry. apply orb_true_iff. rewrite Z.geb_leb.
        destruct Hi; [left; apply Z.ltb_lt | right; apply Z.leb_le]; lia. }
    cbn [bind incr_at].
    rewrite IH by (intros rm Hrm; apply Hout; now right).
    replace (e + 1 + Z.of_nat (List.length reads))
      with (e + Z.of_nat (List.length ((read, ms) :: reads)))
      by (cbn [List.length]; lia).
    reflexivity.
Qed.

End Clipped.

(** A position that lies outside the query bounds of every read of a
    family, as in a region that all reads have clipped, is an N of quality
    62. *)
Theorem consensus_maker_clipped_position (readList : list AlignedRead)
    (readLength : nat) (cutoff : Q) (fp : FloatSource) (rng : RandomSource)
      (bases : string)
    (quals : list Z) (i : nat) :
  Z.of_nat (List.length readList) < 2 ^ 63 ->
  readList <> [] ->
  consensus_maker readList (Z.of_nat readLength) cutoff fp rng
  = Ok (bases, quals) ->
  (i < readLength)%nat ->
  (forall read, In read readList ->
                outside_bounds (Z.of_nat readLength) (Z.of_nat i) read) ->
  String.get i bases = Some "N"%char /\ nth_error quals i = Some 62.
Proof.
  intros Hsize Hne Hcm Hi Hout.
  destruct (consensus_maker_positions fp rng cutoff _ _ _ _ Hsize Hcm)
    as (mss & Hms & _ & _ & _ & Hat).
  destruct (Hat i Hi) as (score & c & q & Ht & He & Hc & Hq).
  pose proof (Forall2_length (mismatch_pos_all_spec _ _ Hms)) as Hlen.
  unfold tally in Ht.
  rewrite (vote_loop_outside (Z.of_nat readLength)) in Ht.
  2:{ intros [read ms] Hin. apply in_combine_l in Hin. now apply Hout. }
  cbn [bind position_score] in Ht. injection Ht as <-.
  rewrite length_combine, <- Hlen, Nat.min_id in He.
  assert (Hn : 0 < Z.of_nat (List.length readList))
    by (destruct readList; [congruence | cbn [List.length]; lia]).
  rewrite (emission_one_symbol fp rng i _ 4) in He.
  - injection He as <- <-. now split.
  - repeat split; [repeat constructor; lia | cbn; lia].
  - lia.
  - cbn. lia.
  - cbn. lia.
Qed.

Lemma consensus_maker_clipped_position_witness :
  String.get 0 "NACG" = Some "N"%char
  /\ nth_error [62; 62; 62; 62] 0 = Some 62.
Proof.
  apply (consensus_maker_clipped_position [clipped_read] 4 (7 # 10)
           exact_rounding always_lowest "NACG" [62; 62; 62; 62] 0).
  - reflexivity.
  - discriminate.
  - vm_compute. reflexivity.
  - lia.
  - intros read [<- | []]. exists 1, 4. split; [reflexivity | left; lia].
Defined.

(** ** [consensus_maker]: what the qualities tell *)

Lemma winner_share (score : list Z) (k : nat) (bound : Z) :
  count_vector bound score -> (k < 5)%nat ->
  (forall j, (j < 5)%nat -> nth j score 0 <= nth k score 0) ->
  sum score <= 5 * nth k score 0.
Proof.
  intros Hc Hk Hmax.
  destruct (count_vector_five _ _ Hc) as (a & b & c & d & e & -> & Hnn).
  set (m := nth k [a; b; c; d; e] 0) in *.
  pose proof (Hmax 0%nat ltac:(lia)) as M0.
  pose proof (Hmax 1%nat ltac:(lia)) as M1.
  pose proof (Hmax 2%nat ltac:(lia)) as M2.
  pose proof (Hmax 3%nat ltac:(lia)) as M3.
  pose proof (Hmax 4%nat ltac:(lia)) as M4.
  cbn [nth] in M0, M1, M2, M3, M4. unfold sum. cbn [fold_right]. lia.
Qed.

(** When the winner has at least a fifth of the votes the quality is at
    least 1. *)
Lemma quality_of_positive (fp : FloatSource) (e t : Z) :
  0 <= e -> 0 < t -> 5 * e <= 4 * t -> 1 <= quality_of fp e t.
Proof.
  intros He Ht Hshare. unfold quality_of.
  destruct (e =? 0) eqn:E; [lia|]. apply Z.eqb_neq in E.
  assert (H5 : (5 * e) ^ 20 <= (4 * t) ^ 20) by (apply Z.pow_le_mono_l; lia).
  rewrite !Z.pow_mul_l in H5.
  change (5 ^ 20) with 95367431640625 in H5.
  change (4 ^ 20) with 1099511627776 in H5.
  assert (He20 : 0 < e ^ 20) by (apply Z.pow_pos_nonneg; lia).
  assert (Hexact : 1 <= phred_up e t).
  { destruct (phred_up_spec e t) as (Hq & Hup & _); [lia|].
    destruct (Z.eq_dec (phred_up e t) 0) as [H0|]; [|lia].
    rewrite H0 in Hup. change (10 ^ (2 * 0 + 1)) with 10 in Hup. lia. }
  destruct (phred_float_cases fp e t)
    as [-> | [(-> & Hn & _) | (-> & _)]]; [lia | lia | | lia].
  destruct (Z.eq_dec (phred_up e t) 1) as [E1|]; [exfalso|lia].
  rewrite E1 in Hn. unfold near_half in Hn.
  apply andb_true_iff in Hn as [Hn _]. apply Z.leb_le in Hn.
  change (10 ^ (2 * 1 - 1)) with 10 in Hn.
  change (10 ^ 9) with 1000000000 in Hn. lia.
Qed.

(** Quality 0 marks the positions without vote, and only those. *)
Theorem consensus_maker_quality_zero (readList : list AlignedRead)
    (readLength : nat) (cutoff : Q) (fp : FloatSource) (rng : RandomSource)
      (bases : string)
    (quals : list Z) (mss : list (list Z)) (i : nat) (score : list Z) :
  Z.of_nat (List.length readList) < 2 ^ 63 ->
  consensus_maker readList (Z.of_nat readLength) cutoff fp rng
  = Ok (bases, quals) ->
  mismatch_pos_all readList = Ok mss ->
  (i < readLength)%nat ->
  tally (Z.of_nat readLength) (combine readList mss) (Z.of_nat i) = Ok score ->
  (nth_error quals i = Some 0 <-> sum score = 0).
Proof.
  intros Hsize Hcm Hms Hi Ht.
  destruct (consensus_maker_at fp rng cutoff _ _ _ _ _ _ _ Hsize Hcm Hms Hi Ht)
    as (c & q & He & Hc & Hq).
  pose proof (tally_counts _ _ _ _ Ht) as Hcount.
  assert (Hcv : count_vector (2 ^ 63 - 1) score).
  { destruct Hcount as (H1 & H2 & H3). rewrite length_combine in H3.
    repeat split; try assumption. lia. }
  rewrite Hq. split.
  - intro H0. injection H0 as ->.
    destruct (Z.eq_dec (sum score) 0) as [|Hn]; [assumption|exfalso].
    pose proof (sum_nonneg score (proj1 (proj2 Hcv))).
    destruct (emission_votes fp rng i score Hcv) as
      (k & Hk & Hmax & Hem); [lia|].
    rewrite Hem in He. injection He as _ Hq0.
    pose proof (winner_share score k _ Hcv Hk Hmax).
    pose proof (nth_nonneg score k (proj1 (proj2 Hcv))).
    pose proof (nth_le_sum score k (proj1 (proj2 Hcv))).
    pose proof (quality_of_positive fp (sum score - nth k score 0) (sum score)
                                    ltac:(lia) ltac:(lia) ltac:(lia)).
    lia.
  - intro H0. rewrite (emission_no_vote fp rng i score H0) in He.
    now injection He as _ <-.
Qed.

Lemma consensus_maker_quality_zero_witness :
  nth_error [62; 0; 62] 1 = Some 0 <-> sum [0; 0; 0; 0; 0] = 0.
Proof.
  apply (consensus_maker_quality_zero [low_quality_read] 3 (7 # 10)
           exact_rounding always_lowest "ANG" [62; 0; 62] [[1]] 1 [0; 0; 0; 0; 0]).
  - reflexivity.
  - vm_compute. reflexivity.
  - vm_compute. reflexivity.
  - lia.
  - vm_compute. reflexivity.
Defined.

Lemma quality_of_cap (fp : FloatSource) (e t : Z) :
  0 <= e <= t -> 0 < t -> t <= 1778279 -> 0 <= quality_of fp e t <= 62.
Proof.
  intros He Ht Hcap. unfold quality_of.
  destruct (e =? 0) eqn:E; [lia|]. apply Z.eqb_neq in E.
  assert (H1 : t ^ 20 <= 1778279 ^ 20) by (apply Z.pow_le_mono_l; lia).
  assert (H3 : 1 <= e ^ 20) by (pose proof (Z.pow_pos_nonneg e 20); lia).
  assert (Hexact : 0 <= phred_up e t <= 62).
  { split; [apply (phred_up_spec e t); lia|].
    apply phred_up_le; [lia | lia |].
    assert (H2 : 1778279 ^ 20 < 10 ^ (2 * 62 + 1)) by (vm_compute; reflexivity).
    assert (H4 : 0 < 10 ^ (2 * 62 + 1)) by (vm_compute; reflexivity).
    nia. }
  destruct (phred_float_cases fp e t)
    as [-> | [(-> & _ & Hq1) | (-> & Hn)]]; [lia | lia | lia |].
  destruct (Z.eq_dec (phred_up e t) 62) as [E62|]; [exfalso|lia].
  rewrite E62 in Hn. unfold near_half in Hn.
  apply andb_true_iff in Hn as [_ Hn]. apply Z.leb_le in Hn.
  assert (H5 : 1778279 ^ 20 * (10 ^ 9 + 1) < 10 ^ (2 * 62 + 1) * 10 ^ 9)
    by (vm_compute; reflexivity).
  assert (H6 : 0 < 10 ^ (2 * 62 + 1) * 10 ^ 9) by (vm_compute; reflexivity).
  assert (H7 : 10 ^ (2 * 62 + 1) * 10 ^ 9 * 1
               <= 10 ^ (2 * 62 + 1) * 10 ^ 9 * e ^ 20)
    by (apply Z.mul_le_mono_nonneg_l; lia).
  assert (H8 : t ^ 20 * (10 ^ 9 + 1) <= 1778279 ^ 20 * (10 ^ 9 + 1))
    by (apply Z.mul_le_mono_nonneg_r; lia).
  lia.
Qed.

(** In a family of at most 1,778,279 reads no quality exceeds 62, the
    value given to a position without dissent.  One read more and a single
    dissenting vote gives 63. *)
Theorem consensus_maker_quality_cap :
  (forall (readList : list AlignedRead) (readLength : nat) (cutoff : Q)
          (fp : FloatSource) (rng : RandomSource) (bases : string)
            (quals : list Z),
      Z.of_nat (List.length readList) <= 1778279 ->
      consensus_maker readList (Z.of_nat readLength) cutoff fp rng
      = Ok (bases, quals) ->
      Forall (fun q => 0 <= q <= 62) quals)
  /\ (forall (fp : FloatSource) (rng : RandomSource) (n : nat),
         emission fp rng n [1778279; 1; 0; 0; 0] = ("A", [63])).
Proof.
  split.
  - intros readList readLength cutoff fp rng bases quals Hsize Hcm.
    assert (Hbig : Z.of_nat (List.length readList) < 2 ^ 63) by lia.
    destruct (consensus_maker_positions fp rng cutoff _ _ _ _ Hbig Hcm)
      as (mss & Hms & _ & Hlen & _ & Hat).
    apply Forall_forall. intros q Hin.
    apply In_nth_error in Hin as [i Hi].
    assert (Hlt : (i < readLength)%nat)
      by (rewrite <- Hlen; apply nth_error_Some; congruence).
    destruct (Hat i Hlt) as (score & c & q' & Ht & He & _ & Hq).
    rewrite Hi in Hq. injection Hq as <-.
    pose proof (tally_counts _ _ _ _ Ht) as (H1 & H2 & H3).
    rewrite length_combine in H3.
    destruct (Z.eq_dec (sum score) 0) as [H0|Hn].
    + rewrite (emission_no_vote fp rng i score H0) in He.
      injection He as _ <-. lia.
    + pose proof (sum_nonneg score H2).
      destruct (emission_votes fp rng i score) as (k & Hk & Hmax & Hem);
        [repeat split; try assumption; lia | lia |].
      rewrite Hem in He. injection He as _ <-.
      pose proof (nth_nonneg score k H2). pose proof (nth_le_sum score k H2).
      apply quality_of_cap; lia.
  - intros fp rng n.
    destruct (emission_votes fp rng n [1778279; 1; 0; 0; 0])
      as (k & Hk & Hmax & ->);
      [apply count_vector_small; lia | reflexivity |].
    specialize (Hmax 0%nat ltac:(lia)).
    destruct k as [|[|[|[|[|k]]]]]; cbn in Hmax; try lia.
    vm_compute. reflexivity.
Qed.

Lemma consensus_maker_quality_cap_witness :
  Forall (fun q => 0 <= q <= 62) [62; 3; 62].
Proof.
  apply (proj1 consensus_maker_quality_cap tie_family 3%nat (7 # 10)
               exact_rounding always_lowest "AAA" [62; 3; 62]).
  - vm_compute. discriminate.
  - vm_compute. reflexivity.
Defined.

(** ** [consensus_maker]: what the random draws can change *)

Lemma string_get_length (s : string) :
  forall i c, String.get i s = Some c -> (i < String.length s)%nat.
Proof.
  induction s as [|x s IH]; intros i c H; [discriminate H|].
  destruct i as [|i]; cbn [String.length]; [lia|].
  cbn [String.get] in H. apply IH in H. lia.
Qed.

(** Two sources of randomness give one quality, and two symbols that are
    tied when they differ. *)
Lemma emission_two_sources (fp : FloatSource) (rng1 rng2 : RandomSource)
    (n : nat)
    (score : list Z) (c1 c2 : ascii) (q1 q2 : Z) :
  count_vector (2 ^ 63 - 1) score ->
  emission fp rng1 n score = (String c1 EmptyString, [q1]) ->
  emission fp rng2 n score = (String c2 EmptyString, [q2]) ->
  q1 = q2
  /\ (c1 <> c2 ->
      exists k1 k2 : nat,
        k1 <> k2
        /\ c1 = nth k1 nuc_lst "N"%char /\ c2 = nth k2 nuc_lst "N"%char
        /\ nth k1 score 0 = nth k2 score 0
        /\ forall j, (j < 5)%nat -> nth j score 0 <= nth k1 score 0).
Proof.
  intros Hcv H1 H2.
  pose proof Hcv as (_ & Hpos & _).
  destruct (Z.eq_dec (sum score) 0) as [H0|Hn].
  - rewrite (emission_no_vote fp rng1 _ _ H0) in H1.
    rewrite (emission_no_vote fp rng2 _ _ H0) in H2.
    injection H1 as <- <-. injection H2 as <- <-. split; [reflexivity|].
    intro Hne. now contradict Hne.
  - pose proof (sum_nonneg score Hpos).
    destruct (emission_votes fp rng1 n score Hcv) as
      (k1 & Hk1 & Hmax1 & E1); [lia|].
    destruct (emission_votes fp rng2 n score Hcv) as
      (k2 & Hk2 & Hmax2 & E2); [lia|].
    rewrite E1 in H1. rewrite E2 in H2.
    injection H1 as <- <-. injection H2 as <- <-.
    pose proof (Hmax1 k2 Hk2). pose proof (Hmax2 k1 Hk1).
    assert (Heq : nth k1 score 0 = nth k2 score 0) by lia.
    split; [now rewrite Heq|].
    intro Hne. exists k1, k2. repeat split; try assumption.
    intros ->. now apply Hne.
Qed.

(** With another source of randomness [consensus_maker] still returns, the
    qualities are the same, and the bases differ only where two symbols are
    tied for the largest number of votes. *)
Theorem consensus_maker_randomness (readList : list AlignedRead)
    (readLength : nat) (cutoff : Q) (fp : FloatSource)
      (rng1 rng2 : RandomSource)
    (bases1 : string) (quals : list Z) :
  Z.of_nat (List.length readList) < 2 ^ 63 ->
  consensus_maker readList (Z.of_nat readLength) cutoff fp rng1
  = Ok (bases1, quals) ->
  exists bases2,
    consensus_maker readList (Z.of_nat readLength) cutoff fp rng2
    = Ok (bases2, quals)
    /\ forall i c1 c2,
         String.get i bases1 = Some c1 -> String.get i bases2 = Some c2 ->
         c1 <> c2 ->
         exists mss score (k1 k2 : nat),
           mismatch_pos_all readList = Ok mss
           /\ tally (Z.of_nat readLength) (combine readList mss) (Z.of_nat i)
              = Ok score
           /\ k1 <> k2
           /\ c1 = nth k1 nuc_lst "N"%char /\ c2 = nth k2 nuc_lst "N"%char
           /\ nth k1 score 0 = nth k2 score 0
           /\ forall j, (j < 5)%nat -> nth j score 0 <= nth k1 score 0.
Proof.
  intros Hsize Hcm1.
  destruct (consensus_maker_positions fp rng1 cutoff _ _ _ _ Hsize Hcm1)
    as (mss & Hms & Hlb1 & Hlq1 & _ & Hat1).
  assert (Hcm2 : exists bases2 quals2,
             consensus_maker readList (Z.of_nat readLength) cutoff fp rng2
             = Ok (bases2, quals2)).
  { unfold consensus_maker. rewrite Hms. cbn [bind].
    destruct (position_loop_total fp rng2 (Z.of_nat readLength)
                (combine readList mss) (seq 0 (Z.to_nat (Z.of_nat readLength))))
      with (out := (EmptyString, @nil Z)) as [[b q] E].
    - intros i Hin. apply in_seq in Hin.
      destruct (Hat1 i) as (score & _ & _ & Ht & _); [lia|]. now exists score.
    - now exists b, q. }
  destruct Hcm2 as (bases2 & quals2 & Hcm2).
  destruct (consensus_maker_positions fp rng2 cutoff _ _ _ _ Hsize Hcm2)
    as (mss' & Hms' & Hlb2 & Hlq2 & _ & Hat2).
  rewrite Hms in Hms'. injection Hms' as <-.
  assert (Hpair : forall i, (i < readLength)%nat ->
             exists score c1 c2 q1 q2,
               tally (Z.of_nat readLength) (combine readList mss) (Z.of_nat i)
               = Ok score
               /\ count_vector (2 ^ 63 - 1) score
               /\ emission fp rng1 i score = (String c1 EmptyString, [q1])
               /\ emission fp rng2 i score = (String c2 EmptyString, [q2])
               /\ String.get i bases1 = Some c1 /\ nth_error quals i = Some q1
               /\ String.get i bases2 = Some c2 /\ nth_error quals2 i = Some q2).
  { intros i Hi.
    destruct (Hat1 i Hi) as (score & c1 & q1 & Ht & He1 & Hc1 & Hq1).
    destruct (Hat2 i Hi) as (score' & c2 & q2 & Ht' & He2 & Hc2 & Hq2).
    rewrite Ht in Ht'. injection Ht' as <-.
    exists score, c1, c2, q1, q2. repeat split; try assumption;
      pose proof (tally_counts _ _ _ _ Ht) as (H1 & H2 & H3);
      try assumption. rewrite length_combine in H3. lia. }
  assert (Hq : quals2 = quals).
  { apply nth_error_ext. intro i.
    destruct (Nat.lt_ge_cases i readLength) as [Hi|Hi].
    - destruct (Hpair i Hi)
        as (score & c1 & c2 & q1 & q2 & _ & Hcv & E1 & E2 & _ & Hq1 & _ & Hq2).
      destruct (emission_two_sources _ _ _ _ _ _ _ _ _ Hcv E1 E2) as [-> _].
      now rewrite Hq1, Hq2.
    - rewrite (proj2 (nth_error_None quals2 i)) by lia.
      now rewrite (proj2 (nth_error_None quals i)) by lia. }
  subst quals2. exists bases2. split; [exact Hcm2|].
  intros i c1 c2 Hc1 Hc2 Hne.
  assert (Hi : (i < readLength)%nat)
    by (rewrite <- Hlb1; eapply string_get_length; eassumption).
  destruct (Hpair i Hi)
    as (score & c1' & c2' & q1 & q2 & Ht & Hcv & E1 & E2 & Hc1' & _ & Hc2' & _).
  rewrite Hc1 in Hc1'. injection Hc1' as <-.
  rewrite Hc2 in Hc2'. injection Hc2' as <-.
  destruct (emission_two_sources _ _ _ _ _ _ _ _ _ Hcv E1 E2) as [_ Htie].
  destruct (Htie Hne) as (k1 & k2 & H).
  exists mss, score, k1, k2. repeat split; try assumption; apply H.
Qed.

Lemma consensus_maker_randomness_witness :
  exists bases2,
    consensus_maker tie_family (Z.of_nat 3)
      (7 # 10) exact_rounding always_highest
    = Ok (bases2, [62; 3; 62])
    /\ forall i c1 c2,
         String.get i "AAA" = Some c1 -> String.get i bases2 = Some c2 ->
         c1 <> c2 ->
         exists mss score (k1 k2 : nat),
           mismatch_pos_all tie_family = Ok mss
           /\ tally (Z.of_nat 3) (combine tie_family mss) (Z.of_nat i)
              = Ok score
           /\ k1 <> k2
           /\ c1 = nth k1 nuc_lst "N"%char /\ c2 = nth k2 nuc_lst "N"%char
           /\ nth k1 score 0 = nth k2 score 0
           /\ forall j, (j < 5)%nat -> nth j score 0 <= nth k1 score 0.
Proof.
  apply (consensus_maker_randomness tie_family 3
    (7 # 10) exact_rounding always_lowest
           always_highest "AAA" [62; 3; 62]).
  - vm_compute. reflexivity.
  - vm_compute. reflexivity.
Defined.

(** ** [mismatch_pos] on the strings of the SAM grammar *)

Section RenderedTokens.

Lemma re_split_md_digits (d rest : string) :
  all_digits d = true ->
  forall t ts, re_split_md false rest = t :: ts ->
               re_split_md false (d ++ rest) = (d ++ t)%string :: ts.
Proof.
  intros Hd t ts Hrest. induction d as [|c d IH]; [exact Hrest|].
  cbn [all_digits] in Hd. apply andb_true_iff in Hd as [Hc Hd].
  cbn [append re_split_md]. rewrite (digit_token_char c Hc), (IH Hd).
  reflexivity.
Qed.

Lemma re_split_md_start (b : bool) (d rest : string) :
  all_digits d = true -> d <> EmptyString ->
  re_split_md b (d ++ rest) = re_split_md false (d ++ rest).
Proof.
  intros Hd Hne. destruct d as [|c d]; [congruence|].
  cbn [all_digits] in Hd. apply andb_true_iff in Hd as [Hc _].
  cbn [append re_split_md]. now rewrite (digit_token_char c Hc).
Qed.

Lemma re_split_md_skip (s rest : string) :
  all_upper s = true ->
  re_split_md true (s ++ rest) = re_split_md true rest.
Proof.
  induction s as [|c s IH]; [reflexivity|]. cbn [all_upper]. intro H.
  apply andb_true_iff in H as [Hc Hs].
  cbn [append re_split_md]. rewrite (upper_not_token_char c Hc). now apply IH.
Qed.

(** [re.split] cuts a rendered string into the run lengths, a caret closing
    each run that a deletion follows. *)
Lemma re_split_md_render (items : list (md_event * Z)) :
  forall (n : Z) (b : bool),
    0 <= n -> md_items_ok items = true ->
    re_split_md b (render_md n items) = md_tokens n items.
Proof.
  induction items as [|[ev m] items IH]; intros n b Hn Hok;
    destruct (str_nonneg n Hn) as (Hne & Hall & _);
    unfold render_md; rewrite (re_split_md_start b) by assumption.
  - cbn [render_md_tail md_tokens].
    rewrite (re_split_md_digits (str n) EmptyString Hall EmptyString [])
      by reflexivity.
    now rewrite append_nil_r.
  - cbn [md_items_ok forallb fst snd] in Hok.
    apply andb_true_iff in Hok as [Hitem Hok].
    apply andb_true_iff in Hitem as [Hm Hev]. apply Z.leb_le in Hm.
    specialize (IH m true Hm Hok). unfold render_md in IH.
    cbn [render_md_tail md_tokens]. destruct ev as [c | s].
    + cbn [render_event append].
      rewrite (re_split_md_digits (str n) _ Hall EmptyString
                                  (md_tokens m items)).
      * now rewrite append_nil_r.
      * cbn [re_split_md]. rewrite (upper_not_token_char c Hev).
        now rewrite IH.
    + apply andb_true_iff in Hev as [Hs Hup].
      destruct s as [|u s]; [discriminate Hs|].
      cbn [all_upper] in Hup. apply andb_true_iff in Hup as [Hu Hup].
      cbn [render_event append].
      rewrite (re_split_md_digits (str n) _ Hall (String "^" EmptyString)
                                  (md_tokens m items)); [reflexivity|].
      change (re_split_md false
                (String "^" (String u (s ++ str m ++ render_md_tail items))))
        with (match re_split_md false
                      (String u (s ++ str m ++ render_md_tail items)) with
              | t :: ts => String "^" t :: ts
              | [] => [String "^" EmptyString]
              end).
      cbn [re_split_md]. rewrite (upper_not_token_char u Hu).
      now rewrite (re_split_md_skip s _ Hup), IH.
Qed.

End RenderedTokens.


Section RenderedLoop.

Lemma add_to_last_snoc (l : list Z) (x d : Z) :
  add_to_last (l ++ [x]) d = l ++ [x + d].
Proof.
  induction l as [|y l IH]; [reflexivity|].
  change ((y :: l) ++ [x]) with (y :: (l ++ [x])).
  destruct (l ++ [x]) as [|z r] eqn:E; [now destruct l|].
  change (add_to_last (y :: z :: r) d) with (y :: add_to_last (z :: r) d).
  now rewrite IH.
Qed.

Lemma last_cons_default (l : list Z) :
  forall x d, List.last (x :: l) d = List.last l x.
Proof.
  induction l as [|y l IH]; intros x d; [reflexivity|].
  change (List.last (x :: y :: l) d) with (List.last (y :: l) d).
  rewrite (IH y d). symmetry. apply IH.
Qed.

Lemma getitem_before_last (l : list Z) (y : Z) :
  l <> [] -> getitem (l ++ [y]) (-2) = Ok (List.last l 0).
Proof.
  intro Hne. unfold getitem. rewrite length_app. cbn [List.length].
  replace (-2 <? 0) with true by reflexivity.
  assert (Hlen : (0 < List.length l)%nat)
    by (destruct l; [congruence | cbn; lia]).
  replace (0 <=? -2 + Z.of_nat (List.length l + 1)) with true
    by (symmetry; apply Z.leb_le; lia).
  replace (-2 + Z.of_nat (List.length l + 1) <? Z.of_nat (List.length l + 1))
    with true by (symmetry; apply Z.ltb_lt; lia).
  cbn [andb].
  replace (Z.to_nat (-2 + Z.of_nat (List.length l + 1)))
    with (List.length l - 1)%nat by lia.
  rewrite nth_error_app1 by lia.
  destruct l as [|x l]; [congruence|].
  cbn [List.length]. replace (S (List.length l) - 1)%nat with (List.length l)
    by lia.
  now rewrite nth_error_last, last_cons_default.
Qed.

Lemma str_not_empty (n : Z) : 0 <= n -> String.eqb (str n) EmptyString = false.
Proof.
  intro Hn. destruct (str_nonneg n Hn) as (Hne & _).
  now apply String.eqb_neq.
Qed.

Lemma reached_snoc (l : list Z) (v : Z) (b : bool) :
  reached (mkMd (l ++ [v]) 0 b) = v + 1.
Proof.
  unfold reached. cbn [mis_pos del_pos].
  destruct (l ++ [v]) as [|y r] eqn:E; [now destruct l|].
  rewrite <- E, last_last. lia.
Qed.

(** The step on a run length that a substitution follows: the offset of
    the substituted base is recorded. *)
Lemma md_step_substitution (N : nat) (i n : Z) (st : md_state) :
  0 <= n -> (2 <= N)%nat ->
  (i = 0 -> mis_pos st = []) ->
  (prev_del st = false -> del_pos st = 0) ->
  md_step N i (str n) st
  = Ok (mkMd (mis_pos st ++ [reached st + n]) 0 false).
Proof.
  intros Hn HN Hfirst Hdel. unfold md_step.
  destruct (str_nonneg n Hn) as (Hne & Hall & _).
  rewrite (str_not_empty n Hn), (contains_caret_digits _ Hall), (int_str n Hn).
  cbn [bind].
  replace (2 <=? N)%nat with true by (symmetry; apply Nat.leb_le; lia).
  set (l := mis_pos st) in *. set (D := del_pos st) in *.
  assert (Hst1 : (if prev_del st
                  then mkMd (add_to_last (l ++ [n]) D) 0 false
                  else mkMd (l ++ [n]) D (prev_del st))
                 = mkMd (l ++ [n + D]) 0 false).
  { destruct (prev_del st) eqn:E.
    - now rewrite add_to_last_snoc.
    - rewrite (Hdel eq_refl). now rewrite Z.add_0_r. }
  rewrite Hst1. cbn [mis_pos del_pos prev_del].
  rewrite length_app. cbn [List.length].
  unfold reached. fold l. fold D.
  destruct l as [|x l'] eqn:El.
  - cbn [List.length Nat.add]. rewrite andb_false_r.
    cbn [app]. do 3 f_equal. lia.
  - assert (Hi : i <> 0) by (intro H0; specialize (Hfirst H0); discriminate).
    replace (i =? 0) with false by (symmetry; now apply Z.eqb_neq).
    replace (1 <? List.length (x :: l') + 1)%nat with true
      by (symmetry; apply Nat.ltb_lt; cbn [List.length]; lia).
    cbn [negb andb]. rewrite getitem_before_last by discriminate.
    cbn [bind]. rewrite add_to_last_snoc. do 2 f_equal.
    f_equal. f_equal. lia.
Qed.

(** The step on a run length that a deletion follows: the run is kept
    for the next substitution. *)
Lemma md_step_deletion (N : nat) (i n : Z) (st : md_state) :
  0 <= n ->
  md_step N i (str n ++ "^") st
  = Ok (mkMd (mis_pos st) (del_pos st + n) true).
Proof.
  intro Hn. unfold md_step.
  destruct (str_nonneg n Hn) as (Hne & Hall & _).
  assert (E : String.eqb (str n ++ "^") EmptyString = false)
    by (apply String.eqb_neq; destruct (str n); discriminate).
  rewrite E, contains_caret_closed, drop_last_closed, (int_str n Hn).
  reflexivity.
Qed.

Lemma md_tokens_not_nil (n : Z) (items : list (md_event * Z)) :
  md_tokens n items <> [].
Proof. destruct items as [|[[c|s] m] items]; discriminate. Qed.

Lemma md_loop_render (items : list (md_event * Z)) :
  forall (n : Z) (st : md_state) (i : Z) (N : nat),
    0 <= n -> md_items_ok items = true -> (2 <= N)%nat -> 0 <= i ->
    (i = 0 -> mis_pos st = []) ->
    (prev_del st = false -> del_pos st = 0) ->
    exists st',
      md_loop N i (removelast (md_tokens n items)) st = Ok st'
      /\ mis_pos st'
         = mis_pos st ++ substitution_offsets (reached st + n) items.
Proof.
  induction items as [|[ev m] items IH]; intros n st i N Hn Hok HN Hi Hfirst Hdel.
  - exists st. split; [reflexivity|]. cbn. now rewrite app_nil_r.
  - cbn [md_items_ok forallb fst snd] in Hok.
    apply andb_true_iff in Hok as [Hitem Hok].
    apply andb_true_iff in Hitem as [Hm _]. apply Z.leb_le in Hm.
    pose proof (md_tokens_not_nil m items) as Hnil.
    destruct ev as [c | s]; cbn [md_tokens substitution_offsets].
    + change (removelast (str n :: md_tokens m items))
        with (match md_tokens m items with
              | [] => []
              | _ :: _ => str n :: removelast (md_tokens m items)
              end).
      destruct (md_tokens m items) as [|t ts] eqn:Et; [congruence|].
      rewrite <- Et. cbn [md_loop].
      rewrite md_step_substitution by assumption. cbn [bind].
      destruct (IH m (mkMd (mis_pos st ++ [reached st + n]) 0 false)
                   (i + 1) N Hm Hok HN ltac:(lia) ltac:(intro; lia)
                   ltac:(reflexivity)) as (st' & Hloop & Hpos).
      exists st'. split; [exact Hloop|].
      rewrite Hpos. cbn [mis_pos]. rewrite <- app_assoc. cbn [app].
      do 2 f_equal. now rewrite reached_snoc.
    + change (removelast ((str n ++ "^")%string :: md_tokens m items))
        with (match md_tokens m items with
              | [] => []
              | _ :: _ => (str n ++ "^")%string
                          :: removelast (md_tokens m items)
              end).
      destruct (md_tokens m items) as [|t ts] eqn:Et; [congruence|].
      rewrite <- Et. cbn [md_loop].
      rewrite md_step_deletion by assumption. cbn [bind].
      destruct (IH m (mkMd (mis_pos st) (del_pos st + n) true) (i + 1) N
                   Hm Hok HN ltac:(lia)) as (st' & Hloop & Hpos).
      { intro H0. cbn [mis_pos]. destruct (Z.eq_dec i 0) as [E | E];
          [now apply Hfirst | lia]. }
      { discriminate. }
      exists st'. split; [exact Hloop|].
      rewrite Hpos. cbn [mis_pos]. do 2 f_equal.
      unfold reached. cbn [mis_pos del_pos]. lia.
Qed.

End RenderedLoop.

Section DecodedPositions.

Lemma append_run_in (k : nat) :
  forall (mp : list Z) (insert z : Z),
    In z (fst (append_run k mp insert)) ->
    In z mp \/ exists j, (j < k)%nat /\ z = insert + Z.of_nat j.
Proof.
  induction k as [|k IH]; intros mp insert z Hz; cbn [append_run fst] in Hz.
  - now left.
  - apply IH in Hz as [Hz | (j & Hj & ->)].
    + apply in_app_or in Hz as [Hz | [<- | []]]; [now left|].
      right. exists 0%nat. split; lia.
    + right. exists (S j). split; lia.
Qed.

(** The second loop adds nothing but offsets of inserted bases. *)
Lemma insert_loop_in (cig : cigar_t) :
  forall (mp : list Z) (insert z : Z),
    In z (insert_loop cig mp insert) ->
    In z mp
    \/ exists pre k post j,
         cig = pre ++ (INSERTION, k) :: post /\ (j < k)%nat
         /\ z = insert + query_offset pre + Z.of_nat j.
Proof.
  induction cig as [|[op len] cig IH]; intros mp insert z Hz;
    cbn [insert_loop] in Hz.
  - now left.
  - destruct (op =? 1)%nat eqn:E1.
    + apply Nat.eqb_eq in E1. subst op.
      destruct (append_run len mp insert) as [mp' insert'] eqn:E.
      pose proof (append_run_spec len mp insert) as (Hsnd & _).
      rewrite E in Hsnd. cbn [snd] in Hsnd. subst insert'.
      apply IH in Hz as [Hz | (pre & k & post & j & -> & Hj & ->)].
      * replace mp' with (fst (append_run len mp insert)) in Hz
          by now rewrite E.
        apply append_run_in in Hz as [Hz | (j & Hj & ->)]; [now left|].
        right. exists [], len, cig, j. cbn [app query_offset].
        split; [reflexivity|]. split; [assumption | lia].
      * right. exists ((INSERTION, len) :: pre), k, post, j.
        split; [reflexivity|]. split; [assumption|].
        cbn [query_offset]. unfold MATCH, INSERTION. cbn [Nat.eqb orb]. lia.
    + destruct (op =? 0)%nat eqn:E0.
      * apply Nat.eqb_eq in E0. subst op.
        apply IH in Hz as [Hz | (pre & k & post & j & -> & Hj & ->)];
          [now left|].
        right. exists ((MATCH, len) :: pre), k, post, j.
        split; [reflexivity|]. split; [assumption|].
        cbn [query_offset]. unfold MATCH, INSERTION. cbn [Nat.eqb orb]. lia.
      * apply IH in Hz as [Hz | (pre & k & post & j & -> & Hj & ->)];
          [now left|].
        right. exists ((op, len) :: pre), k, post, j.
        split; [reflexivity|]. split; [assumption|].
        cbn [query_offset]. unfold MATCH, INSERTION. rewrite E0, E1.
        cbn [orb]. lia.
Qed.

Lemma insert_loop_no_insertion (cig : cigar_t) :
  forall (mp : list Z) (insert : Z),
    no_insertion cig = true -> insert_loop cig mp insert = mp.
Proof.
  induction cig as [|[op len] cig IH]; intros mp insert Hno; [reflexivity|].
  unfold no_insertion in Hno. cbn [forallb fst] in Hno.
  apply andb_true_iff in Hno as [Hop Hno]. unfold INSERTION in Hop.
  apply negb_true_iff in Hop. cbn [insert_loop]. rewrite Hop.
  destruct (op =? 0)%nat; now apply IH.
Qed.

Lemma sorted_set_fixed (l : list Z) :
  StronglySorted Z.lt l -> sorted_set l = l.
Proof.
  induction 1 as [|x l Hs IH Hx]; [reflexivity|].
  unfold sorted_set in *. cbn [fold_right]. rewrite IH.
  destruct l as [|y l]; [reflexivity|]. cbn [insert_uniq].
  apply Forall_inv in Hx. apply Z.ltb_lt in Hx. now rewrite Hx.
Qed.

Lemma substitution_offsets_from (items : list (md_event * Z)) :
  forall off z,
    md_items_ok items = true -> In z (substitution_offsets off items) ->
    off <= z.
Proof.
  induction items as [|[ev m] items IH]; intros off z Hok Hz; [destruct Hz|].
  unfold md_items_ok in Hok. cbn [forallb fst snd] in Hok.
  apply andb_true_iff in Hok as [Hitem Hok].
  apply andb_true_iff in Hitem as [Hm _]. apply Z.leb_le in Hm.
  destruct ev as [c | s]; cbn [substitution_offsets] in Hz.
  - destruct Hz as [<- | Hz]; [lia|]. apply (IH _ _ Hok) in Hz. lia.
  - apply (IH _ _ Hok) in Hz. lia.
Qed.

(** The offsets of the substitutions increase along the string. *)
Lemma substitution_offsets_sorted (items : list (md_event * Z)) :
  forall off,
    md_items_ok items = true ->
    StronglySorted Z.lt (substitution_offsets off items).
Proof.
  induction items as [|[ev m] items IH]; intros off Hok; [constructor|].
  pose proof Hok as Hok'.
  unfold md_items_ok in Hok. cbn [forallb fst snd] in Hok.
  apply andb_true_iff in Hok as [Hitem Hok].
  apply andb_true_iff in Hitem as [Hm _]. apply Z.leb_le in Hm.
  destruct ev as [c | s]; cbn [substitution_offsets].
  - constructor; [now apply IH|]. apply Forall_forall. intros z Hz.
    apply (substitution_offsets_from _ _ _ Hok) in Hz. lia.
  - now apply IH.
Qed.

Lemma md_tokens_length (items : list (md_event * Z)) :
  forall n, List.length (md_tokens n items) = S (List.length items).
Proof.
  induction items as [|[[c|s] m] items IH]; intro n; [reflexivity| |];
    cbn [md_tokens List.length]; now rewrite IH.
Qed.

(** The first loop of [mismatch_pos] on a rendered string ends with the
    offsets of the substitutions. *)
Lemma md_loop_rendered (n0 : Z) (items : list (md_event * Z)) :
  0 <= n0 -> md_items_ok items = true ->
  let mismatches := re_split_md false (render_md n0 items) in
  let n := List.length mismatches in
  exists st,
    md_loop n 0 (firstn (n - 1) mismatches) (mkMd [] 0 false) = Ok st
    /\ mis_pos st = substitution_offsets n0 items.
Proof.
  intros Hn Hok. cbv zeta. rewrite (re_split_md_render items n0 false Hn Hok).
  rewrite md_tokens_length.
  replace (S (List.length items) - 1)%nat
    with (pred (List.length (md_tokens n0 items)))
    by (rewrite md_tokens_length; lia).
  rewrite <- removelast_firstn_len.
  destruct items as [|item items].
  - exists (mkMd [] 0 false). split; reflexivity.
  - destruct (md_loop_render (item :: items) n0 (mkMd [] 0 false) 0
                (S (List.length (item :: items))) Hn Hok)
      as (st & Hloop & Hpos);
      [cbn [List.length]; lia | lia | reflexivity | reflexivity |].
    exists st. split; [exact Hloop|].
    rewrite Hpos. cbn [mis_pos app]. unfold reached. cbn [mis_pos del_pos].
    now replace (0 + 0 + n0) with n0 by lia.
Qed.

End DecodedPositions.

(** X12.  On a mismatch string of the SAM grammar, a leading run length
    followed by substitutions and deletions each with its run length,
    [mismatch_pos] returns exactly the offsets of the substituted bases,
    counted over the matched and substituted bases before them, together
    with the offsets of the inserted bases of the CIGAR; without an
    insertion the result is the list of substitution offsets itself. *)
Theorem mismatch_pos_decodes
    (cig : cigar_t) (n0 : Z) (items : list (md_event * Z)) :
  0 <= n0 -> md_items_ok items = true ->
  exists l,
    mismatch_pos cig (render_md n0 items) = Ok l
    /\ (forall z, In z l <->
                  In z (substitution_offsets n0 items)
                  \/ insertion_offset cig z)
    /\ (no_insertion cig = true -> l = substitution_offsets n0 items).
Proof.
  intros Hn Hok. unfold mismatch_pos. cbv zeta.
  destruct (md_loop_rendered n0 items Hn Hok) as (st & Hloop & Hpos).
  cbv zeta in Hloop. rewrite Hloop. cbn [bind]. rewrite Hpos.
  eexists. split; [reflexivity|]. split.
  - intro z. rewrite sorted_set_in. split.
    + intro Hz. apply insert_loop_in in Hz
        as [Hz | (pre & k & post & j & -> & Hj & ->)]; [now left|].
      right. exists pre, k, post, j.
      split; [reflexivity|]. split; [assumption | lia].
    + intros [Hz | (pre & k & post & j & -> & Hj & ->)].
      * now apply insert_loop_keeps.
      * replace (query_offset pre + Z.of_nat j)
          with (0 + query_offset pre + Z.of_nat j) by lia.
        now apply insert_loop_records.
  - intro Hno. rewrite insert_loop_no_insertion by assumption.
    apply sorted_set_fixed. now apply substitution_offsets_sorted.
Qed.

Lemma mismatch_pos_decodes_witness :
  exists l,
    mismatch_pos [(MATCH, 10%nat); (INSERTION, 2%nat); (MATCH, 20%nat)]
                 (render_md 5 [(Substitution "A"%char, 3);
                               (Deletion "CG", 4);
                               (Substitution "T"%char, 6)])
    = Ok l
    /\ (forall z, In z l <->
                  In z (substitution_offsets 5 [(Substitution "A"%char, 3);
                                                (Deletion "CG", 4);
                                                (Substitution "T"%char, 6)])
                  \/ insertion_offset
                       [(MATCH, 10%nat); (INSERTION, 2%nat); (MATCH, 20%nat)] z)
    /\ (no_insertion [(MATCH, 10%nat); (INSERTION, 2%nat); (MATCH, 20%nat)]
        = true ->
        l = substitution_offsets 5 [(Substitution "A"%char, 3);
                                    (Deletion "CG", 4);
                                    (Substitution "T"%char, 6)]).
Proof.
  apply (mismatch_pos_decodes
           [(MATCH, 10%nat); (INSERTION, 2%nat); (MATCH, 20%nat)] 5
           [(Substitution "A"%char, 3); (Deletion "CG", 4);
            (Substitution "T"%char, 6)]).
  - lia.
  - reflexivity.
Defined.

(** ** [consensus_maker] on a family that agrees everywhere *)

Section Unanimous.

Variable fp : FloatSource.
Variable rng : RandomSource.
Variable readLength : nat.
Variable s : string.
Hypothesis bases_alphabet : over_alphabet s = true.
Hypothesis bases_length : String.length s = readLength.

Lemma full_vote_inv (read : AlignedRead) :
  full_vote (Z.of_nat readLength) s read = true ->
  query_seq_pos (cigar read) (Z.of_nat readLength)
  = Ok (0, Z.of_nat readLength)
  /\ query_alignment_sequence read = s
  /\ exists ms,
       mismatch_pos (cigar read) (MD read) = Ok ms
       /\ forall m, In m ms -> 0 <= m < Z.of_nat readLength ->
            exists q, getitem (query_alignment_qualities read) m = Ok q
                      /\ 30 <= q.
Proof.
  unfold full_vote. intro H.
  destruct (query_seq_pos _ _) as [[start end_]|]; [|discriminate H].
  destruct (mismatch_pos _ _) as [ms|]; [|discriminate H].
  apply andb_true_iff in H as [H Hms].
  apply andb_true_iff in H as [H Hs].
  apply andb_true_iff in H as [H0 H1].
  apply Z.eqb_eq in H0, H1. apply String.eqb_eq in Hs. subst start end_.
  split; [reflexivity|]. split; [assumption|].
  exists ms. split; [reflexivity|]. intros m Hm Hrange.
  rewrite forallb_forall in Hms. specialize (Hms m Hm).
  destruct (getitem _ m) as [q|].
  - exists q. split; [reflexivity|].
    apply orb_true_iff in Hms as [Hms | Hms]; [|now apply Z.leb_le].
    apply orb_true_iff in Hms as [Hms | Hms];
      [apply Z.ltb_lt in Hms | apply Z.leb_le in Hms]; lia.
  - apply orb_true_iff in Hms as [Hms | Hms]; [|discriminate Hms].
    apply orb_true_iff in Hms as [Hms | Hms];
      [apply Z.ltb_lt in Hms | apply Z.leb_le in Hms]; lia.
Qed.

Lemma over_alphabet_get (t : string) :
  over_alphabet t = true ->
  forall i c, String.get i t = Some c -> in_alphabet c = true.
Proof.
  induction t as [|x t IH]; intros Ht i c Hget; [destruct i; discriminate|].
  cbn [over_alphabet] in Ht. apply andb_true_iff in Ht as [Hx Ht].
  destruct i as [|i]; cbn [String.get] in Hget.
  - now injection Hget as <-.
  - now apply (IH Ht i).
Qed.

Lemma list_index_nth (l : list ascii) (c : ascii) :
  forall k, list_index l c = Ok k ->
            (Z.to_nat k < List.length l)%nat /\ 0 <= k
            /\ nth (Z.to_nat k) l "N"%char = c.
Proof.
  induction l as [|x l IH]; intros k H; cbn [list_index] in H;
    [discriminate H|].
  destruct (Ascii.eqb x c) eqn:E.
  - injection H as <-. apply Ascii.eqb_eq in E. cbn. repeat split; lia || auto.
  - destruct (list_index l c) as [k'|]; cbn [bind] in H; [|discriminate H].
    injection H as <-. destruct (IH k' eq_refl) as (Hlt & Hk & Hnth).
    replace (Z.to_nat (k' + 1)) with (S (Z.to_nat k')) by lia.
    cbn [List.length nth]. repeat split; try lia. exact Hnth.
Qed.

Lemma nth_incr_at (l : list Z) :
  forall k, (k < List.length l)%nat -> nth k (incr_at l k) 0 = nth k l 0 + 1.
Proof.
  induction l as [|x l IH]; intros k Hk; [cbn in Hk; lia|].
  destruct k as [|k]; [reflexivity|]. cbn [incr_at nth].
  apply IH. cbn [List.length] in Hk. lia.
Qed.

Lemma length_incr_at (l : list Z) :
  forall k, List.length (incr_at l k) = List.length l.
Proof.
  induction l as [|x l IH]; intros [|k]; cbn [incr_at List.length];
    try reflexivity. now rewrite IH.
Qed.

(** A read that votes everywhere adds its base at position [i] to the
    count. *)
Lemma vote_step_full (read : AlignedRead) (ms : list Z) (i : nat) (c : ascii)
    (k : Z) (score : list Z) (fail : Z) :
  full_vote (Z.of_nat readLength) s read = true ->
  mismatch_pos (cigar read) (MD read) = Ok ms ->
  String.get i s = Some c ->
  list_index nuc_lst c = Ok k ->
  vote_step (Z.of_nat readLength) read ms (mkVote score fail (Z.of_nat i))
  = Ok (mkVote (incr_at score (Z.to_nat k)) fail (Z.of_nat i)).
Proof.
  intros Hfull Hms Hget Hk.
  destruct (full_vote_inv read Hfull) as (Hq & Hs & ms' & Hms' & Hqual).
  rewrite Hms in Hms'. injection Hms' as <-.
  pose proof (string_get_length s i c Hget) as Hi. rewrite bases_length in Hi.
  unfold vote_step. cbn [pos position_score phred_fail]. rewrite Hq.
  cbn [bind fst snd].
  replace (Z.of_nat i <? 0) with false by (symmetry; apply Z.ltb_ge; lia).
  replace (Z.of_nat i >=? Z.of_nat readLength) with false
    by (symmetry; rewrite Z.geb_leb; apply Z.leb_gt; lia).
  cbn [orb].
  assert (Hfail : (if mem (Z.of_nat i) ms
                   then q <- getitem (query_alignment_qualities read)
                                     (Z.of_nat i) ;;
                        Ok (q <? 30)
                   else Ok false) = Ok false).
  { destruct (mem (Z.of_nat i) ms) eqn:Emem; [|reflexivity].
    unfold mem in Emem. apply existsb_exists in Emem as (m & Hm & Em).
    apply Z.eqb_eq in Em. subst m.
    destruct (Hqual _ Hm) as (q & -> & Hq30); [lia|]. cbn [bind].
    f_equal. apply Z.ltb_ge. lia. }
  rewrite Hfail. cbn [bind]. rewrite Hs, Z.sub_0_r.
  assert (Eneg : (Z.of_nat i <? 0) = false) by (apply Z.ltb_ge; lia).
  unfold str_getitem. cbv zeta. rewrite Eneg. cbv iota. rewrite Eneg.
  rewrite Nat2Z.id, Hget. cbn [bind]. rewrite Hk. cbn [bind].
  now rewrite Z.add_0_r.
Qed.

Lemma vote_loop_full (i : nat) (c : ascii) (k : Z) :
  String.get i s = Some c ->
  list_index nuc_lst c = Ok k ->
  forall (reads : list (AlignedRead * list Z)) (score : list Z) (fail : Z),
    Forall (fun rm => full_vote (Z.of_nat readLength) s (fst rm) = true
                      /\ mismatch_pos (cigar (fst rm)) (MD (fst rm))
                         = Ok (snd rm)) reads ->
    (Z.to_nat k < List.length score)%nat ->
    exists score',
      vote_loop (Z.of_nat readLength) reads (mkVote score fail (Z.of_nat i))
      = Ok (mkVote score' fail (Z.of_nat i))
      /\ nth (Z.to_nat k) score' 0
         = nth (Z.to_nat k) score 0 + Z.of_nat (List.length reads).
Proof.
  intros Hget Hk reads.
  induction reads as [|[read ms] reads IH]; intros score fail Hall Hlen.
  - exists score. split; [reflexivity|]. cbn [List.length]. lia.
  - apply Forall_cons_iff in Hall as [[Hfull Hms] Hrest].
    cbn [fst snd] in Hfull, Hms.
    cbn [vote_loop].
    rewrite (vote_step_full read ms i c k score fail Hfull Hms Hget Hk).
    cbn [bind].
    destruct (IH (incr_at score (Z.to_nat k)) fail Hrest) as (score' & E & Hn);
      [now rewrite length_incr_at|].
    exists score'. split; [exact E|].
    rewrite Hn, nth_incr_at by assumption. cbn [List.length]. lia.
Qed.

(** Every position of a family that votes everywhere is the base of [s]
    there, with quality 62. *)
Lemma emission_full (reads : list (AlignedRead * list Z)) (i : nat)
    (c : ascii) :
  reads <> [] ->
  Z.of_nat (List.length reads) < 2 ^ 63 ->
  Forall (fun rm => full_vote (Z.of_nat readLength) s (fst rm) = true
                    /\ mismatch_pos (cigar (fst rm)) (MD (fst rm))
                       = Ok (snd rm)) reads ->
  String.get i s = Some c ->
  exists score,
    tally (Z.of_nat readLength) reads (Z.of_nat i) = Ok score
    /\ emission fp rng i score = (String c EmptyString, [62]).
Proof.
  intros Hne Hsize Hall Hget.
  pose proof (over_alphabet_get s bases_alphabet i c Hget) as Hc.
  destruct (list_index_alphabet c Hc) as [k Hk].
  destruct (list_index_nth nuc_lst c k Hk) as (Hlt & Hk0 & Hnth).
  cbn [nuc_lst List.length] in Hlt.
  destruct (vote_loop_full i c k Hget Hk reads [0; 0; 0; 0; 0] 0 Hall)
    as (score & Eloop & Hn); [cbn [List.length]; lia|].
  assert (Et : tally (Z.of_nat readLength) reads (Z.of_nat i) = Ok score)
    by (unfold tally; rewrite Eloop; reflexivity).
  exists score. split; [exact Et|].
  pose proof (tally_counts _ _ _ _ Et) as (Hlen & Hnn & Hsum).
  assert (Hzero : nth (Z.to_nat k) [0; 0; 0; 0; 0] 0 = 0)
    by (destruct (Z.to_nat k) as [|[|[|[|[|[|?]]]]]]; reflexivity).
  rewrite Hzero, Z.add_0_l in Hn.
  pose proof (nth_le_sum score (Z.to_nat k) Hnn) as Hle.
  assert (Hpos : (0 < List.length reads)%nat)
    by (destruct reads; [congruence | cbn; lia]).
  rewrite <- Hnth.
  apply emission_one_symbol; try lia.
  repeat split; [assumption | assumption | lia].
Qed.

End Unanimous.

Lemma combine_full (readLength : Z) (s : string)
    (readList : list AlignedRead) :
  forallb (full_vote readLength s) readList = true ->
  exists mss,
    mismatch_pos_all readList = Ok mss
    /\ List.length mss = List.length readList
    /\ Forall (fun rm => full_vote readLength s (fst rm) = true
                         /\ mismatch_pos (cigar (fst rm)) (MD (fst rm))
                            = Ok (snd rm)) (combine readList mss).
Proof.
  induction readList as [|read readList IH]; intro Hall.
  - exists []. repeat split. constructor.
  - cbn [forallb] in Hall. apply andb_true_iff in Hall as [Hfull Hall].
    destruct (IH Hall) as (mss & E & Hlen & HF).
    pose proof Hfull as Hfull'. unfold full_vote in Hfull'.
    destruct (query_seq_pos _ _) as [[start end_]|]; [|discriminate Hfull'].
    destruct (mismatch_pos (cigar read) (MD read)) as [ms|] eqn:Ems;
      [|discriminate Hfull'].
    exists (ms :: mss). cbn [mismatch_pos_all]. rewrite Ems, E. cbn [bind].
    split; [reflexivity|]. split; [cbn [List.length]; now rewrite Hlen|].
    cbn [combine]. constructor; [now split | exact HF].
Qed.

(** X13.  A family of at least one and fewer than [2^63] reads that all
    span the read length, carry the same bases over A, C, G, T, N and have
    a quality of at least 30 at each mismatch position gives these bases
    back, with quality 62 at every position. *)
Theorem consensus_maker_unanimous (readList : list AlignedRead)
    (readLength : nat) (cutoff : Q) (fp : FloatSource) (rng : RandomSource)
      (s : string) :
  readList <> [] ->
  Z.of_nat (List.length readList) < 2 ^ 63 ->
  over_alphabet s = true ->
  String.length s = readLength ->
  forallb (full_vote (Z.of_nat readLength) s) readList = true ->
  consensus_maker readList (Z.of_nat readLength) cutoff fp rng
  = Ok (s, repeat 62 readLength).
Proof.
  intros Hne Hsize Halpha Hlen Hall.
  destruct (combine_full _ _ _ Hall) as (mss & Emss & Hlm & HF).
  unfold consensus_maker. rewrite Emss. cbn [bind]. rewrite Nat2Z.id.
  set (reads := combine readList mss) in *.
  assert (Hrl : List.length reads = List.length readList)
    by (unfold reads; rewrite length_combine; lia).
  assert (Hrne : reads <> [])
    by (destruct reads; [destruct readList; [congruence | discriminate Hrl]
                        | discriminate]).
  assert (Hrsize : Z.of_nat (List.length reads) < 2 ^ 63) by (rewrite Hrl; lia).
  assert (Hat : forall i, (i < readLength)%nat ->
            exists c score,
              String.get i s = Some c
              /\ tally (Z.of_nat readLength) reads (Z.of_nat i) = Ok score
              /\ emission fp rng i score = (String c EmptyString, [62])).
  { intros i Hi. destruct (String.get i s) as [c|] eqn:Eget.
    - destruct (emission_full fp rng readLength s Halpha Hlen reads i c
                  Hrne Hrsize HF Eget) as (score & Et & Ee).
      exists c, score. now repeat split.
    - exfalso. revert Eget. clear - Hi Hlen. subst readLength. revert i Hi.
      induction s as [|x t IH]; intros i Hi; [cbn in Hi; lia|].
      destruct i as [|i]; [discriminate|].
      cbn [String.get]. apply IH. cbn [String.length] in Hi. lia. }
  destruct (position_loop_total fp rng (Z.of_nat readLength) reads
              (seq 0 readLength)) with (out := (EmptyString, @nil Z))
    as [[bases quals] Eout].
  { intros i Hi. apply in_seq in Hi.
    destruct (Hat i) as (c & score & _ & Et & _); [lia|]. now exists score. }
  rewrite Eout.
  destruct (position_loop_spec fp rng (Z.of_nat readLength) reads Hrsize
              readLength 0 EmptyString [] (bases, quals) Eout)
    as (chars & qs & Hout & Hlc & Hlq & _ & Hpos).
  cbn [String.append app] in Hout. injection Hout as -> ->.
  f_equal. f_equal.
  - apply String.get_correct. intro i.
    destruct (Nat.lt_ge_cases i readLength) as [Hi | Hi].
    + destruct (Hpos i Hi) as (score & c & q & Et & Ee & Hg & _).
      destruct (Hat i Hi) as (c' & score' & Hg' & Et' & Ee').
      cbn [Nat.add] in Et, Ee. rewrite Et in Et'. injection Et' as <-.
      rewrite Ee in Ee'. injection Ee' as <- _. now rewrite Hg, Hg'.
    + assert (Hnone : forall t i, (String.length t <= i)%nat ->
                                  String.get i t = None).
      { clear. induction t as [|x t IH]; intros [|i] H; try reflexivity;
          cbn [String.length] in H; [lia|]. cbn [String.get]. apply IH. lia. }
      rewrite !Hnone by lia. reflexivity.
  - apply nth_error_ext. intro i.
    destruct (Nat.lt_ge_cases i readLength) as [Hi | Hi].
    + destruct (Hpos i Hi) as (score & c & q & Et & Ee & _ & Hq).
      destruct (Hat i Hi) as (c' & score' & Hg' & Et' & Ee').
      cbn [Nat.add] in Et, Ee. rewrite Et in Et'. injection Et' as <-.
      rewrite Ee in Ee'. injection Ee' as _ <-.
      rewrite Hq. symmetry. now apply nth_error_repeat.
    + rewrite (proj2 (nth_error_None _ _)) by lia.
      symmetry. apply nth_error_None. rewrite repeat_length. lia.
Qed.

Lemma consensus_maker_unanimous_witness :
  consensus_maker
    [mkRead [(MATCH, 4%nat)] "1A2" [40; 35; 40; 40] "ACGN";
     mkRead [(MATCH, 2%nat); (DELETION, 1%nat); (MATCH, 2%nat)] "2^T2"
            [40; 40; 12; 40] "ACGN"]
    (Z.of_nat 4) (7 # 10) exact_rounding always_lowest
  = Ok ("ACGN", repeat 62 4).
Proof.
  apply (consensus_maker_unanimous
           [mkRead [(MATCH, 4%nat)] "1A2" [40; 35; 40; 40] "ACGN";
            mkRead [(MATCH, 2%nat); (DELETION, 1%nat); (MATCH, 2%nat)] "2^T2"
                   [40; 40; 12; 40] "ACGN"]
           4 (7 # 10) exact_rounding always_lowest "ACGN").
  - discriminate.
  - vm_compute. reflexivity.
  - reflexivity.
  - reflexivity.
  - vm_compute. reflexivity.
Defined.

(** ** [main]: the loop over the reads of a region *)

Section Dictionaries.

Context {V : Type}.

Lemma od_get_set (d : list (string * V)) (k k' : string) (v : V) :
  od_get (od_set d k v) k' = if String.eqb k' k then Some v else od_get d k'.
Proof.
  induction d as [|[k0 v0] d IH]; cbn [od_set od_get].
  - reflexivity.
  - destruct (String.eqb k k0) eqn:E; cbn [od_get].
    + apply String.eqb_eq in E. subst k0.
      destruct (String.eqb k' k); reflexivity.
    + destruct (String.eqb k' k0) eqn:E0.
      * apply String.eqb_eq in E0. subst k0.
        rewrite String.eqb_sym in E. now rewrite E.
      * exact IH.
Qed.

Lemma od_set_keys (d : list (string * V)) (k : string) (v : V) :
  map fst (od_set d k v)
  = match od_get d k with
    | Some _ => map fst d
    | None => map fst d ++ [k]
    end.
Proof.
  induction d as [|[k0 v0] d IH]; cbn [od_set od_get]; [reflexivity|].
  destruct (String.eqb k k0) eqn:E; cbn [map fst].
  - apply String.eqb_eq in E. now subst k0.
  - rewrite IH. now destruct (od_get d k).
Qed.

Lemma od_get_none (d : list (string * V)) (k : string) :
  od_get d k = None <-> ~ In k (map fst d).
Proof.
  induction d as [|[k0 v0] d IH]; cbn [od_get map fst In]; [tauto|].
  destruct (String.eqb k k0) eqn:E.
  - apply String.eqb_eq in E. subst k0. split; [discriminate | tauto].
  - apply String.eqb_neq in E. rewrite IH. intuition congruence.
Qed.

(** Writing to a dictionary keeps its keys distinct. *)
Lemma od_set_nodup (d : list (string * V)) (k : string) (v : V) :
  NoDup (map fst d) -> NoDup (map fst (od_set d k v)).
Proof.
  intro Hd. rewrite od_set_keys. destruct (od_get d k) eqn:E; [assumption|].
  apply od_get_none in E.
  apply NoDup_app; [assumption | repeat constructor; intros [] |].
  intros x Hx [<- | []]. contradiction.
Qed.

End Dictionaries.

Section Ingest.

(** What one read changes. *)
Lemma ingest_line_spec (line : BamLine) (st st' : ingest_state) :
  ingest_line line st = Ok st' ->
  counter st' = counter st + 1
  /\ forall tag,
       family_of (bam_dict st') tag
       = family_of (bam_dict st) tag
         ++ (if filed_under tag line then [line] else [])
       /\ dd_get (tag_dict st') tag
          = dd_get (tag_dict st) tag
            + (if filed_under tag line then 1 else 0).
Proof.
  unfold ingest_line, filed_under, passes_filters. intro H.
  destruct (is_unmapped line);
    [injection H as <-; cbn; split; [reflexivity|]; intro;
     now rewrite app_nil_r, Z.add_0_r|].
  destruct (is_secondary line);
    [injection H as <-; cbn; split; [reflexivity|]; intro;
     now rewrite app_nil_r, Z.add_0_r|].
  destruct (is_supplementary line);
    [injection H as <-; cbn; split; [reflexivity|]; intro;
     now rewrite app_nil_r, Z.add_0_r|].
  destruct (mem (flag line) bad_flags);
    [injection H as <-; cbn; split; [reflexivity|]; intro;
     now rewrite app_nil_r, Z.add_0_r|].
  destruct (line_tag line) as [t|]; cbn [bind] in H; [|discriminate H].
  destruct (has_MD line); cbn [negb andb] in H |- *;
    [|injection H as <-; cbn; split; [reflexivity|]; intro;
      now rewrite app_nil_r, Z.add_0_r].
  destruct (sscs_qname t (flag line)) as [ct|]; cbn [bind] in H;
    [|discriminate H].
  assert (Hfam : forall tag,
             family_of (od_set (bam_dict st) t
                          (family_of (bam_dict st) t ++ [line])) tag
             = family_of (bam_dict st) tag
               ++ (if String.eqb t tag then [line] else [])).
  { intro tag. unfold family_of at 1. rewrite od_get_set.
    rewrite (String.eqb_sym tag t).
    destruct (String.eqb t tag) eqn:E.
    - apply String.eqb_eq in E. now subst tag.
    - fold (family_of (bam_dict st) tag). now rewrite app_nil_r. }
  assert (Hcount : forall tag,
             dd_get (od_set (tag_dict st) t (dd_get (tag_dict st) t + 1)) tag
             = dd_get (tag_dict st) tag + (if String.eqb t tag then 1 else 0)).
  { intro tag. unfold dd_get at 1. rewrite od_get_set.
    rewrite (String.eqb_sym tag t).
    destruct (String.eqb t tag) eqn:E.
    - apply String.eqb_eq in E. now subst tag.
    - fold (dd_get (tag_dict st) tag). lia. }
  destruct (od_get (bam_dict st) t) as [fam|] eqn:Efam;
    injection H as <-; cbn [counter bam_dict tag_dict]; (split; [reflexivity|]);
    intro tag; (split; [|apply Hcount]).
  - specialize (Hfam tag). unfold family_of at 2 in Hfam.
    rewrite Efam in Hfam. exact Hfam.
  - specialize (Hfam tag). unfold family_of at 2 in Hfam.
    rewrite Efam in Hfam. exact Hfam.
Qed.

(** A read stops the loop exactly when it is not admissible. *)
Lemma ingest_line_returns (line : BamLine) (st : ingest_state) :
  returns (ingest_line line st) = admissible line.
Proof.
  unfold ingest_line, admissible, passes_filters.
  destruct (is_unmapped line); [reflexivity|].
  destruct (is_secondary line); [reflexivity|].
  destruct (is_supplementary line); [reflexivity|].
  destruct (mem (flag line) bad_flags); [reflexivity|].
  cbn [negb andb orb].
  destruct (line_tag line) as [t|]; cbn [bind]; [|reflexivity].
  destruct (has_MD line); cbn [negb orb]; [|reflexivity].
  destruct (sscs_qname t (flag line)) as [ct|]; cbn [bind returns];
    [|reflexivity].
  now destruct (od_get (bam_dict st) t).
Qed.

Lemma ingest_returns (bamLines : list BamLine) :
  forall st, returns (ingest bamLines st) = forallb admissible bamLines.
Proof.
  induction bamLines as [|line rest IH]; intro st; [reflexivity|].
  cbn [ingest forallb]. rewrite <- (ingest_line_returns line st).
  destruct (ingest_line line st) as [st'|]; cbn [bind returns]; [|reflexivity].
  apply IH.
Qed.

End Ingest.

(** X14.  The loop over the reads of a region gets through exactly when
    every read is admissible, and it then files under each tag the reads
    of that tag that pass the filters and have an MD tag, in the order of
    the file and after the reads the dictionary already held; the family
    size in [tag_dict] grows by their number, on top of what earlier
    regions left there, and [counter] by the number of reads seen. *)
Theorem ingest_families (bamLines : list BamLine) (st0 : ingest_state) :
  returns (ingest bamLines st0) = forallb admissible bamLines
  /\ forall st, ingest bamLines st0 = Ok st ->
       counter st = counter st0 + Z.of_nat (List.length bamLines)
       /\ forall tag,
            family_of (bam_dict st) tag
            = family_of (bam_dict st0) tag
              ++ filter (filed_under tag) bamLines
            /\ dd_get (tag_dict st) tag
               = dd_get (tag_dict st0) tag
                 + Z.of_nat (List.length (filter (filed_under tag) bamLines)).
Proof.
  split; [apply ingest_returns|].
  revert st0. induction bamLines as [|line rest IH]; intros st0 st H.
  - injection H as <-. cbn [List.length filter]. split; [lia|]. intro tag.
    rewrite app_nil_r. split; [reflexivity | lia].
  - cbn [ingest] in H.
    destruct (ingest_line line st0) as [st1|] eqn:E1; cbn [bind] in H;
      [|discriminate H].
    destruct (ingest_line_spec line st0 st1 E1) as (Hc1 & H1).
    destruct (IH st1 st H) as (Hc & Hrest).
    split; [cbn [List.length]; lia|]. intro tag.
    destruct (Hrest tag) as (Hf & Hd). destruct (H1 tag) as (Hf1 & Hd1).
    rewrite Hf, Hd, Hf1, Hd1. cbn [filter].
    destruct (filed_under tag line); cbn [List.length app].
    + rewrite <- app_assoc. split; [reflexivity | lia].
    + rewrite app_nil_r. split; [reflexivity | lia].
Qed.

Section Pairs.

Lemma paired_add_cons (k : string) (v : list string)
    (paired : list (string * list string)) (ct tag : string) :
  paired_add ((k, v) :: paired) ct tag
  = if String.eqb ct k then (ct, v ++ [tag]) :: paired
    else (k, v) :: paired_add paired ct tag.
Proof.
  unfold paired_add. cbn [od_get od_set].
  destruct (String.eqb ct k); [reflexivity|].
  now destruct (od_get paired ct).
Qed.

(** Listing a tag adds one occurrence of it and of nothing else. *)
Lemma listed_tags_add (paired : list (string * list string))
    (ct tag x : string) :
  count_occ string_dec (listed_tags (paired_add paired ct tag)) x
  = (count_occ string_dec (listed_tags paired) x
     + if String.eqb x tag then 1 else 0)%nat.
Proof.
  assert (Hone : count_occ string_dec [tag] x
                 = if String.eqb x tag then 1%nat else 0%nat).
  { cbn [count_occ]. destruct (string_dec tag x) as [-> | Hne].
    - now rewrite String.eqb_refl.
    - apply not_eq_sym in Hne. apply String.eqb_neq in Hne. now rewrite Hne. }
  induction paired as [|[k v] paired IH].
  - unfold paired_add, listed_tags. cbn [od_get od_set map snd List.concat].
    rewrite app_nil_r. exact Hone.
  - rewrite paired_add_cons. unfold listed_tags in *.
    destruct (String.eqb ct k); cbn [map snd List.concat];
      rewrite !count_occ_app.
    + rewrite Hone. lia.
    + rewrite IH. lia.
Qed.

Lemma paired_add_get (paired : list (string * list string))
    (ct tag key : string) :
  od_get (paired_add paired ct tag) key
  = if String.eqb key ct
    then Some (match od_get paired ct with
               | Some tags => tags ++ [tag]
               | None => [tag]
               end)
    else od_get paired key.
Proof.
  unfold paired_add.
  destruct (od_get paired ct) as [tags|]; now rewrite od_get_set.
Qed.

Lemma paired_add_nodup (paired : list (string * list string))
    (ct tag : string) :
  NoDup (map fst paired) -> NoDup (map fst (paired_add paired ct tag)).
Proof.
  intro H. unfold paired_add.
  destruct (od_get paired ct); now apply od_set_nodup.
Qed.

Lemma ingest_line_invariant (line : BamLine) (st st' : ingest_state) :
  ingest_line line st = Ok st' ->
  paired_invariant st -> paired_invariant st'.
Proof.
  unfold ingest_line. intros H Hinv.
  destruct (is_unmapped line); [now injection H as <-|].
  destruct (is_secondary line); [now injection H as <-|].
  destruct (is_supplementary line); [now injection H as <-|].
  destruct (mem (flag line) bad_flags); [now injection H as <-|].
  destruct (line_tag line) as [t|]; cbn [bind] in H; [|discriminate H].
  destruct (has_MD line); cbn [negb] in H; [|now injection H as <-].
  destruct (sscs_qname t (flag line)) as [ct|] eqn:Ect; cbn [bind] in H;
    [|discriminate H].
  destruct Hinv as (Hbam & Hpaired & Hcount & Hfirst).
  destruct (od_get (bam_dict st) t) as [fam|] eqn:Efam; injection H as <-;
    unfold paired_invariant; cbn [bam_dict paired_dict].
  - (* one more read of a family *)
    split; [now apply od_set_nodup|]. split; [assumption|]. split.
    + intro tag. rewrite Hcount, od_get_set.
      destruct (String.eqb tag t) eqn:E; [|reflexivity].
      apply String.eqb_eq in E. subst tag. now rewrite Efam.
    + intros key tags tag Hkey Hin.
      destruct (Hfirst key tags tag Hkey Hin) as (l0 & rest & Hl0 & Hq).
      rewrite od_get_set. destruct (String.eqb tag t) eqn:E.
      * apply String.eqb_eq in E. subst tag. rewrite Efam in Hl0.
        injection Hl0 as ->. exists l0, (rest ++ [line]). now split.
      * exists l0, rest. now split.
  - (* a new family *)
    split; [now apply od_set_nodup|].
    split; [now apply paired_add_nodup|]. split.
    + intro tag. rewrite listed_tags_add, Hcount, od_get_set.
      destruct (String.eqb tag t) eqn:E.
      * apply String.eqb_eq in E. subst tag. now rewrite Efam.
      * destruct (od_get (bam_dict st) tag); reflexivity.
    + intros key tags tag Hkey Hin. rewrite paired_add_get in Hkey.
      rewrite od_get_set.
      assert (Hold : forall tags0, od_get (paired_dict st) key = Some tags0 ->
                In tag tags0 ->
                exists line0 rest,
                  (if String.eqb tag t then Some [line]
                   else od_get (bam_dict st) tag) = Some (line0 :: rest)
                  /\ sscs_qname tag (flag line0) = Ok key).
      { intros tags0 Hk0 Hin0.
        destruct (Hfirst key tags0 tag Hk0 Hin0) as (l0 & rest & Hl0 & Hq).
        destruct (String.eqb tag t) eqn:E.
        - apply String.eqb_eq in E. subst tag. congruence.
        - now exists l0, rest. }
      destruct (String.eqb key ct) eqn:Ekey; [|now apply (Hold tags)].
      apply String.eqb_eq in Ekey. subst key. injection Hkey as <-.
      assert (Hnew : tag = t ->
                exists line0 rest,
                  (if String.eqb tag t then Some [line]
                   else od_get (bam_dict st) tag) = Some (line0 :: rest)
                  /\ sscs_qname tag (flag line0) = Ok ct).
      { intros ->. rewrite String.eqb_refl. now exists line, []. }
      destruct (od_get (paired_dict st) ct) as [tags0|] eqn:E0.
      * apply in_app_or in Hin as [Hin | [<- | []]];
          [now apply (Hold tags0) | now apply Hnew].
      * destruct Hin as [<- | []]. now apply Hnew.
Qed.

Lemma ingest_invariant (bamLines : list BamLine) :
  forall st st', ingest bamLines st = Ok st' ->
                 paired_invariant st -> paired_invariant st'.
Proof.
  induction bamLines as [|line rest IH]; intros st st' H Hinv.
  - now injection H as <-.
  - cbn [ingest] in H.
    destruct (ingest_line line st) as [st1|] eqn:E1; cbn [bind] in H;
      [|discriminate H].
    apply (IH st1 st' H). now apply (ingest_line_invariant line st).
Qed.

End Pairs.

(** X15.  After the loop over the reads of a region, started with
    [bam_dict] and [paired_dict] empty, the keys of each dictionary are
    distinct, every tag that has a family in [bam_dict] is listed exactly
    once in [paired_dict] and no other tag is listed, and each tag is
    listed under the consensus tag that [sscs_qname] gives for it with the
    flag of the first read of its family. *)
Theorem ingest_pairs (bamLines : list BamLine) (st0 st : ingest_state) :
  bam_dict st0 = [] -> paired_dict st0 = [] ->
  ingest bamLines st0 = Ok st ->
  NoDup (map fst (bam_dict st))
  /\ NoDup (map fst (paired_dict st))
  /\ (forall tag,
        count_occ string_dec (listed_tags (paired_dict st)) tag
        = match od_get (bam_dict st) tag with
          | Some _ => 1%nat
          | None => 0%nat
          end)
  /\ (forall key tags tag,
        od_get (paired_dict st) key = Some tags -> In tag tags ->
        exists line rest,
          od_get (bam_dict st) tag = Some (line :: rest)
          /\ sscs_qname tag (flag line) = Ok key).
Proof.
  intros Hbam Hpaired H.
  apply (ingest_invariant bamLines st0 st H).
  unfold paired_invariant. rewrite Hbam, Hpaired.
  split; [constructor|]. split; [constructor|]. split; [reflexivity|].
  intros key tags tag Hkey. discriminate Hkey.
Qed.

Lemma ingest_pairs_witness :
  exists st,
    ingest sample_lines (mkIngest [] [] [] 0 0 0 0) = Ok st
    /\ NoDup (map fst (bam_dict st))
    /\ NoDup (map fst (paired_dict st))
    /\ (forall tag,
          count_occ string_dec (listed_tags (paired_dict st)) tag
          = match od_get (bam_dict st) tag with
            | Some _ => 1%nat
            | None => 0%nat
            end)
    /\ (forall key tags tag,
          od_get (paired_dict st) key = Some tags -> In tag tags ->
          exists line rest,
            od_get (bam_dict st) tag = Some (line :: rest)
            /\ sscs_qname tag (flag line) = Ok key).
Proof.
  eexists. split; [vm_compute; reflexivity|].
  apply (ingest_pairs sample_lines (mkIngest [] [] [] 0 0 0 0)).
  - reflexivity.
  - reflexivity.
  - vm_compute. reflexivity.
Defined.

(** ** [chr_arm_pos] and the regions that [main] fetches *)

Section Bands.

Lemma in_od_set {V : Type} (d : list (string * V)) (k x : string) (v v' : V) :
  In (x, v') (od_set d k v) -> (x = k /\ v' = v) \/ In (x, v') d.
Proof.
  induction d as [|[k0 v0] d IH]; cbn [od_set In].
  - intros [H | []]. injection H as <- <-. now left.
  - destruct (String.eqb k k0) eqn:E; cbn [In].
    + intros [H | H]; [injection H as <- <-; now left | right; now right].
    + intros [H | H]; [right; now left|].
      destruct (IH H) as [? | ?]; [now left | right; now right].
Qed.

Lemma od_get_in {V : Type} (d : list (string * V)) (x : string) (v : V) :
  NoDup (map fst d) -> In (x, v) d -> od_get d x = Some v.
Proof.
  induction d as [|[k0 v0] d IH]; cbn [map fst In od_get]; [intros _ []|].
  intros Hd [H | H].
  - injection H as -> ->. now rewrite String.eqb_refl.
  - inversion Hd as [|? ? Hk0 Hd']; subst.
    destruct (String.eqb x k0) eqn:E; [|now apply IH].
    apply String.eqb_eq in E. subst k0. exfalso. apply Hk0.
    change x with (fst (x, v)). now apply in_map.
Qed.

Lemma band_step_columns (line : string) (d : list (string * (Z * Z))) :
  band_step line d
  = match band_columns line with
    | Ok (chrom, start, end_, arm) =>
        Ok (od_set d (chrom ++ "_" ++ arm)%string (start, end_))
    | Raise e => Raise e
    end.
Proof.
  unfold band_step, band_columns.
  destruct (getitem (split tab line) 0) as [chrom|]; cbn [bind]; [|reflexivity].
  destruct (getitem (split tab line) 3) as [arm|]; cbn [bind]; [|reflexivity].
  destruct (getitem (split tab line) 1) as [f1|]; cbn [bind]; [|reflexivity].
  destruct (int f1) as [start|]; cbn [bind]; [|reflexivity].
  destruct (getitem (split tab line) 2) as [f2|]; cbn [bind]; [|reflexivity].
  destruct (int f2) as [end_|]; cbn [bind]; reflexivity.
Qed.

(** The key of a band is not the key of the mitochondrial chromosome. *)
Lemma band_key_not_chrM (chrom arm : string) :
  (chrom ++ "_" ++ arm)%string <> "chrM".
Proof.
  intro H. assert (E : lacks "_" (chrom ++ "_" ++ arm) = true)
    by (rewrite H; reflexivity).
  rewrite lacks_append in E. apply andb_true_iff in E as [_ E].
  discriminate E.
Qed.

Lemma band_loop_spec (bands : list string) :
  forall d0 d,
    band_loop bands d0 = Ok d ->
    NoDup (map fst d0) ->
    NoDup (map fst d)
    /\ (forall v rest0, d0 = ("chrM", v) :: rest0 ->
          exists rest, d = ("chrM", v) :: rest)
    /\ (forall x v, In (x, v) d ->
          In (x, v) d0
          \/ exists line chrom arm,
               In line bands
               /\ band_columns line = Ok (chrom, fst v, snd v, arm)
               /\ x = (chrom ++ "_" ++ arm)%string).
Proof.
  induction bands as [|line bands IH]; intros d0 d H Hd0.
  - injection H as <-. split; [assumption|]. split.
    + intros v rest0 ->. now exists rest0.
    + intros x v Hin. now left.
  - cbn [band_loop] in H. rewrite band_step_columns in H.
    destruct (band_columns line) as [[[[chrom start] end_] arm]|] eqn:Ecol;
      cbn [bind] in H; [|discriminate H].
    destruct (IH _ _ H (od_set_nodup d0 _ _ Hd0)) as (Hd & Hhead & Hin).
    split; [assumption|]. split.
    + intros v rest0 ->. apply (Hhead v (od_set rest0 (chrom ++ "_" ++ arm)
                                               (start, end_))).
      cbn [od_set].
      destruct (String.eqb (chrom ++ "_" ++ arm) "chrM") eqn:E; [|reflexivity].
      apply String.eqb_eq in E. now apply band_key_not_chrM in E.
    + intros x v Hx. destruct (Hin x v Hx) as [H0 | (l & c & a & Hl & Hc & ->)].
      * apply in_od_set in H0 as [[-> ->] | H0]; [|now left].
        right. exists line, chrom, arm. split; [now left|]. now split.
      * right. exists l, c, a. split; [now right|]. now split.
Qed.

Lemma band_loop_returns (bands : list string) :
  forall d0,
    returns (band_loop bands d0)
    = forallb (fun line => returns (band_columns line)) bands.
Proof.
  induction bands as [|line bands IH]; intro d0; [reflexivity|].
  cbn [band_loop forallb]. rewrite band_step_columns.
  destruct (band_columns line) as [[[[chrom start] end_] arm]|];
    cbn [bind returns andb]; [apply IH | reflexivity].
Qed.

Lemma region_of_band (d : list (string * (Z * Z))) (chrom arm : string)
    (a b : Z) :
  NoDup (map fst d) ->
  In ((chrom ++ "_" ++ arm)%string, (a, b)) d ->
  lacks "_" chrom = true ->
  region_of d (chrom ++ "_" ++ arm) = Ok (chrom, a, b).
Proof.
  intros Hd Hin Hc. unfold region_of.
  change (chrom ++ "_" ++ arm)%string with (chrom ++ String "_" arm)%string.
  rewrite (split_append "_" chrom arm Hc), getitem_first. cbn [bind].
  change (chrom ++ String "_" arm)%string with (chrom ++ "_" ++ arm)%string.
  now rewrite (od_get_in d _ _ Hd Hin).
Qed.

End Bands.

(** X16.  [chr_arm_pos] returns exactly when the length of chrM, if chrM
    is a chromosome of the file, can be read and every band line has four
    columns of which the second and third are integers.  Its keys are
    distinct; chrM, when present, comes first with the region from 0 to
    its length, whatever the band lines hold; every other key comes from
    a band line with the coordinates of that line, and [main] fetches it
    on the chromosome of that line when the name of the chromosome has no
    underscore. *)
Theorem chr_arm_pos_regions (chr_lst : list string) (chr_len : list Z)
    (bands : list string) :
  returns (chr_arm_pos chr_lst chr_len bands)
  = (negb (existsb (String.eqb "chrM") chr_lst)
     || returns (k <- index_of chr_lst "chrM" ;; getitem chr_len k))
    && forallb (fun line => returns (band_columns line)) bands
  /\ forall d,
       chr_arm_pos chr_lst chr_len bands = Ok d ->
       NoDup (map fst d)
       /\ (existsb (String.eqb "chrM") chr_lst = true ->
           exists len rest,
             d = ("chrM", (0, len)) :: rest
             /\ (k <- index_of chr_lst "chrM" ;; getitem chr_len k) = Ok len
             /\ region_of d "chrM" = Ok ("chrM", 0, len))
       /\ (forall x a b,
             In (x, (a, b)) d -> x <> "chrM" ->
             exists line chrom arm,
               In line bands
               /\ band_columns line = Ok (chrom, a, b, arm)
               /\ x = (chrom ++ "_" ++ arm)%string
               /\ (lacks "_" chrom = true ->
                   region_of d x = Ok (chrom, a, b))).
Proof.
  unfold chr_arm_pos. split.
  - destruct (existsb (String.eqb "chrM") chr_lst); cbn [negb orb].
    + destruct (index_of chr_lst "chrM") as [k|]; cbn [bind returns];
        [|reflexivity].
      destruct (getitem chr_len k) as [len|]; cbn [bind returns andb];
        [apply band_loop_returns | reflexivity].
    + cbn [bind]. apply band_loop_returns.
  - intros d H.
    destruct (existsb (String.eqb "chrM") chr_lst) eqn:EM.
    + destruct (index_of chr_lst "chrM") as [k|]; cbn [bind] in H |- *;
        [|discriminate H].
      destruct (getitem chr_len k) as [len|]; cbn [bind] in H;
        [|discriminate H].
      cbn [od_set] in H.
      destruct (band_loop_spec bands _ d H) as (Hd & Hhead & Hin).
      { cbn [map fst]. repeat constructor. intros []. }
      split; [assumption|]. split.
      * intros _. destruct (Hhead (0, len) [] eq_refl) as [rest ->].
        exists len, rest. split; [reflexivity|]. split; [reflexivity|].
        unfold region_of. cbn [od_get].
        replace (String.eqb "chrM" "chrM") with true by reflexivity.
        reflexivity.
      * intros x a b Hx Hne.
        destruct (Hin x (a, b) Hx) as [[H0 | []] | (l & c & r & Hl & Hc & ->)];
          [injection H0 as <- _ _; congruence|].
        exists l, c, r. cbn [fst snd] in Hc. repeat split; try assumption.
        intro Hlack. now apply region_of_band.
    + cbn [bind] in H.
      destruct (band_loop_spec bands _ d H) as (Hd & _ & Hin);
        [constructor|].
      split; [assumption|]. split; [discriminate|].
      intros x a b Hx Hne.
      destruct (Hin x (a, b) Hx) as [[] | (l & c & r & Hl & Hc & ->)].
      exists l, c, r. cbn [fst snd] in Hc. repeat split; try assumption.
      intro Hlack. now apply region_of_band.
Qed.

(** ** [main]: the strand and read markers of a tag *)

Section Markers.

Lemma str_lacks_signed (c : ascii) (n : Z) :
  is_digit c = false -> Ascii.eqb "-" c = false -> lacks c (str n) = true.
Proof.
  intros Hc Hm. destruct (Z.ltb_spec n 0) as [Hneg | Hpos].
  - unfold str. replace (n <? 0) with true by (symmetry; now apply Z.ltb_lt).
    cbn [lacks]. rewrite Hm. cbn [negb andb].
    pose proof (str_lacks c (- n) Hc ltac:(lia)) as H. unfold str in H.
    now replace (- n <? 0) with false in H by (symmetry; apply Z.ltb_ge; lia).
  - now apply str_lacks.
Qed.

Lemma contains_rev_skip (a b : string) :
  lacks "r" a = true -> contains "rev" (a ++ b) = contains "rev" b.
Proof.
  induction a as [|x a IH]; intro H; [reflexivity|].
  cbn [lacks] in H. apply andb_true_iff in H as [Hx Ha].
  apply negb_true_iff in Hx. cbn [append contains]. rewrite (IH Ha).
  replace (String.prefix "rev" (String x (a ++ b))) with false; [reflexivity|].
  cbn [String.prefix]. destruct (ascii_dec "r" x) as [<-|]; [discriminate Hx|].
  reflexivity.
Qed.

Lemma raw_tag_split (barcode : string) (a b c d : Z) (strand read : string) :
  raw_tag barcode a b c d strand read
  = ((barcode ++ "_" ++ str a ++ "_" ++ str b ++ "_" ++ str c ++ "_" ++ str d
      ++ "_") ++ strand ++ "_" ++ read)%string.
Proof.
  unfold raw_tag, join. cbn [String.concat].
  rewrite !append_assoc. cbn [append]. reflexivity.
Qed.

Lemma raw_tag_head_lacks (x : ascii) (barcode : string) (a b c d : Z) :
  is_digit x = false -> Ascii.eqb "-" x = false -> Ascii.eqb "_" x = false ->
  lacks x barcode = true ->
  lacks x (barcode ++ "_" ++ str a ++ "_" ++ str b ++ "_" ++ str c ++ "_"
           ++ str d ++ "_") = true.
Proof.
  intros Hd Hm Hu Hb.
  rewrite !lacks_append, Hb, !str_lacks_signed by assumption.
  cbn [lacks]. rewrite Hu. reflexivity.
Qed.

End Markers.

(** X17.  The tag that [main] builds for a read whose barcode holds
    neither r nor R tells the strand and the read number of the read to
    the tests ['rev' in tag] and ['R1' in tag], by which [main] orients a
    consensus and chooses the file it is written to. *)
Theorem line_tag_markers (line : BamLine) (barcode : string) :
  getitem (split "|" (qname line)) 1 = Ok barcode ->
  lacks "r" barcode = true -> lacks "R" barcode = true ->
  exists tag,
    line_tag line = Ok tag
    /\ contains "rev" tag = is_reverse line
    /\ contains "R1" tag = negb (is_read2 line).
Proof.
  intros Hb Hr HR. unfold line_tag. rewrite Hb. cbn [bind].
  eexists. split; [reflexivity|]. rewrite raw_tag_split. split.
  - rewrite contains_rev_skip
      by (apply raw_tag_head_lacks; reflexivity || assumption).
    destruct (is_reverse line), (is_read2 line); reflexivity.
  - rewrite contains_R1_skip
      by (apply raw_tag_head_lacks; reflexivity || assumption).
    destruct (is_reverse line), (is_read2 line); reflexivity.
Qed.

Lemma line_tag_markers_witness :
  exists tag,
    line_tag (mkLine "read1|ACGT" 147 1 200 1 100 true true false false false
                     true) = Ok tag
    /\ contains "rev" tag = true
    /\ contains "R1" tag = negb true.
Proof.
  apply (line_tag_markers
           (mkLine "read1|ACGT" 147 1 200 1 100 true true false false false
                   true) "ACGT").
  - reflexivity.
  - reflexivity.
  - reflexivity.
Defined.
